(** * The Summarizer subsystem and the worker service dispatch

    A shallow embedding of
    - [SummarizerHeuristics], [RunningSummarizer] and the [Summarizer]
      facade of the container runtime (its [stop], [generateSummary], the
      preconditions of [runCore] and the loop of [handleSummaryAcks]), and
    - the worker service: [processDocumentWork], [revokeDocumentWork],
      [startTask], [stopTask], [getServiceForDoc], [loadUploadedModules],
      and the registration of runtime modules with intel work by
      [loadNewModule], [unloadModule] and [startTask].

    Numbers are JavaScript numbers holding integers (sequence numbers,
    millisecond clocks, counters); they are modelled as [Z], which is what
    they are within [Number.MAX_SAFE_INTEGER].  Strings are [string].
    Plain objects used as maps are modelled by their own keys, as [gmap];
    statements that depend on either say within which range they hold.  The code is single threaded and cooperative: an [async]
    function runs without interruption up to its next [await].  Async code
    is therefore modelled as a resumption: a synchronous segment that ends
    either with a result or suspended on an awaited promise together with the
    continuation that runs once the promise settles. *)

From Stdlib Require Import ZArith List Bool Lia.
From stdpp Require Import gmap strings.
Import ListNotations.
Local Open Scope Z_scope.

(** ** Data model *)

(** [ISummaryAttempt] *)
Record ISummaryAttempt := {
  refSequenceNumber : Z;
  summaryTime : Z;
  summarySequenceNumber : option Z;
}.

(** [ISummaryConfiguration] (protocol-definitions); the fields the code reads. *)
Record ISummaryConfiguration := {
  idleTime : Z;
  maxTime : Z;
  maxOps : Z;
  maxAckWaitTime : Z;
}.

(** [SummarizeReason] is a string type in the source (a union of literals and
    template literal types). *)
Definition SummarizeReason := string.

(** [SummarizerStopReason] *)
Inductive SummarizerStopReason :=
| failToSummarize
| parentNoLongerSummarizer
| parentNotConnected
| parentShouldNotSummarize
| disposed.

(** Keys of [summarizeErrors] and the table itself. *)
Inductive SummarizeErrorKey :=
| generateSummaryFailure
| summaryOpWaitTimeout
| summaryAckWaitTimeout
| summaryNack.

Definition summarizeErrors (k : SummarizeErrorKey) : string :=
  match k with
  | generateSummaryFailure => "Error while generating or submitting summary"
  | summaryOpWaitTimeout => "Timeout while waiting for summarize op broadcast"
  | summaryAckWaitTimeout => "Timeout while waiting for summaryAck/summaryNack op"
  | summaryNack => "Server rejected summary via summaryNack op"
  end.

Definition maxSummarizeTimeoutTime : Z := 20000.
Definition maxSummarizeTimeoutCount : Z := 5.
Definition maxSummarizeAckWaitTime : Z := 120000.
Definition minOpsForLastSummary : Z := 50.

(** [MessageType] (protocol-definitions): the wire-visible types the
    summarizer distinguishes, and the remaining ones. *)
Inductive MessageType :=
| Save | ClientJoin | ClientLeave | Propose | Reject
| Summarize | SummaryAck | SummaryNack | Operation | NoOp.

Definition MessageType_eqb (a b : MessageType) : bool :=
match a, b with
| Save, Save | ClientJoin, ClientJoin | ClientLeave, ClientLeave
| Propose, Propose | Reject, Reject | Summarize, Summarize
| SummaryAck, SummaryAck | SummaryNack, SummaryNack
| Operation, Operation | NoOp, NoOp => true
| _, _ => false
end.

(** [ISequencedDocumentMessage].  [contents] is the string that the template
    literal of [handleOp] interpolates; [data] is the client id that
    [JSON.parse] yields for a leave message. *)
Module Message.
Record t := {
  type : MessageType;
  sequenceNumber : Z;
  referenceSequenceNumber : Z;
  timestamp : Z;
  clientId : string;
  contents : string;
  data : string;
}.
End Message.

(** [GenerateSummaryData] (containerRuntime); telemetry-only statistics are
    left out. *)
Module GenerateSummaryData.
Record t := {
  referenceSequenceNumber : Z;
  submitted : bool;
  clientSequenceNumber : Z;
  error : option string;
}.
End GenerateSummaryData.

(** [IGenerateSummaryOptions] without the logger. *)
Record IGenerateSummaryOptions := {
  refreshLatestAck : bool;
  fullTree : bool;
}.

(** [IPromiseTimerResult] *)
Inductive IPromiseTimerResult := timeout | cancel.

(** What [Promise.race([p, pendingTimeoutP])] can resolve to: the value of
    [p], the timer's marker, or [undefined] (from [.catch(() => undefined)]). *)
Inductive RaceResult (T : Type) :=
| RaceValue (v : T)
| RaceTimer (timerResult : IPromiseTimerResult)
| RaceUndefined.
Arguments RaceValue {T} v.
Arguments RaceTimer {T} timerResult.
Arguments RaceUndefined {T}.

(** [checkNotTimeout]: a type guard; [Some v] when it narrows to [T]. *)
Definition checkNotTimeout {T} (something : RaceResult T) : option T :=
match something with
| RaceUndefined => None
| RaceTimer _ => None
| RaceValue v => Some v
end.

(** Outcome of an awaited promise that may reject. *)
Inductive Settled (T : Type) :=
| Fulfilled (v : T)
| Rejected (reason : string).
Arguments Fulfilled {T} v.
Arguments Rejected {T} reason.

(** ** Timers *)

(** The callbacks the code installs in its timers. *)
Inductive TimerHandler :=
| TrySummarizeIdle
| SummarizeTimerHandler (time : Z) (count : Z)
| PendingAckTimeout.

(** Modelled from the spec: the restartable [Timer] of common-utils is not
    among the sources.  [start(duration, onFire)]; [restart] cancels any
    pending firing and schedules anew; [clear] cancels silently.  Omitted
    arguments take the defaults given to the constructor.  The promise-timer
    is the same state; the future it hands out is settled by the
    environment. *)
Module Timer.
Record t := {
  defaultTimeout : Z;
  defaultHandler : TimerHandler;
  runningState : option (Z * TimerHandler);
}.

Definition new (ms : Z) (h : TimerHandler) : t :=
  {| defaultTimeout := ms; defaultHandler := h; runningState := None |}.

Definition clear (tm : t) : t :=
  {| defaultTimeout := defaultTimeout tm; defaultHandler := defaultHandler tm;
     runningState := None |}.

Definition start (ms : option Z) (h : option TimerHandler) (tm : t) : t :=
  {| defaultTimeout := defaultTimeout tm; defaultHandler := defaultHandler tm;
     runningState := Some (default (defaultTimeout tm) ms,
                           default (defaultHandler tm) h) |}.

Definition restart (ms : option Z) (h : option TimerHandler) (tm : t) : t :=
  start ms h (clear tm).

Definition hasTimer (tm : t) : bool :=
  match runningState tm with Some _ => true | None => false end.
End Timer.

(** ** SummarizerHeuristics *)

(** [lastAcked] and [lastAttempted] are held by value.  In the source
    [ackLastSent] and [initialize] alias the two objects, and the only
    in-place mutation is [lastAttempted.summarySequenceNumber = ...] in
    [summarize], which always follows the [recordAttempt] of the same attempt
    and therefore writes to a fresh object. *)
Module Heuristics.
Record t := {
  configuration : ISummaryConfiguration;
  lastOpSeqNumber : Z;
  _lastAttempted : ISummaryAttempt;
  _lastAcked : ISummaryAttempt;
  idleTimer : Timer.t;
}.

Definition new (configuration : ISummaryConfiguration) (lastOpSeqNumber : Z)
    (firstAck : ISummaryAttempt) : t :=
  {| configuration := configuration;
     lastOpSeqNumber := lastOpSeqNumber;
     _lastAttempted := firstAck;
     _lastAcked := firstAck;
     idleTimer := Timer.new (idleTime configuration) TrySummarizeIdle |}.

Definition lastAttempted (h : t) : ISummaryAttempt := _lastAttempted h.
Definition lastAcked (h : t) : ISummaryAttempt := _lastAcked h.

Definition set_lastOpSeqNumber (n : Z) (h : t) : t :=
  {| configuration := configuration h; lastOpSeqNumber := n;
     _lastAttempted := _lastAttempted h; _lastAcked := _lastAcked h;
     idleTimer := idleTimer h |}.

Definition set_lastAttempted (a : ISummaryAttempt) (h : t) : t :=
  {| configuration := configuration h; lastOpSeqNumber := lastOpSeqNumber h;
     _lastAttempted := a; _lastAcked := _lastAcked h;
     idleTimer := idleTimer h |}.

Definition set_lastAcked (a : ISummaryAttempt) (h : t) : t :=
  {| configuration := configuration h; lastOpSeqNumber := lastOpSeqNumber h;
     _lastAttempted := _lastAttempted h; _lastAcked := a;
     idleTimer := idleTimer h |}.

Definition set_idleTimer (tm : Timer.t) (h : t) : t :=
  {| configuration := configuration h; lastOpSeqNumber := lastOpSeqNumber h;
     _lastAttempted := _lastAttempted h; _lastAcked := _lastAcked h;
     idleTimer := tm |}.

(** [initialize(lastSummary)] *)
Definition initialize (lastSummary : ISummaryAttempt) (h : t) : t :=
  set_lastAcked lastSummary (set_lastAttempted lastSummary h).

(** [recordAttempt(refSequenceNumber?)]; [now] is [Date.now()]. *)
Definition recordAttempt (now : Z) (refSequenceNumber : option Z) (h : t) : t :=
  set_lastAttempted
    {| refSequenceNumber := default (lastOpSeqNumber h) refSequenceNumber;
       summaryTime := now;
       summarySequenceNumber := None |} h.

(** [ackLastSent()] *)
Definition ackLastSent (h : t) : t :=
  set_lastAcked (lastAttempted h) h.

(** [lastAttempted.summarySequenceNumber = n] *)
Definition set_summarySequenceNumber (n : Z) (h : t) : t :=
  set_lastAttempted
    {| refSequenceNumber := refSequenceNumber (lastAttempted h);
       summaryTime := summaryTime (lastAttempted h);
       summarySequenceNumber := Some n |} h.

(** [this.idleTimer.clear()] *)
Definition clearIdleTimer (h : t) : t :=
  set_idleTimer (Timer.clear (idleTimer h)) h.

(** [this.idleTimer.restart()] *)
Definition restartIdleTimer (h : t) : t :=
  set_idleTimer (Timer.restart None None (idleTimer h)) h.

(** [dispose()] *)
Definition dispose (h : t) : t := clearIdleTimer h.

(** The ordering the specification states for the heuristics state. *)
Definition ordered (h : t) : Prop :=
  refSequenceNumber (lastAcked h) <= refSequenceNumber (lastAttempted h)
  /\ refSequenceNumber (lastAttempted h) <= lastOpSeqNumber h.
End Heuristics.

(** ** Observable effects *)

(** Calls on the collaborators (internals provider, watcher, logger, the
    raise-warning callback), in the order the code makes them.  [EnterRun]
    and [EnterTrySummarize] mark the entry into [heuristics.run()] and
    [trySummarize(reason)]; they let statements count those calls. *)
Inductive Effect :=
| GenerateSummary (options : IGenerateSummaryOptions)
| StopCalled (reason : SummarizerStopReason)
| RaiseSummarizingError (description : string)
| WatchSummary (clientSequenceNumber : Z)
| WatcherDispose
| SummarizeStart (reason : SummarizeReason) (options : IGenerateSummaryOptions)
| SummarizeEnd
| SummarizeCancel (message : SummarizeErrorKey)
| Telemetry (eventName : string)
| EnterRun
| EnterTrySummarize (reason : SummarizeReason).

(** The promises the summarize protocol awaits, and what each settles to. *)
Inductive Awaitable :=
| AwGenerateSummary (options : IGenerateSummaryOptions)
| AwBroadcast (clientSequenceNumber : Z)
| AwAckNack (clientSequenceNumber : Z).

Definition Resp (w : Awaitable) : Type :=
  match w with
  | AwGenerateSummary _ => Settled GenerateSummaryData.t
  | AwBroadcast _ => RaceResult Message.t
  | AwAckNack _ => RaceResult Message.t
  end.

(** ** RunningSummarizer: the instance state *)

(** A [Deferred<void>] is identified by the order of its allocation. *)
Definition Deferred := nat.

(** The fields of a [RunningSummarizer].  [dateNow] is what [Date.now()]
    returns while the current synchronous segment runs; the environment sets
    it.  The logger, the watcher and the internals provider are collaborators:
    calls on them are recorded as effects. *)
Module RunningSummarizer.
Record t := {
  clientId : string;
  onBehalfOfClientId : string;
  configuration : ISummaryConfiguration;
  heuristics : Heuristics.t;
  stopping : bool;
  _disposed : bool;
  summarizing : option Deferred;
  summarizeCount : Z;
  tryWhileSummarizing : bool;
  summarizeTimer : Timer.t;
  pendingAckTimer : Timer.t;
  dateNow : Z;
}.

Definition set_heuristics (v : Heuristics.t) (s : t) : t :=
  {| clientId := clientId s; onBehalfOfClientId := onBehalfOfClientId s;
     configuration := configuration s; heuristics := v;
     stopping := stopping s; _disposed := _disposed s;
     summarizing := summarizing s; summarizeCount := summarizeCount s;
     tryWhileSummarizing := tryWhileSummarizing s;
     summarizeTimer := summarizeTimer s;
     pendingAckTimer := pendingAckTimer s; dateNow := dateNow s |}.

Definition set_stopping (v : bool) (s : t) : t :=
  {| clientId := clientId s; onBehalfOfClientId := onBehalfOfClientId s;
     configuration := configuration s; heuristics := heuristics s;
     stopping := v; _disposed := _disposed s; summarizing := summarizing s;
     summarizeCount := summarizeCount s;
     tryWhileSummarizing := tryWhileSummarizing s;
     summarizeTimer := summarizeTimer s;
     pendingAckTimer := pendingAckTimer s; dateNow := dateNow s |}.

Definition set__disposed (v : bool) (s : t) : t :=
  {| clientId := clientId s; onBehalfOfClientId := onBehalfOfClientId s;
     configuration := configuration s; heuristics := heuristics s;
     stopping := stopping s; _disposed := v; summarizing := summarizing s;
     summarizeCount := summarizeCount s;
     tryWhileSummarizing := tryWhileSummarizing s;
     summarizeTimer := summarizeTimer s;
     pendingAckTimer := pendingAckTimer s; dateNow := dateNow s |}.

Definition set_summarizing (v : option Deferred) (s : t) : t :=
  {| clientId := clientId s; onBehalfOfClientId := onBehalfOfClientId s;
     configuration := configuration s; heuristics := heuristics s;
     stopping := stopping s; _disposed := _disposed s; summarizing := v;
     summarizeCount := summarizeCount s;
     tryWhileSummarizing := tryWhileSummarizing s;
     summarizeTimer := summarizeTimer s;
     pendingAckTimer := pendingAckTimer s; dateNow := dateNow s |}.

Definition set_summarizeCount (v : Z) (s : t) : t :=
  {| clientId := clientId s; onBehalfOfClientId := onBehalfOfClientId s;
     configuration := configuration s; heuristics := heuristics s;
     stopping := stopping s; _disposed := _disposed s;
     summarizing := summarizing s; summarizeCount := v;
     tryWhileSummarizing := tryWhileSummarizing s;
     summarizeTimer := summarizeTimer s;
     pendingAckTimer := pendingAckTimer s; dateNow := dateNow s |}.

Definition set_tryWhileSummarizing (v : bool) (s : t) : t :=
  {| clientId := clientId s; onBehalfOfClientId := onBehalfOfClientId s;
     configuration := configuration s; heuristics := heuristics s;
     stopping := stopping s; _disposed := _disposed s;
     summarizing := summarizing s; summarizeCount := summarizeCount s;
     tryWhileSummarizing := v; summarizeTimer := summarizeTimer s;
     pendingAckTimer := pendingAckTimer s; dateNow := dateNow s |}.

Definition set_summarizeTimer (v : Timer.t) (s : t) : t :=
  {| clientId := clientId s; onBehalfOfClientId := onBehalfOfClientId s;
     configuration := configuration s; heuristics := heuristics s;
     stopping := stopping s; _disposed := _disposed s;
     summarizing := summarizing s; summarizeCount := summarizeCount s;
     tryWhileSummarizing := tryWhileSummarizing s; summarizeTimer := v;
     pendingAckTimer := pendingAckTimer s; dateNow := dateNow s |}.

Definition set_pendingAckTimer (v : Timer.t) (s : t) : t :=
  {| clientId := clientId s; onBehalfOfClientId := onBehalfOfClientId s;
     configuration := configuration s; heuristics := heuristics s;
     stopping := stopping s; _disposed := _disposed s;
     summarizing := summarizing s; summarizeCount := summarizeCount s;
     tryWhileSummarizing := tryWhileSummarizing s;
     summarizeTimer := summarizeTimer s; pendingAckTimer := v;
     dateNow := dateNow s |}.

Definition set_dateNow (v : Z) (s : t) : t :=
  {| clientId := clientId s; onBehalfOfClientId := onBehalfOfClientId s;
     configuration := configuration s; heuristics := heuristics s;
     stopping := stopping s; _disposed := _disposed s;
     summarizing := summarizing s; summarizeCount := summarizeCount s;
     tryWhileSummarizing := tryWhileSummarizing s;
     summarizeTimer := summarizeTimer s;
     pendingAckTimer := pendingAckTimer s; dateNow := v |}.


(** *** Resumptions *)

(** A synchronous segment of async code: it ends with a value, or suspended
    on an awaited promise.  Either way it leaves a state and the effects it
    performed.  The continuation receives what the promise settled to and the
    state at that time (other handlers may have run in between). *)
Inductive Step (A : Type) : Type :=
| Done (a : A) (s : t) (out : list Effect)
| Susp (w : Awaitable) (s : t) (out : list Effect) (k : Resp w -> t -> Step A).
Arguments Done {A} a s out.
Arguments Susp {A} w s out k.

Definition Async (A : Type) : Type := t -> Step A.

Definition prepend {A} (out0 : list Effect) (r : Step A) : Step A :=
  match r with
  | Done a s out => Done a s (out0 ++ out)
  | Susp w s out k => Susp w s (out0 ++ out) k
  end.

Fixpoint bindStep {A B} (r : Step A) (f : A -> Async B) : Step B :=
  match r with
  | Done a s out => prepend out (f a s)
  | Susp w s out k => Susp w s out (fun x s' => bindStep (k x s') f)
  end.

Definition ret {A} (a : A) : Async A := fun s => Done a s [].
Definition bind {A B} (m : Async A) (f : A -> Async B) : Async B :=
  fun s => bindStep (m s) f.
Definition await (w : Awaitable) : Async (Resp w) :=
  fun s => Susp w s [] (fun x s' => Done x s' []).
Definition emit (e : Effect) : Async unit := fun s => Done tt s [e].
Definition modify (f : t -> t) : Async unit := fun s => Done tt (f s) [].

Notation "x <- m ;; k" := (bind m (fun x => k))
  (at level 100, m at next level, right associativity).
Notation "m ;; k" := (bind m (fun _ => k))
  (at level 100, right associativity).

(** *** summarize *)

Definition modifyHeuristics (f : Heuristics.t -> Heuristics.t) : Async unit :=
  modify (fun s => set_heuristics (f (heuristics s)) s).

(** [this.heuristics.recordAttempt(ref)] *)
Definition recordAttempt (refSequenceNumber : option Z) : Async unit :=
  modify (fun s =>
    set_heuristics
      (Heuristics.recordAttempt (dateNow s) refSequenceNumber (heuristics s)) s).

(** The helper [fail] of [summarize]. *)
Definition fail (message : SummarizeErrorKey) : Async bool :=
  emit (RaiseSummarizingError (summarizeErrors message));;
  emit (SummarizeCancel message);;
  ret false.

Definition clearPendingAckTimer : Async unit :=
  modify (fun s => set_pendingAckTimer (Timer.clear (pendingAckTimer s)) s).

Definition clearSummarizeTimer : Async unit :=
  modify (fun s => set_summarizeTimer (Timer.clear (summarizeTimer s)) s).

(** [summarize(reason, options)].  The [finally] blocks are written out on
    every path that leaves their [try].  Only [generateSummary] is taken to
    throw or reject: the logger does not throw, and the watcher's
    [watchSummary], [waitBroadcast] and [waitAckNack] are promises that
    resolve, as the specification describes them. *)
Definition summarize (reason : SummarizeReason)
    (options : IGenerateSummaryOptions) : Async bool :=
  modify (fun s => set_summarizeCount (summarizeCount s + 1) s);;
  emit (SummarizeStart reason options);;
  modify (fun s => set_summarizeTimer (Timer.start None None (summarizeTimer s)) s);;
  emit (GenerateSummary options);;
  settled <- await (AwGenerateSummary options);;
  match settled with
  | Rejected _ =>
      result <- fail generateSummaryFailure;;
      recordAttempt None;;
      clearSummarizeTimer;;
      ret result
  | Fulfilled summaryData =>
      emit (Telemetry "GenerateSummary");;
      recordAttempt (Some (GenerateSummaryData.referenceSequenceNumber summaryData));;
      clearSummarizeTimer;;
      if negb (GenerateSummaryData.submitted summaryData) then
        fail generateSummaryFailure
      else
        let csn := GenerateSummaryData.clientSequenceNumber summaryData in
        modify (fun s =>
          set_pendingAckTimer (Timer.start None None (Timer.clear (pendingAckTimer s))) s);;
        emit (WatchSummary csn);;
        raced <- await (AwBroadcast csn);;
        match checkNotTimeout raced with
        | None =>
            result <- fail summaryOpWaitTimeout;;
            clearPendingAckTimer;;
            ret result
        | Some summaryOp =>
            modifyHeuristics
              (Heuristics.set_summarySequenceNumber (Message.sequenceNumber summaryOp));;
            emit (Telemetry "SummaryOp");;
            raced' <- await (AwAckNack csn);;
            match checkNotTimeout raced' with
            | None =>
                result <- fail summaryAckWaitTimeout;;
                clearPendingAckTimer;;
                ret result
            | Some ackNack =>
                clearPendingAckTimer;;
                if MessageType_eqb (Message.type ackNack) SummaryAck then
                  modifyHeuristics Heuristics.ackLastSent;;
                  emit SummarizeEnd;;
                  clearPendingAckTimer;;
                  ret true
                else
                  result <- fail summaryNack;;
                  clearPendingAckTimer;;
                  ret result
            end
        end
  end.

(** The body of the async function that [trySummarize] starts. *)
Definition attempts (reason : SummarizeReason) : Async unit :=
  ok1 <- summarize reason {| refreshLatestAck := false; fullTree := false |};;
  if ok1 then ret tt else
  ok2 <- summarize "retry1" {| refreshLatestAck := true; fullTree := false |};;
  if ok2 then ret tt else
  ok3 <- summarize "retry2" {| refreshLatestAck := true; fullTree := true |};;
  if ok3 then ret tt else
  emit (Telemetry "FailToSummarize");;
  emit (StopCalled failToSummarize).

(** *** The instance together with its suspended async work *)

(** What the promise chain started by [trySummarize] is waiting for: nothing
    (no chain), an awaited promise with the rest of the async function, or
    the [.finally] callback queued after the function has returned. *)
Inductive Pending :=
| Idle
| Awaiting (w : Awaitable) (k : Resp w -> t -> Step unit)
| Finalizing.

Record Machine := {
  this : t;
  pending : Pending;
  trace : list Effect;
  allocated : nat;
  resolved : list Deferred;
}.

Definition with_this (f : t -> t) (m : Machine) : Machine :=
  {| this := f (this m); pending := pending m; trace := trace m;
     allocated := allocated m; resolved := resolved m |}.

Definition log (es : list Effect) (m : Machine) : Machine :=
  {| this := this m; pending := pending m; trace := trace m ++ es;
     allocated := allocated m; resolved := resolved m |}.

(** Run an async function up to its first suspension and park it. *)
Definition launch (r : Step unit) (m : Machine) : Machine :=
  match r with
  | Done _ s out =>
      {| this := s; pending := Finalizing; trace := trace m ++ out;
         allocated := allocated m; resolved := resolved m |}
  | Susp w s out k =>
      {| this := s; pending := Awaiting w k; trace := trace m ++ out;
         allocated := allocated m; resolved := resolved m |}
  end.

(** [trySummarize(reason)], up to the first [await] of the function it
    starts. *)
Definition trySummarize (reason : SummarizeReason) (m : Machine) : Machine :=
  let m := log [EnterTrySummarize reason] m in
  match summarizing (this m) with
  | Some _ => with_this (set_tryWhileSummarizing true) m
  | None =>
      let d := allocated m in
      launch (attempts reason (set_summarizing (Some d) (this m)))
        {| this := this m; pending := pending m; trace := trace m;
           allocated := S d; resolved := resolved m |}
  end.

(** [heuristics.run()]; the callback given to the heuristics is
    [trySummarize]. *)
Definition run (m : Machine) : Machine :=
  let m := log [EnterRun] m in
  let m := with_this (fun s => set_heuristics (Heuristics.clearIdleTimer (heuristics s)) s) m in
  let h := heuristics (this m) in
  let timeSinceLastSummary := dateNow (this m) - summaryTime (Heuristics.lastAcked h) in
  let opCountSinceLastSummary :=
    Heuristics.lastOpSeqNumber h - refSequenceNumber (Heuristics.lastAcked h) in
  if timeSinceLastSummary >? maxTime (Heuristics.configuration h) then
    trySummarize "maxTime" m
  else if opCountSinceLastSummary >? maxOps (Heuristics.configuration h) then
    trySummarize "maxOps" m
  else
    with_this (fun s => set_heuristics (Heuristics.restartIdleTimer (heuristics s)) s) m.

(** The [.finally] callback of [trySummarize]. *)
Definition finalizer (m : Machine) : Machine :=
  let m :=
    {| this := set_summarizing None (this m); pending := Idle; trace := trace m;
       allocated := allocated m;
       resolved := match summarizing (this m) with
                   | Some d => d :: resolved m
                   | None => resolved m
                   end |} in
  if tryWhileSummarizing (this m) && negb (stopping (this m))
     && negb (_disposed (this m)) then
    run (with_this (set_tryWhileSummarizing false) m)
  else m.

(** [handleOp(error, op)] *)
Definition handleOp (error : option string) (op : Message.t) (m : Machine) : Machine :=
  match error with
  | Some _ => m
  | None =>
      let m := with_this (fun s =>
        set_heuristics
          (Heuristics.set_lastOpSeqNumber (Message.sequenceNumber op) (heuristics s)) s) m in
      if MessageType_eqb (Message.type op) Save then
        trySummarize ("save;" +:+ Message.clientId op +:+ ": " +:+ Message.contents op) m
      else run m
  end.

(** [handleSystemOp(op)] *)
Definition handleSystemOp (op : Message.t) (m : Machine) : Machine :=
  match Message.type op with
  | ClientLeave =>
      let leavingClientId := Message.data op in
      if String.eqb leavingClientId (clientId (this m))
         || String.eqb leavingClientId (onBehalfOfClientId (this m))
      then m
      else handleOp None op m
  | ClientJoin | Propose | Reject => handleOp None op m
  | _ => m
  end.

(** [waitStop()].  The second component is the signal the call still awaits
    when its synchronous part is over: [Some d] for
    [await this.summarizing.promise], [None] when it returns without waiting. *)
Definition waitStop (m : Machine) : Machine * option Deferred :=
  if _disposed (this m) then (m, None)
  else if stopping (this m) then (m, summarizing (this m))
  else
    let m := with_this (set_stopping true) m in
    let outstandingOps :=
      Heuristics.lastOpSeqNumber (heuristics (this m))
      - refSequenceNumber (Heuristics.lastAcked (heuristics (this m))) in
    if outstandingOps >? minOpsForLastSummary then
      let m := trySummarize "lastSummary" m in
      (m, summarizing (this m))
    else (m, None).

(** [dispose()] *)
Definition dispose (m : Machine) : Machine :=
  let m := log [WatcherDispose] m in
  with_this (fun s =>
    set__disposed true
      (set_pendingAckTimer (Timer.clear (pendingAckTimer s))
        (set_summarizeTimer (Timer.clear (summarizeTimer s))
          (set_heuristics (Heuristics.dispose (heuristics s)) s)))) m.

(** [summarizeTimerHandler(time, count)] *)
Definition summarizeTimerHandler (time count : Z) (m : Machine) : Machine :=
  let m := log [Telemetry "SummarizeTimeout"] m in
  if count <? maxSummarizeTimeoutCount then
    let nextTime := time * 2 in
    with_this (fun s =>
      set_summarizeTimer
        (Timer.start (Some nextTime) (Some (SummarizeTimerHandler nextTime (count + 1)))
           (summarizeTimer s)) s) m
  else m.

(** The callback given to the [PromiseTimer] in the constructor. *)
Definition pendingAckTimeoutHandler (m : Machine) : Machine :=
  log [RaiseSummarizingError "SummaryAckWaitTimeout";
       Telemetry "SummaryAckWaitTimeout"] m.

Definition runHandler (h : TimerHandler) (m : Machine) : Machine :=
  match h with
  | TrySummarizeIdle => trySummarize "idle" m
  | SummarizeTimerHandler time count => summarizeTimerHandler time count m
  | PendingAckTimeout => pendingAckTimeoutHandler m
  end.

(** The constructor. *)
Definition new (clientId onBehalfOfClientId : string)
    (configuration : ISummaryConfiguration) (lastOpSeqNumber : Z)
    (firstAck : ISummaryAttempt) (now : Z) : Machine :=
  {| this :=
       {| clientId := clientId;
          onBehalfOfClientId := onBehalfOfClientId;
          configuration := configuration;
          heuristics := Heuristics.new configuration lastOpSeqNumber firstAck;
          stopping := false;
          _disposed := false;
          summarizing := None;
          summarizeCount := 0;
          tryWhileSummarizing := false;
          summarizeTimer :=
            Timer.new maxSummarizeTimeoutTime
              (SummarizeTimerHandler maxSummarizeTimeoutTime 1);
          pendingAckTimer :=
            Timer.new (Z.min (maxAckWaitTime configuration) maxSummarizeAckWaitTime)
              PendingAckTimeout;
          dateNow := now |};
     pending := Idle;
     trace := [];
     allocated := 0%nat;
     resolved := [] |}.

(** [waitStart()] from the point where its race has settled; [maybeLastAck]
    carries the [summaryOp] of the acked summary. *)
Definition waitStart (maybeLastAck : RaceResult Message.t) (m : Machine) : Machine :=
  let m := match maybeLastAck with
           | RaceTimer timeout => pendingAckTimeoutHandler m
           | _ => m
           end in
  let m := with_this (fun s => set_pendingAckTimer (Timer.clear (pendingAckTimer s)) s) m in
  match checkNotTimeout maybeLastAck with
  | Some summaryOp =>
      with_this (fun s =>
        set_heuristics
          (Heuristics.initialize
             {| refSequenceNumber := Message.referenceSequenceNumber summaryOp;
                summaryTime := Message.timestamp summaryOp;
                summarySequenceNumber := Some (Message.sequenceNumber summaryOp) |}
             (heuristics s)) s) m
  | None => m
  end.

(** [RunningSummarizer.start(...)], given what the race in [waitStart]
    settled to. *)
Definition start (clientId onBehalfOfClientId : string)
    (configuration : ISummaryConfiguration) (lastOpSeqNumber : Z)
    (firstAck : ISummaryAttempt) (now : Z)
    (maybeLastAck : RaceResult Message.t) : Machine :=
  run (waitStart maybeLastAck
         (new clientId onBehalfOfClientId configuration lastOpSeqNumber firstAck now)).

(** *** Events *)

(** What the environment can settle an awaited promise with. *)
Inductive Answer :=
| GenerateSettled (r : Settled GenerateSummaryData.t)
| RaceSettled (r : RaceResult Message.t).

Definition answerFor (w : Awaitable) (a : Answer) : option (Resp w) :=
  match w return option (Resp w) with
  | AwGenerateSummary _ =>
      match a with GenerateSettled r => Some r | RaceSettled _ => None end
  | AwBroadcast _ =>
      match a with RaceSettled r => Some r | GenerateSettled _ => None end
  | AwAckNack _ =>
      match a with RaceSettled r => Some r | GenerateSettled _ => None end
  end.

Inductive TimerName := IdleTimer | SummarizeTimer.

Inductive Event :=
| BatchEnd (error : option string) (op : Message.t)
| InboundOp (op : Message.t)
| TimerFires (which : TimerName)
| Settles (a : Answer)
| FinallyRuns
| WaitStop
| Dispose.

Definition fire (which : TimerName) (m : Machine) : Machine :=
  match which with
  | IdleTimer =>
      match Timer.runningState (Heuristics.idleTimer (heuristics (this m))) with
      | Some (_, h) =>
          runHandler h
            (with_this (fun s =>
               set_heuristics (Heuristics.clearIdleTimer (heuristics s)) s) m)
      | None => m
      end
  | SummarizeTimer =>
      match Timer.runningState (summarizeTimer (this m)) with
      | Some (_, h) =>
          runHandler h
            (with_this (fun s => set_summarizeTimer (Timer.clear (summarizeTimer s)) s) m)
      | None => m
      end
  end.

(** A promise settles: when the chain awaits a promise of that kind, the rest
    of the async function runs up to its next suspension.  A race won by the
    pending-ack timer first runs the timer's callback. *)
Definition settle (a : Answer) (m : Machine) : Machine :=
  match pending m with
  | Awaiting w k =>
      match answerFor w a with
      | Some x =>
          let m :=
            match a with
            | RaceSettled (RaceTimer timeout) =>
                pendingAckTimeoutHandler
                  (with_this (fun s =>
                     set_pendingAckTimer (Timer.clear (pendingAckTimer s)) s) m)
            | _ => m
            end in
          launch (k x (this m)) m
      | None => m
      end
  | _ => m
  end.

(** One turn of the event loop at wall-clock time [now]. *)
Definition step (now : Z) (e : Event) (m : Machine) : Machine :=
  let m := with_this (set_dateNow now) m in
  match e with
  | BatchEnd error op => handleOp error op m
  | InboundOp op => handleSystemOp op m
  | TimerFires which => fire which m
  | Settles a => settle a m
  | FinallyRuns =>
      match pending m with
      | Finalizing => finalizer m
      | _ => m
      end
  | WaitStop => fst (waitStop m)
  | Dispose => dispose m
  end.

Definition steps (es : list (Z * Event)) (m : Machine) : Machine :=
  fold_left (fun m e => step (fst e) (snd e) m) es m.

(** *** Driving one async function in isolation *)

(** One settlement: what the awaited promise settles to, and what other
    handlers did to the instance while the function was suspended. *)
Record Turn := {
  interference : t -> t;
  answer : Answer;
}.

(** How far a function gets on a list of settlements: to its end (with the
    settlements left over), to an await with no settlement left, or to a
    settlement of the wrong kind for the promise awaited. *)
Inductive Outcome (A : Type) :=
| Finished (a : A) (s : t) (out : list Effect) (rest : list Turn)
| StillWaiting (w : Awaitable) (s : t) (out : list Effect)
| Mismatch.
Arguments Finished {A} a s out rest.
Arguments StillWaiting {A} w s out.
Arguments Mismatch {A}.

Definition prependOutcome {A} (out0 : list Effect) (o : Outcome A) : Outcome A :=
  match o with
  | Finished a s out rest => Finished a s (out0 ++ out) rest
  | StillWaiting w s out => StillWaiting w s (out0 ++ out)
  | Mismatch => Mismatch
  end.

Fixpoint drive {A} (r : Step A) (turns : list Turn) : Outcome A :=
  match r with
  | Done a s out => Finished a s out turns
  | Susp w s out k =>
      match turns with
      | [] => StillWaiting w s out
      | turn :: turns' =>
          match answerFor w (answer turn) with
          | Some x => prependOutcome out (drive (k x (interference turn s)) turns')
          | None => Mismatch
          end
      end
  end.

(** *** Reading a list of effects *)

Definition startedAttempts (out : list Effect)
    : list (SummarizeReason * IGenerateSummaryOptions) :=
  omap (fun e => match e with SummarizeStart r o => Some (r, o) | _ => None end) out.

Definition generateCalls (out : list Effect) : list IGenerateSummaryOptions :=
  omap (fun e => match e with GenerateSummary o => Some o | _ => None end) out.

(** [true] for an attempt that ended in an ack, [false] for a failed one. *)
Definition attemptResults (out : list Effect) : list bool :=
  omap (fun e => match e with
                 | SummarizeEnd => Some true
                 | SummarizeCancel _ => Some false
                 | _ => None
                 end) out.

Definition stopCalls (out : list Effect) : list SummarizerStopReason :=
  omap (fun e => match e with StopCalled r => Some r | _ => None end) out.

Definition raised (out : list Effect) : list string :=
  omap (fun e => match e with RaiseSummarizingError d => Some d | _ => None end) out.

Definition runCalls (out : list Effect) : nat :=
  length (omap (fun e => match e with EnterRun => Some tt | _ => None end) out).

Definition triggers (out : list Effect) : list SummarizeReason :=
  omap (fun e => match e with EnterTrySummarize r => Some r | _ => None end) out.

(** The effects [m'] has performed beyond those of [m]. *)
Definition since (m m' : Machine) : list Effect :=
  drop (length (trace m)) (trace m').

(** *** The outcome of one attempt, in the words of the specification *)



(** The options of the three attempts of one trigger. *)
Definition firstOptions : IGenerateSummaryOptions :=
  {| refreshLatestAck := false; fullTree := false |}.
Definition retry1Options : IGenerateSummaryOptions :=
  {| refreshLatestAck := true; fullTree := false |}.
Definition retry2Options : IGenerateSummaryOptions :=
  {| refreshLatestAck := true; fullTree := true |}.

(** The attempts of one trigger, in order. *)
Definition escalation (reason : SummarizeReason)
    : list (SummarizeReason * IGenerateSummaryOptions) :=
  [(reason, firstOptions); ("retry1", retry1Options); ("retry2", retry2Options)].

(** [out] shows the first [n] attempts of the escalation, each with one call
    of [generateSummary] with the attempt's options, with the given results
    and the given calls of [stop]. *)
Definition escalated (reason : SummarizeReason) (out : list Effect) (n : nat)
    (results : list bool) (stops : list SummarizerStopReason) : Prop :=
  startedAttempts out = take n (escalation reason)
  /\ generateCalls out = (take n (escalation reason)).*2
  /\ attemptResults out = results
  /\ stopCalls out = stops.

(** What a trigger has logged when its async function has returned ... *)
Definition triggerCompleted (reason : SummarizeReason) (out : list Effect) : Prop :=
  escalated reason out 1 [true] []
  \/ escalated reason out 2 [false; true] []
  \/ escalated reason out 3 [false; false; true] []
  \/ escalated reason out 3 [false; false; false] [failToSummarize].

(** ... and while it still awaits a promise. *)
Definition triggerInProgress (reason : SummarizeReason) (out : list Effect) : Prop :=
  escalated reason out 1 [] []
  \/ escalated reason out 2 [false] []
  \/ escalated reason out 3 [false; false] [].

Definition escalatesOn (reason : SummarizeReason) (o : Outcome unit) : Prop :=
  match o with
  | Finished _ _ out _ => triggerCompleted reason out
  | StillWaiting _ _ out => triggerInProgress reason out
  | Mismatch => True
  end.

(** *** Frame conditions for async functions *)

(** Every segment of [r] leaves a state related by [R] to the state the
    segment started from and performs effects within [Q], whatever the
    promises settle to within [G]. *)
Inductive respects {A} (R : t -> t -> Prop)
    (G : forall w : Awaitable, Resp w -> t -> Prop)
    (Q : list Effect -> Prop) : t -> Step A -> Prop :=
| respects_Done s0 a s out :
    R s0 s -> Q out -> respects R G Q s0 (Done a s out)
| respects_Susp s0 w s out k :
    R s0 s -> Q out ->
    (forall x s', G w x s' -> respects R G Q s' (k x s')) ->
    respects R G Q s0 (Susp w s out k).

(** The effects that async code performs (the others belong to the
    synchronous methods). *)
Definition asyncEffect (e : Effect) : bool :=
  match e with
  | EnterRun | EnterTrySummarize _ | WatcherDispose => false
  | _ => true
  end.

(** The fields that only the synchronous methods write. *)
Definition sameFlags (s0 s : t) : Prop :=
  summarizing s = summarizing s0
  /\ tryWhileSummarizing s = tryWhileSummarizing s0
  /\ stopping s = stopping s0
  /\ _disposed s = _disposed s0
  /\ Heuristics.lastOpSeqNumber (heuristics s) = Heuristics.lastOpSeqNumber (heuristics s0)
  /\ Heuristics.idleTimer (heuristics s) = Heuristics.idleTimer (heuristics s0)
  /\ Heuristics.configuration (heuristics s) = Heuristics.configuration (heuristics s0).

Definition anyAnswer (w : Awaitable) (x : Resp w) (s : t) : Prop := True.

(** Effects without any entry into [heuristics.run()] or [trySummarize]. *)
Definition quiet (out : list Effect) : Prop :=
  triggers out = [] /\ runCalls out = 0%nat.

(** The suspended function is there exactly while [summarizing] is set, and
    it leaves the flags alone. *)
Definition consistent (m : Machine) : Prop :=
  (pending m = Idle <-> summarizing (this m) = None)
  /\ match pending m with
     | Awaiting w k => forall x s', respects sameFlags anyAnswer quiet s' (k x s')
     | _ => True
     end.

(** Whether [trySummarize] was entered. *)
Definition triggered (out : list Effect) : bool :=
  match triggers out with [] => false | _ :: _ => true end.

(** Effects that say nothing about attempts. *)
Definition noAttempt (out : list Effect) : Prop :=
  startedAttempts out = [] /\ generateCalls out = []
  /\ attemptResults out = [] /\ stopCalls out = [].

(** [m'] comes from [m] by work done beside the attempt in flight under the
    signal [d]: the suspended function is untouched, nothing about attempts
    is logged, and the coalescing flag is raised exactly when [trySummarize]
    was entered. *)
Definition beside (d : Deferred) (m m' : Machine) : Prop :=
  summarizing (this m') = Some d
  /\ pending m' = pending m
  /\ exists delta,
       trace m' = trace m ++ delta
       /\ noAttempt delta
       /\ tryWhileSummarizing (this m')
          = tryWhileSummarizing (this m) || triggered delta.

(** [m'] comes from [m] while the attempt under the signal [d] stays in
    flight. *)
Definition during (d : Deferred) (m m' : Machine) : Prop :=
  summarizing (this m') = Some d
  /\ consistent m'
  /\ exists delta,
       trace m' = trace m ++ delta
       /\ tryWhileSummarizing (this m')
          = tryWhileSummarizing (this m) || triggered delta.

(** The machine is inside the escalation of a trigger with [reason] that has
    logged [P] so far: [P] shows a prefix of the escalation, and so will the
    log however the suspended function goes on. *)
Definition inEscalation (reason : SummarizeReason) (P : list Effect)
    (m : Machine) : Prop :=
  match pending m with
  | Idle => False
  | Awaiting w k =>
      triggerInProgress reason P
      /\ forall x s' turns,
           escalatesOn reason (prependOutcome P (drive (k x s') turns))
  | Finalizing => triggerCompleted reason P
  end.

(** Events other than the run of the [.finally] callback. *)
Definition notFinally (e : Z * Event) : Prop := snd e <> FinallyRuns.

(** *** The ordering of the heuristics state *)

Definition orderedOf (s : t) : Prop := Heuristics.ordered (heuristics s).

(** A segment keeps the ordering (and the last op sequence number). *)
Definition keepsOrder (s0 s : t) : Prop :=
  (orderedOf s0 -> orderedOf s)
  /\ Heuristics.lastOpSeqNumber (heuristics s) = Heuristics.lastOpSeqNumber (heuristics s0).

(** [generateSummary] reports a reference sequence number between that of
    the last acked summary and the last op the heuristics have seen. *)
Definition boundedReference (d : GenerateSummaryData.t) (s : t) : Prop :=
  refSequenceNumber (Heuristics.lastAcked (heuristics s))
    <= GenerateSummaryData.referenceSequenceNumber d
  /\ GenerateSummaryData.referenceSequenceNumber d
    <= Heuristics.lastOpSeqNumber (heuristics s).

Definition boundedAnswer (w : Awaitable) : Resp w -> t -> Prop :=
  match w return Resp w -> t -> Prop with
  | AwGenerateSummary _ => fun x s =>
      match x with
      | Fulfilled d => boundedReference d s
      | Rejected _ => True
      end
  | AwBroadcast _ => fun _ _ => True
  | AwAckNack _ => fun _ _ => True
  end.

Definition anyEffects (out : list Effect) : Prop := True.

Definition orderly (m : Machine) : Prop :=
  orderedOf (this m)
  /\ match pending m with
     | Awaiting w k =>
         forall x s', boundedAnswer w x s' ->
                      respects keepsOrder boundedAnswer anyEffects s' (k x s')
     | _ => True
     end.

(** Events that keep the ordering: ops arrive with sequence numbers not
    below the reference of the last attempt, and [generateSummary] reports a
    bounded reference. *)
Definition admissible (m : Machine) (e : Event) : Prop :=
  match e with
  | BatchEnd None op | InboundOp op =>
      refSequenceNumber (Heuristics.lastAttempted (heuristics (this m)))
        <= Message.sequenceNumber op
  | Settles (GenerateSettled (Fulfilled d)) => boundedReference d (this m)
  | _ => True
  end.

Fixpoint allAdmissible (es : list (Z * Event)) (m : Machine) : Prop :=
  match es with
  | [] => True
  | e :: es' => admissible m (snd e) /\ allAdmissible es' (step (fst e) (snd e) m)
  end.

(** The idle timer is set up as the constructor of the heuristics does it. *)
Definition wired (s : t) : Prop :=
  Timer.defaultTimeout (Heuristics.idleTimer (heuristics s))
    = idleTime (Heuristics.configuration (heuristics s))
  /\ Timer.defaultHandler (Heuristics.idleTimer (heuristics s)) = TrySummarizeIdle.

(** Signals are numbered as they are created; the one in [summarizing] has
    not been resolved. *)
Definition fresh (m : Machine) : Prop :=
  (forall d, In d (resolved m) -> (d < allocated m)%nat)
  /\ (forall d, summarizing (this m) = Some d ->
        (d < allocated m)%nat /\ ~ In d (resolved m)).

(** Machines that an execution can be in: [start], then any events. *)
Inductive reachable : Machine -> Prop :=
| reachable_start clientId onBehalfOfClientId configuration lastOpSeqNumber
    firstAck now maybeLastAck :
    reachable (start clientId onBehalfOfClientId configuration lastOpSeqNumber
                 firstAck now maybeLastAck)
| reachable_step now e m :
    reachable m -> reachable (step now e m).

(** *** The log as a whole *)

(** A log in which every attempt started has called [generateSummary] once
    and has ended. *)
Definition closedLog (out : list Effect) : Prop :=
  length (startedAttempts out) = length (generateCalls out)
  /\ length (generateCalls out) = length (attemptResults out).

(** The log of the machine is one of finished triggers, followed by what the
    trigger in flight has logged, if there is one. *)
Definition accounted (m : Machine) : Prop :=
  exists finished current,
    trace m = finished ++ current
    /\ closedLog finished
    /\ match summarizing (this m) with
       | None => noAttempt current
       | Some _ => exists reason, inEscalation reason current m
       end.

(** *** The timers *)

(** The [SummarizeTimeout] events among the effects. *)
Definition timeouts (out : list Effect) : nat :=
  length (omap (fun e => match e with
                         | Telemetry "SummarizeTimeout" => Some tt
                         | _ => None
                         end) out).

(** The summarize timer runs out [k] times in a row. *)
Definition fires (k : nat) (m : Machine) : Machine :=
  Nat.iter k (fire SummarizeTimer) m.

(** The summarize timer, when armed, is in its [n]-th doubling, [n < 5]. *)
Definition backoff (tm : Timer.t) : Prop :=
  match Timer.runningState tm with
  | None => True
  | Some (ms, h) =>
      exists n : nat,
        (n < 5)%nat
        /\ ms = maxSummarizeTimeoutTime * 2 ^ Z.of_nat n
        /\ h = SummarizeTimerHandler ms (1 + Z.of_nat n)
  end.

(** The timers as they are while the async function of a trigger awaits [w]
    ([None]: no function awaits anything).  The timers keep the defaults and
    callbacks the constructors give them. *)
Definition timersWhile (w : option Awaitable) (s : t) : Prop :=
  Timer.defaultTimeout (summarizeTimer s) = maxSummarizeTimeoutTime
  /\ Timer.defaultHandler (summarizeTimer s)
     = SummarizeTimerHandler maxSummarizeTimeoutTime 1
  /\ Timer.defaultHandler (Heuristics.idleTimer (heuristics s)) = TrySummarizeIdle
  /\ (forall ms h,
        Timer.runningState (Heuristics.idleTimer (heuristics s)) = Some (ms, h) ->
        h = TrySummarizeIdle)
  /\ match w with
     | Some (AwGenerateSummary _) =>
         backoff (summarizeTimer s)
         /\ Timer.runningState (pendingAckTimer s) = None
     | Some _ => Timer.runningState (summarizeTimer s) = None
     | None =>
         Timer.runningState (summarizeTimer s) = None
         /\ Timer.runningState (pendingAckTimer s) = None
     end.

(** None of the three timers is armed. *)
Definition timersOff (s : t) : Prop :=
  Timer.hasTimer (Heuristics.idleTimer (heuristics s)) = false
  /\ Timer.hasTimer (summarizeTimer s) = false
  /\ Timer.hasTimer (pendingAckTimer s) = false.

(** Events that deliver an op to the summarizer (through the listeners the
    facade registers and removes). *)
Definition deliversOp (e : Event) : bool :=
  match e with
  | BatchEnd _ _ | InboundOp _ => true
  | _ => false
  end.

(** No async function of a trigger is suspended. *)
Definition settledDown (m : Machine) : Prop :=
  match pending m with
  | Awaiting _ _ => False
  | _ => True
  end.

(** What the calls of [dispose] among the events do to the watcher. *)
Definition disposeEffects (es : list (Z * Event)) : list Effect :=
  omap (fun e => match snd e with Dispose => Some WatcherDispose | _ => None end) es.

(** [r] leaves the state within [I] at each of its suspensions and at its
    end, when it is resumed within [I]. *)
Inductive keeps {A} (I : option Awaitable -> t -> Prop) : Step A -> Prop :=
| keeps_Done a s out : I None s -> keeps I (Done a s out)
| keeps_Susp w s out k :
    I (Some w) s ->
    (forall x s', I (Some w) s' -> keeps I (k x s')) ->
    keeps I (Susp w s out k).

Definition tidy (m : Machine) : Prop :=
  match pending m with
  | Awaiting w k =>
      timersWhile (Some w) (this m)
      /\ forall x s', timersWhile (Some w) s' -> keeps timersWhile (k x s')
  | _ => timersWhile None (this m)
  end.

End RunningSummarizer.

(** ** The Summarizer facade *)

Module Summarizer.

Inductive Effect :=
| InternalGenerateSummary (options : IGenerateSummaryOptions)
| StopInvoked (reason : option SummarizerStopReason)
| Telemetry (eventName : string)
| StopDeferredResolved.

(** The fields [generateSummary] and [stop] read and write.  The client ids
    are [string | undefined]. *)
Record t := {
  onBehalfOfClientId : option string;
  runtime_summarizerClientId : option string;
  runtime_clientId : option string;
  stopped : bool;
  effects : list Effect;
}.

Definition log (es : list Effect) (s : t) : t :=
  {| onBehalfOfClientId := onBehalfOfClientId s;
     runtime_summarizerClientId := runtime_summarizerClientId s;
     runtime_clientId := runtime_clientId s;
     stopped := stopped s;
     effects := effects s ++ es |}.

Definition set_stopped (v : bool) (s : t) : t :=
  {| onBehalfOfClientId := onBehalfOfClientId s;
     runtime_summarizerClientId := runtime_summarizerClientId s;
     runtime_clientId := runtime_clientId s;
     stopped := v;
     effects := effects s |}.

(** [a !== b] on [string | undefined] *)
Definition strictNe (a b : option string) : bool :=
  negb (bool_decide (a = b)).

(** [stop(reason?)] *)
Definition stop (reason : option SummarizerStopReason) (s : t) : t :=
  let s := log [StopInvoked reason] s in
  if stopped s then s
  else
    let s := set_stopped true s in
    log [Telemetry "StoppingSummarizer"; StopDeferredResolved] s.

Section GenerateSummary.
(** The promise type of the internals provider and its [generateSummary]. *)
Context {Promise : Type}.
Variable internalsProvider_generateSummary : IGenerateSummaryOptions -> Promise.

(** [generateSummary(options)] *)
Definition generateSummary (options : IGenerateSummaryOptions) (s : t)
    : Promise * t :=
  let result := internalsProvider_generateSummary options in
  let s := log [InternalGenerateSummary options] s in
  let s :=
    if strictNe (onBehalfOfClientId s) (runtime_summarizerClientId s)
       && strictNe (runtime_clientId s) (runtime_summarizerClientId s)
    then stop (Some parentNoLongerSummarizer) s
    else s in
  (result, s).
End GenerateSummary.

End Summarizer.

(** ** WorkerService *)

Module WorkerService.

(** The work objects, by class and constructor arguments (configuration,
    services and dictionary are the service's own). *)
Inductive IWork :=
| SnapshotWork (docId : string)
| IntelWork (docId : string)
| SpellcheckerWork (docId : string)
| TranslationWork (docId : string)
| PingWork (serverUrl : string).

(** [EnterStartTask] marks a call of [startTask]; [Started] is
    [worker.start()]. *)
Inductive Effect :=
| Constructed (w : IWork)
| EnterStartTask (docId workType : string) (w : IWork)
| Started (w : IWork)
| ConsoleLog (text : string).

(** [documentMap] is a plain object used as a map of maps, and the model
    is that of its own keys.  The code tests keys with [in] and reads them
    with [[]], which also see what a plain object inherits from
    [Object.prototype]: a document id such as ["__proto__"] or
    ["constructor"] makes it read and write an inherited object.  The model
    agrees with the code on the services that are [plain] (below) and for
    keys that are own names; the statements say where they need this. *)
Record t := {
  serverUrl : string;
  documentMap : gmap string (gmap string IWork);
  effects : list Effect;
}.

Definition log (es : list Effect) (s : t) : t :=
  {| serverUrl := serverUrl s; documentMap := documentMap s;
     effects := effects s ++ es |}.

Definition set_documentMap (dm : gmap string (gmap string IWork)) (s : t) : t :=
  {| serverUrl := serverUrl s; documentMap := dm; effects := effects s |}.

(** [startTask(docId, workType, worker)]; [worker] is never [undefined] at
    the call sites.  Both branches on [workType !== "intel"] call the
    worker's [start()]; the registration of runtime modules that follows it
    for intel work is left out. *)
Definition startTask (docId workType : string) (worker : IWork) (s : t) : t :=
  let s := log [EnterStartTask docId workType worker] s in
  let s :=
    match documentMap s !! docId with
    | Some _ => s
    | None => set_documentMap (<[docId := ∅]> (documentMap s)) s
    end in
  match documentMap s !! docId with
  | Some tasks =>
      match tasks !! workType with
      | Some _ => s
      | None =>
          let s := log [ConsoleLog ("Starting work " +:+ workType
                                    +:+ " for document " +:+ docId)] s in
          let s := set_documentMap
                     (<[docId := <[workType := worker]> tasks]> (documentMap s)) s in
          log [Started worker] s
      end
  | None => s
  end.

(** A [case] of a [switch] statement: its label, its statements, and whether
    they end with [break]. *)
Record Case := {
  label : string;
  body : t -> t;
  breaks : bool;
}.

(** Execution of a [switch] from a matching label on: control runs through
    the following cases until a [break]. *)
Fixpoint fallThrough (cases : list Case) (s : t) : t :=
  match cases with
  | [] => s
  | c :: rest =>
      let s := body c s in
      if breaks c then s else fallThrough rest s
  end.

(** [None] when no label matches (the [default] clause). *)
Fixpoint switch (v : string) (cases : list Case) (s : t) : option t :=
  match cases with
  | [] => None
  | c :: rest =>
      if String.eqb v (label c) then Some (fallThrough cases s)
      else switch v rest s
  end.

(** The cases of the [switch (workType)] in [processDocumentWork]. *)
Definition workCases (docId workType : string) : list Case :=
  [ {| label := "snapshot";
       body := fun s =>
         let snapshotWork := SnapshotWork docId in
         startTask docId workType snapshotWork (log [Constructed snapshotWork] s);
       breaks := true |};
    {| label := "intel";
       body := fun s =>
         let intelWork := IntelWork docId in
         startTask docId workType intelWork (log [Constructed intelWork] s);
       breaks := true |};
    {| label := "spell";
       body := fun s =>
         let spellcheckWork := SpellcheckerWork docId in
         startTask docId workType spellcheckWork (log [Constructed spellcheckWork] s);
       breaks := true |};
    {| label := "translation";
       body := fun s =>
         let translationWork := TranslationWork docId in
         startTask docId workType translationWork (log [Constructed translationWork] s);
       breaks := false |};
    {| label := "ping";
       body := fun s =>
         let pingWork := PingWork (serverUrl s) in
         startTask docId workType pingWork (log [Constructed pingWork] s);
       breaks := true |} ].

(** How the callback that [processDocumentWork] hands to
    [getServiceForDoc(docId).then] ends: normally, or by a [throw]. *)
Inductive Completion :=
| Normal (s : t)
| Threw (message : string) (s : t).

(** The callbacks of [processDocumentWork(docId, workType)], run when
    [getServiceForDoc(docId)] has settled; [Fulfilled b] carries whether the
    services are truthy.  The promise of that [then] is dropped: a throw in
    the callback reaches no caller (see [WorkerTasks.processDocumentWork_promises]). *)
Definition processDocumentWork (docId workType : string)
    (services : Settled bool) (s : t) : Completion :=
  match services with
  | Fulfilled true =>
      match switch workType (workCases docId workType) s with
      | Some s' => Normal s'
      | None => Threw "Unknown work type!" s
      end
  | Fulfilled false =>
      Normal (log [ConsoleLog ("No services provide to load document " +:+ docId
                               +:+ " for work " +:+ workType)] s)
  | Rejected error =>
      Normal (log [ConsoleLog ("Error getting service for " +:+ docId
                               +:+ ": " +:+ error)] s)
  end.

Definition stateOf (c : Completion) : t :=
  match c with Normal s => s | Threw _ s => s end.

(** The work items started, that is, the [worker.start()] calls. *)
Definition started (es : list Effect) : list IWork :=
  omap (fun e => match e with Started w => Some w | _ => None end) es.

(** The work items handed to [startTask]. *)
Definition handedToStartTask (es : list Effect) : list IWork :=
  omap (fun e => match e with EnterStartTask _ _ w => Some w | _ => None end) es.

Definition constructed (es : list Effect) : list IWork :=
  omap (fun e => match e with Constructed w => Some w | _ => None end) es.

Definition initial (serverUrl : string) : t :=
  {| serverUrl := serverUrl; documentMap := ∅; effects := [] |}.

(** Whether [workType in this.documentMap[docId]]. *)
Definition registered (docId workType : string) (s : t) : bool :=
  match documentMap s !! docId with
  | Some tasks => bool_decide (is_Some (tasks !! workType))
  | None => false
  end.

(** The effects [s'] has performed beyond those of [s]. *)
Definition since (s s' : t) : list Effect :=
  drop (length (effects s)) (effects s').

(** The names of the properties that every plain object inherits from
    [Object.prototype] (ECMAScript, with its Annex B). *)
Definition Object_prototype_names : list string :=
  ["constructor"; "__defineGetter__"; "__defineSetter__"; "hasOwnProperty";
   "__lookupGetter__"; "__lookupSetter__"; "isPrototypeOf";
   "propertyIsEnumerable"; "toString"; "valueOf"; "__proto__";
   "toLocaleString"].

Definition inherited (key : string) : bool :=
  existsb (String.eqb key) Object_prototype_names.

(** A key that names nothing inherited: on a plain object [key in o] and
    [o[key]] then concern the own property only. *)
Definition ownName (key : string) : Prop := inherited key = false.

(** A service in which work has been registered under own names only; none
    of its objects has been reached through an inherited name. *)
Definition plain (s : t) : Prop :=
  forall docId tasks,
    documentMap s !! docId = Some tasks ->
    ownName docId
    /\ forall workType worker, tasks !! workType = Some worker -> ownName workType.

End WorkerService.

(** ** The facade: preconditions of a run and the ack-refresh loop *)

Module SummarizerRun.

(** What [runCoordinator.waitStart()] resolves to. *)
Inductive StartResult :=
| Started (clientId : string)
| NotStarted (message : string).

(** How far [runCore] gets before it creates the running summarizer: the
    client id to run with, or the reason of the [NotStarted] event. *)
Inductive Decision :=
| Run (clientId : string)
| Refused (reason : string).

(** [this.onBehalfOfClientId = onBehalf] *)
Definition set_onBehalfOfClientId (v : option string) (s : Summarizer.t)
    : Summarizer.t :=
  {| Summarizer.onBehalfOfClientId := v;
     Summarizer.runtime_summarizerClientId := Summarizer.runtime_summarizerClientId s;
     Summarizer.runtime_clientId := Summarizer.runtime_clientId s;
     Summarizer.stopped := Summarizer.stopped s;
     Summarizer.effects := Summarizer.effects s |}.

(** [updateOnBehalfOf(onBehalfOf)] *)
Definition updateOnBehalfOf (onBehalfOf : string) (s : Summarizer.t) : Summarizer.t :=
  set_onBehalfOfClientId (Some onBehalfOf) s.

(** The head of [runCore(onBehalfOf)], up to the creation of the running
    summarizer; [active] is [runtime.deltaManager.active] when it is read,
    and [meanwhile] is what happens to the facade's fields while
    [runCoordinator.waitStart()] is awaited. *)
Definition runCore (onBehalfOf : string) (startResult : StartResult)
    (active : bool) (meanwhile : Summarizer.t -> Summarizer.t) (s : Summarizer.t)
    : Summarizer.t * Decision :=
  let s := set_onBehalfOfClientId (Some onBehalfOf) s in
  let s := meanwhile s in
  match startResult with
  | NotStarted message =>
      (Summarizer.log [Summarizer.Telemetry "NotStarted"] s, Refused message)
  | Started clientId =>
      if negb active then
        (Summarizer.log [Summarizer.Telemetry "NotStarted"] s, Refused "CannotWrite")
      else if Summarizer.strictNe (Summarizer.runtime_summarizerClientId s)
                (Summarizer.onBehalfOfClientId s)
              && Summarizer.strictNe (Summarizer.runtime_summarizerClientId s)
                   (Summarizer.runtime_clientId s)
      then
        (Summarizer.log [Summarizer.Telemetry "NotStarted"] s,
         Refused "DifferentComputedSummarizer")
      else
        (Summarizer.log [Summarizer.Telemetry "RunningSummarizer"] s, Run clientId)
  end.

(** The effects of the facade, read. *)
Definition resolutions (es : list Summarizer.Effect) : nat :=
  length (omap (fun e => match e with
                         | Summarizer.StopDeferredResolved => Some tt
                         | _ => None
                         end) es).

Definition stopInvocations (es : list Summarizer.Effect)
    : list (option SummarizerStopReason) :=
  omap (fun e => match e with
                 | Summarizer.StopInvoked r => Some r
                 | _ => None
                 end) es.

(** The [StoppingSummarizer] events among the effects. *)
Definition stoppingEvents (es : list Summarizer.Effect) : nat :=
  length (omap (fun e => match e with
                         | Summarizer.Telemetry "StoppingSummarizer" => Some tt
                         | _ => None
                         end) es).

(** Calls of [stop], one after the other. *)
Definition stops (reasons : list (option SummarizerStopReason)) (s : Summarizer.t)
    : Summarizer.t :=
  fold_left (fun s r => Summarizer.stop r s) reasons s.

(** *** handleSummaryAcks *)

(** An [IAckedSummary], as far as the loop reads it. *)
Record AckedSummary := {
  summaryOp_referenceSequenceNumber : Z;
  summaryOp_handle : string;
  summaryAck_handle : string;
}.

(** The logger an iteration uses: the running summarizer's, when
    [tryGetCorrelatedLogger] gives it, or the facade's own. *)
Inductive Logger := CorrelatedLogger | FacadeLogger.

(** [tryGetCorrelatedLogger(summaryOpRefSeq) ?? this.logger];
    [lastAttemptedRef] is [heuristics.lastAttempted.refSequenceNumber]. *)
Definition loggerFor (lastAttemptedRef summaryOpRefSeq : Z) : Logger :=
  if lastAttemptedRef =? summaryOpRefSeq then CorrelatedLogger else FacadeLogger.

(** What the environment does in one iteration of the loop:
    [lastAttemptedRef] at the head of the iteration, and then either
    [waitSummaryAck] rejects, or it yields an ack and
    [refreshLatestSummaryAck] resolves ([refreshed = true]) or rejects. *)
Inductive Iteration :=
| WaitRejects (lastAttemptedRef : Z)
| Acked (lastAttemptedRef : Z) (ack : AckedSummary) (refreshed : bool).

Inductive Effect :=
| WaitSummaryAck (refSequenceNumber : Z)
| RefreshLatestSummaryAck (proposalHandle ackHandle : string) (logger : Logger)
| HandleSummaryAckError (refSequenceNumber : Z) (logger : Logger).

(** [Number.MAX_SAFE_INTEGER]: up to it, in absolute value, the numbers of
    the source hold integers exactly and [n++] adds one. *)
Definition Number_MAX_SAFE_INTEGER : Z := 2 ^ 53 - 1.

(** The loop of [handleSummaryAcks] from [refSequenceNumber] on, for as
    many iterations as the list gives (the loop ends when the running
    summarizer is gone); the effects and the final [refSequenceNumber].
    [refSequenceNumber++] is [+ 1] on [Z], which is what the source's number
    does while it stays within [Number_MAX_SAFE_INTEGER]; beyond it the
    source's number no longer grows by one, and the model is not about
    that. *)
Fixpoint handleSummaryAcks (refSequenceNumber : Z) (iterations : list Iteration)
    : list Effect * Z :=
  match iterations with
  | [] => ([], refSequenceNumber)
  | WaitRejects lastAttemptedRef :: rest =>
      let summaryLogger := loggerFor lastAttemptedRef refSequenceNumber in
      let (es, final) := handleSummaryAcks (refSequenceNumber + 1) rest in
      (WaitSummaryAck refSequenceNumber
         :: HandleSummaryAckError refSequenceNumber summaryLogger :: es, final)
  | Acked lastAttemptedRef ack refreshed :: rest =>
      let summaryLogger := loggerFor lastAttemptedRef refSequenceNumber in
      let refSequenceNumber' := summaryOp_referenceSequenceNumber ack in
      let (es, final) := handleSummaryAcks (refSequenceNumber' + 1) rest in
      (WaitSummaryAck refSequenceNumber
         :: RefreshLatestSummaryAck (summaryOp_handle ack) (summaryAck_handle ack)
              summaryLogger
         :: (if refreshed then []
             else [HandleSummaryAckError refSequenceNumber' summaryLogger])
         ++ es, final)
  end.

Definition queries (es : list Effect) : list Z :=
  omap (fun e => match e with WaitSummaryAck r => Some r | _ => None end) es.

Definition refreshes (es : list Effect) : list (string * string) :=
  omap (fun e => match e with
                 | RefreshLatestSummaryAck p a _ => Some (p, a)
                 | _ => None
                 end) es.

Definition ackedOf (iterations : list Iteration) : list AckedSummary :=
  omap (fun i => match i with Acked _ ack _ => Some ack | _ => None end) iterations.

(** The contract of [waitSummaryAck(refSeq)]: the ack it yields refers to a
    summary at [refSeq] or later. *)
Fixpoint honoured (refSequenceNumber : Z) (iterations : list Iteration) : Prop :=
  match iterations with
  | [] => True
  | WaitRejects _ :: rest => honoured (refSequenceNumber + 1) rest
  | Acked _ ack _ :: rest =>
      refSequenceNumber <= summaryOp_referenceSequenceNumber ack
      /\ honoured (summaryOp_referenceSequenceNumber ack + 1) rest
  end.

(** Strictly increasing. *)
Fixpoint increasing (l : list Z) : Prop :=
  match l with
  | [] => True
  | x :: rest => match rest with [] => True | y :: _ => x < y end /\ increasing rest
  end.

End SummarizerRun.

(** ** WorkerService: stopping work, tenants and uploaded modules *)

Module WorkerTasks.
Import Stdlib.Strings.Ascii.
Import WorkerService.

(** [stopTask(docId, workType)]; the second component is the task whose
    [stop()] is called, if any. *)
Definition stopTask (docId workType : string) (s : t) : t * option IWork :=
  match documentMap s !! docId with
  | Some taskMap =>
      match taskMap !! workType with
      | Some task =>
          (set_documentMap (<[docId := delete workType taskMap]> (documentMap s)) s,
           Some task)
      | None => (s, None)
      end
  | None => (s, None)
  end.

(** The work types [processDocumentWork] and [revokeDocumentWork] know. *)
Definition workTypes : list string :=
  ["snapshot"; "intel"; "spell"; "translation"; "ping"].

(** How a synchronous call ends for its caller. *)
Inductive Result :=
| Returned (s : t)
| Thrown (message : string) (s : t).

(** [revokeDocumentWork(docId, workType)]: every case of its [switch] is
    [this.stopTask(docId, workType); break]; the [default] throws, to the
    caller. *)
Definition revokeDocumentWork (docId workType : string) (s : t)
    : Result * option IWork :=
  if String.eqb workType "snapshot" then
    (Returned (fst (stopTask docId workType s)), snd (stopTask docId workType s))
  else if String.eqb workType "intel" then
    (Returned (fst (stopTask docId workType s)), snd (stopTask docId workType s))
  else if String.eqb workType "spell" then
    (Returned (fst (stopTask docId workType s)), snd (stopTask docId workType s))
  else if String.eqb workType "translation" then
    (Returned (fst (stopTask docId workType s)), snd (stopTask docId workType s))
  else if String.eqb workType "ping" then
    (Returned (fst (stopTask docId workType s)), snd (stopTask docId workType s))
  else (Thrown "Unknown work type!" s, None).

(** The promises of one call of [processDocumentWork(docId, workType)].
    The function is [async]; its body hands the two callbacks to
    [getServiceForDoc(docId).then] and ends, neither awaiting nor returning
    the promise of that [then].  [ofThen] is that promise, settled by how
    the callback ends ([WorkerService.processDocumentWork]) and held by
    nobody; [returned] is the promise the caller gets, fulfilled with
    [undefined] when the body has ended. *)
Record Promises := {
  ofThen : Settled unit;
  returned : Settled unit;
}.

Definition processDocumentWork_promises (docId workType : string)
    (services : Settled bool) (s : t) : Promises :=
  {| ofThen := match processDocumentWork docId workType services s with
               | Normal _ => Fulfilled tt
               | Threw message _ => Rejected message
               end;
     returned := Fulfilled tt |}.

(** The worker of the queue:
    [processDocumentWork(work.docId, work.workType).then(
       () => { work.response(null, work.clientDetail); callback(); },
       (err) => { callback(); })]. *)
Inductive QueueEffect :=
| Response (error : option string)
| QueueCallback.

Definition queueWorker (docId workType : string) (services : Settled bool) (s : t)
    : list QueueEffect :=
  match returned (processDocumentWork_promises docId workType services s) with
  | Fulfilled _ => [Response None; QueueCallback]
  | Rejected _ => [QueueCallback]
  end.

(** The work registered for a document and work type, if any. *)
Definition taskOf (docId workType : string) (s : t) : option IWork :=
  documentMap s !! docId ≫= fun taskMap => taskMap !! workType.


Inductive Event :=
| Begins (docId workType : string) (worker : IWork)
| Ends (docId workType : string) (task : IWork).





(** *** getServiceForDoc *)

(** [s.indexOf(c)] for a one-character [c]: the position of the first
    occurrence, or [-1]. *)
Fixpoint indexOfFrom (c : ascii) (s : string) (position : Z) : Z :=
  match s with
  | EmptyString => -1
  | String a rest =>
      if Ascii.eqb a c then position else indexOfFrom c rest (position + 1)
  end.

Definition indexOf (c : ascii) (s : string) : Z := indexOfFrom c s 0.

(** [s.slice(0, n)] for [0 <= n]. *)
Definition slice0 (n : Z) (s : string) : string :=
  String.substring 0 (Z.to_nat n) s.

(** No ["/"] among the characters of [s]. *)
Definition noSlash (s : string) : Prop :=
  ~ In "/"%char (String.list_ascii_of_string s).

(** The tenant name that [getServiceForDoc(docId)] asks the factory for. *)
Definition tenantName (docId : string) : string :=
  let slashIndex := indexOf "/"%char docId in
  if negb (slashIndex =? -1) then slice0 slashIndex docId else "".

(** *** loadUploadedModules *)

(** [s.indexOf(sub)]: the position of the first occurrence of [sub] in [s],
    or [-1]. *)
Fixpoint startsWith (sub s : string) : bool :=
  match sub with
  | EmptyString => true
  | String a sub' =>
      match s with
      | EmptyString => false
      | String b s' => Ascii.eqb a b && startsWith sub' s'
      end
  end.

Fixpoint indexOfStringFrom (sub s : string) (position : Z) : Z :=
  if startsWith sub s then position
  else match s with
       | EmptyString => -1
       | String _ rest => indexOfStringFrom sub rest (position + 1)
       end.

Definition indexOfString (sub s : string) : Z := indexOfStringFrom sub s 0.

(** [sub] is a substring of [s]. *)
Definition occursIn (sub s : string) : Prop :=
  exists before after, s = before +:+ sub +:+ after.

Inductive ModuleEffect :=
| RequestModuleNames (agentServer : string)
| Log (text : string)
| LoadNewModule (name : string)
| RetryIn (ms : Z).

(** The body of the loop over [modules.names] for one name. *)
Definition loadIfWanted (clientType moduleName : string) : list ModuleEffect :=
  (if String.eqb clientType "paparazzi"
      && negb (indexOfString ".zip" moduleName =? -1)
   then [Log ("Loading " +:+ moduleName); LoadNewModule moduleName] else [])
  ++
  (if negb (String.eqb clientType "paparazzi")
      && negb (indexOfString ".js" moduleName =? -1)
   then [Log ("Loading " +:+ moduleName); LoadNewModule moduleName] else []).

(** [loadUploadedModules(agentServer, tryCounter)]; [outcomes] is what the
    successive requests for the module names settle to, a retry being taken
    when its timeout has run out: [Fulfilled (Some names)] for a body that
    parses to an object with these [names], [Fulfilled None] for one on
    which [JSON.parse] or the loop over [modules.names] throws (the
    rejection handler of the same [then] does not see that).  No outcome
    left: the request is still open. *)
Fixpoint loadUploadedModules (clientType agentServer : string) (tryCounter : Z)
    (outcomes : list (Settled (option (list string)))) : list ModuleEffect :=
  let tryCounter := tryCounter + 1 in
  RequestModuleNames agentServer ::
  match outcomes with
  | [] => []
  | Fulfilled (Some names) :: _ => flat_map (loadIfWanted clientType) names
  | Fulfilled None :: _ => []
  | Rejected err :: rest =>
      Log ("Error loading uploaded modules: " +:+ err)
      :: (if tryCounter <=? 5
          then RetryIn 10000 :: loadUploadedModules clientType agentServer tryCounter rest
          else [])
  end.

Definition requests (es : list ModuleEffect) : nat :=
  length (omap (fun e => match e with RequestModuleNames _ => Some tt | _ => None end) es).

Definition loaded (es : list ModuleEffect) : list string :=
  omap (fun e => match e with LoadNewModule n => Some n | _ => None end) es.

(** The delays of the retries scheduled with [setTimeout]. *)
Definition retryDelays (es : list ModuleEffect) : list Z :=
  omap (fun e => match e with RetryIn ms => Some ms | _ => None end) es.

End WorkerTasks.

(** ** WorkerService: runtime modules and intel work *)

Module WorkerModules.

(** Work objects by identity: the [n]-th worker constructed. *)
Definition WorkId := nat.

(** [WorkerStart] is [worker.start()], [TaskStop] is [task.stop()];
    [IntelStarted] marks the run of the callback that [startTask] gives to
    [intelWork.start().then]. *)
Inductive Effect :=
| WorkerStart (w : WorkId)
| TaskStop (w : WorkId)
| ModuleLoaderCalled (name : string)
| RegisterNewService (w : WorkId) (code : string)
| IntelStarted (w : WorkId)
| ConsoleLog (text : string).

(** The promises whose callbacks are still to run: that of
    [worker.start()], and that of [moduleLoader(name)]. *)
Inductive Promise :=
| StartOf (docId workType : string) (w : WorkId)
| LoadOf (name : string).

(** [runtimeModules] maps the name of a module to the module; of a module
    the model keeps its [code].  The order in which a loop visits the keys
    of an object is that of [map_to_list] here.  Both maps are plain
    objects in the source and the model is that of their own keys: it
    agrees with the code as long as document ids, work types and module
    names are own names ([WorkerService.ownName]), see [plainEvent]. *)
Record t := {
  documentMap : gmap string (gmap string WorkId);
  runtimeModules : gmap string string;
  promises : list Promise;
  constructed : nat;
  effects : list Effect;
}.

Definition initial : t :=
  {| documentMap := ∅; runtimeModules := ∅; promises := [];
     constructed := 0%nat; effects := [] |}.

Definition log (es : list Effect) (s : t) : t :=
  {| documentMap := documentMap s; runtimeModules := runtimeModules s;
     promises := promises s; constructed := constructed s;
     effects := effects s ++ es |}.

Definition set_documentMap (dm : gmap string (gmap string WorkId)) (s : t) : t :=
  {| documentMap := dm; runtimeModules := runtimeModules s;
     promises := promises s; constructed := constructed s;
     effects := effects s |}.

Definition set_runtimeModules (rm : gmap string string) (s : t) : t :=
  {| documentMap := documentMap s; runtimeModules := rm;
     promises := promises s; constructed := constructed s;
     effects := effects s |}.

Definition set_promises (ps : list Promise) (s : t) : t :=
  {| documentMap := documentMap s; runtimeModules := runtimeModules s;
     promises := ps; constructed := constructed s;
     effects := effects s |}.

(** [new SnapshotWork(...)], [new IntelWork(...)] and so on. *)
Definition construct (s : t) : WorkId * t :=
  (constructed s,
   {| documentMap := documentMap s; runtimeModules := runtimeModules s;
      promises := promises s; constructed := S (constructed s);
      effects := effects s |}).

(** [startTask(docId, workType, worker)] with its registration of the
    callbacks on the promise of [worker.start()]. *)
Definition startTask (docId workType : string) (worker : WorkId) (s : t) : t :=
  let s :=
    match documentMap s !! docId with
    | Some _ => s
    | None => set_documentMap (<[docId := ∅]> (documentMap s)) s
    end in
  match documentMap s !! docId with
  | Some tasks =>
      match tasks !! workType with
      | Some _ => s
      | None =>
          let s := log [ConsoleLog ("Starting work " +:+ workType
                                    +:+ " for document " +:+ docId)] s in
          let s := set_documentMap
                     (<[docId := <[workType := worker]> tasks]> (documentMap s)) s in
          let s := log [WorkerStart worker] s in
          set_promises (promises s ++ [StartOf docId workType worker]) s
      end
  | None => s
  end.

(** [stopTask(docId, workType)] *)
Definition stopTask (docId workType : string) (s : t) : t :=
  match documentMap s !! docId with
  | Some taskMap =>
      match taskMap !! workType with
      | Some task =>
          set_documentMap (<[docId := delete workType taskMap]> (documentMap s))
            (log [TaskStop task] s)
      | None => s
      end
  | None => s
  end.

(** [loadNewModule(newModule)], up to the call of the module loader. *)
Definition loadNewModule (name : string) (s : t) : t :=
  let s := log [ModuleLoaderCalled name] s in
  set_promises (promises s ++ [LoadOf name]) s.

(** [unloadModule(module)] *)
Definition unloadModule (name : string) (s : t) : t :=
  match runtimeModules s !! name with
  | Some _ => set_runtimeModules (delete name (runtimeModules s)) s
  | None => s
  end.

(** The loop of [loadNewModule]'s callback over the active documents. *)
Definition registerEverywhere (name code : string)
    (dm : gmap string (gmap string WorkId)) : list Effect :=
  flat_map (fun '(docId, taskMap) =>
    flat_map (fun '(workType, intelWork) =>
      if String.eqb workType "intel" then
        [ConsoleLog ("Registering new loaded " +:+ name +:+ " to document " +:+ docId);
         RegisterNewService intelWork code]
      else [])
      (map_to_list taskMap))
    (map_to_list dm).

(** The loop of [startTask]'s callback over the runtime modules. *)
Definition registerAll (docId : string) (intelWork : WorkId)
    (rm : gmap string string) : list Effect :=
  flat_map (fun '(name, code) =>
    [ConsoleLog ("Registering " +:+ name +:+ " for document " +:+ docId);
     RegisterNewService intelWork code])
    (map_to_list rm).

(** The callbacks of a promise, run when it settles. *)
Definition callback (p : Promise) (outcome : Settled string) (s : t) : t :=
  match p with
  | StartOf docId workType w =>
      match outcome with
      | Fulfilled _ =>
          if String.eqb workType "intel" then
            log (IntelStarted w :: registerAll docId w (runtimeModules s)) s
          else s
      | Rejected err =>
          log [ConsoleLog ("Error starting " +:+ workType +:+ " for document "
                           +:+ docId +:+ ": " +:+ err)] s
      end
  | LoadOf name =>
      match outcome with
      | Fulfilled loadedCode =>
          let s := log (ConsoleLog ("Success loading module " +:+ name +:+ " in worker!")
                          :: registerEverywhere name loadedCode (documentMap s)) s in
          set_runtimeModules (<[name := loadedCode]> (runtimeModules s)) s
      | Rejected error => log [ConsoleLog (name +:+ ": " +:+ error)] s
      end
  end.

Inductive Event :=
| CallStartTask (docId workType : string)
| CallStopTask (docId workType : string)
| CallLoadNewModule (name : string)
| CallUnloadModule (name : string)
| Settles (i : nat) (outcome : Settled string).

(** One turn of the event loop; a worker handed to [startTask] is newly
    constructed, and [Settles i] settles the [i]-th open promise. *)
Definition step (e : Event) (s : t) : t :=
  match e with
  | CallStartTask docId workType =>
      let (worker, s) := construct s in startTask docId workType worker s
  | CallStopTask docId workType => stopTask docId workType s
  | CallLoadNewModule name => loadNewModule name s
  | CallUnloadModule name => unloadModule name s
  | Settles i outcome =>
      match promises s !! i with
      | Some p => callback p outcome (set_promises (delete i (promises s)) s)
      | None => s
      end
  end.

Definition steps (es : list Event) (s : t) : t := fold_left (fun s e => step e s) es s.

(** An event whose document id, work type or module name names nothing that
    plain objects inherit. *)
Definition plainEvent (e : Event) : Prop :=
  match e with
  | CallStartTask docId workType | CallStopTask docId workType =>
      WorkerService.ownName docId /\ WorkerService.ownName workType
  | CallLoadNewModule name | CallUnloadModule name => WorkerService.ownName name
  | Settles _ _ => True
  end.

(** A state whose keys, and the module names still being loaded, name
    nothing that plain objects inherit: on such a state [in], [[]],
    [Object.keys] and [for ... in] see the own keys only. *)
Definition plainState (s : t) : Prop :=
  (forall docId tasks,
     documentMap s !! docId = Some tasks ->
     WorkerService.ownName docId
     /\ forall workType w, tasks !! workType = Some w -> WorkerService.ownName workType)
  /\ (forall name code, runtimeModules s !! name = Some code -> WorkerService.ownName name)
  /\ (forall name, In (LoadOf name) (promises s) -> WorkerService.ownName name).

(** The intel work registered for a document. *)
Definition intelOf (docId : string) (s : t) : option WorkId :=
  documentMap s !! docId ≫= fun taskMap => taskMap !! "intel".

(** How often [code] was registered with the work [w]. *)
Definition registrations (w : WorkId) (code : string) (es : list Effect) : nat :=
  length (omap (fun e => match e with
                         | RegisterNewService w' code' =>
                             if Nat.eqb w' w && String.eqb code' code
                             then Some tt else None
                         | _ => None
                         end) es).

(** The intel works whose [start()] has been fulfilled. *)
Definition intelStarted (es : list Effect) : list WorkId :=
  omap (fun e => match e with IntelStarted w => Some w | _ => None end) es.

(** The effects [s'] has performed beyond those of [s]. *)
Definition since (s s' : t) : list Effect :=
  drop (length (effects s)) (effects s').

(** Every runtime module has been registered with every intel work that
    is registered and has started. *)
Definition complete (s : t) : Prop :=
  forall docId w name code,
    intelOf docId s = Some w ->
    In w (intelStarted (effects s)) ->
    runtimeModules s !! name = Some code ->
    In (RegisterNewService w code) (effects s).

(** The workers that the state knows of have been constructed. *)
Definition known (s : t) : Prop :=
  (forall w, In w (intelStarted (effects s)) -> (w < constructed s)%nat)
  /\ (forall docId workType w,
        In (StartOf docId workType w) (promises s) -> (w < constructed s)%nat).

End WorkerModules.

(** ** Sample data *)

Module Samples.
Import RunningSummarizer.

Definition config : ISummaryConfiguration :=
  {| idleTime := 100; maxTime := 10000; maxOps := 5; maxAckWaitTime := 5000 |}.

Definition firstAck : ISummaryAttempt :=
  {| refSequenceNumber := 0; summaryTime := 0; summarySequenceNumber := None |}.

Definition op (ty : MessageType) (seq : Z) : Message.t :=
  {| Message.type := ty;
     Message.sequenceNumber := seq;
     Message.referenceSequenceNumber := seq - 1;
     Message.timestamp := 0;
     Message.clientId := "client";
     Message.contents := "contents";
     Message.data := "client" |}.

Definition summaryData (ref : Z) (sent : bool) : GenerateSummaryData.t :=
  {| GenerateSummaryData.referenceSequenceNumber := ref;
     GenerateSummaryData.submitted := sent;
     GenerateSummaryData.clientSequenceNumber := 1;
     GenerateSummaryData.error := None |}.

(** A summarizer just started, with nothing to summarize yet. *)
Definition idle : Machine :=
  start "summarizer" "parent" config 0 firstAck 0 RaceUndefined.

(** The idle timer fires: an attempt is in flight. *)
Definition inFlight : Machine := step 100 (TimerFires IdleTimer) idle.

(** Two ops beyond [maxOps] arrive during the attempt, which then ends in
    an ack. *)
Definition ackedRun : list (Z * Event) :=
  [ (110, BatchEnd None (op Operation 11));
    (120, BatchEnd None (op Operation 12));
    (130, Settles (GenerateSettled (Fulfilled (summaryData 12 true))));
    (140, Settles (RaceSettled (RaceValue (op Summarize 13))));
    (150, Settles (RaceSettled (RaceValue (op SummaryAck 14)))) ].

(** Three attempts fail: the generator throws, then does not submit, then
    the broadcast does not arrive in time. *)
Definition failingRun : list (Z * Event) :=
  [ (110, Settles (GenerateSettled (Rejected "offline")));
    (120, Settles (GenerateSettled (Fulfilled (summaryData 0 false))));
    (130, Settles (GenerateSettled (Fulfilled (summaryData 0 true))));
    (5130, Settles (RaceSettled (RaceTimer timeout))) ].

(** The generator reports a reference sequence number beyond the last op
    that the heuristics were told of. *)
Definition aheadRun : list (Z * Event) :=
  [ (100, TimerFires IdleTimer);
    (110, Settles (GenerateSettled (Fulfilled (summaryData 3 true)))) ].

Definition turn (a : Answer) : Turn := {| interference := fun s => s; answer := a |}.

(** A summarizer that will not trigger on its own for a while, 51 ops behind
    its last acked summary. *)
Definition relaxed : ISummaryConfiguration :=
  {| idleTime := 100; maxTime := 10000; maxOps := 1000; maxAckWaitTime := 5000 |}.

Definition lagging : Machine :=
  step 10 (BatchEnd None (op Operation 51))
    (start "summarizer" "parent" relaxed 0 firstAck 0 RaceUndefined).


(** A facade spawned on behalf of a client that is no longer the elected
    summarizer. *)
Definition orphaned : Summarizer.t :=
  {| Summarizer.onBehalfOfClientId := Some "parent";
     Summarizer.runtime_summarizerClientId := Some "other";
     Summarizer.runtime_clientId := Some "summarizer";
     Summarizer.stopped := false;
     Summarizer.effects := [] |}.

(** [waitStop] arrives while the attempt is in flight. *)
Definition stoppingInFlight : Machine := step 20 WaitStop inFlight.

(** The attempt in flight is acked and its [.finally] callback is due. *)
Definition finishing : Machine :=
  steps [ (130, Settles (GenerateSettled (Fulfilled (summaryData 0 true))));
          (140, Settles (RaceSettled (RaceValue (op Summarize 13))));
          (150, Settles (RaceSettled (RaceValue (op SummaryAck 14)))) ] inFlight.

(** [generateSummary] throws nine times in a row. *)
Definition rejections : list Turn :=
  repeat (turn (GenerateSettled (Rejected "offline"))) 9.

(** The ack loop: an ack that is refreshed, a failed wait, an ack whose
    refresh fails. *)
Definition ackIterations : list SummarizerRun.Iteration :=
  [ SummarizerRun.Acked 0
      {| SummarizerRun.summaryOp_referenceSequenceNumber := 12;
         SummarizerRun.summaryOp_handle := "proposal12";
         SummarizerRun.summaryAck_handle := "ack12" |} true;
    SummarizerRun.WaitRejects 12;
    SummarizerRun.Acked 12
      {| SummarizerRun.summaryOp_referenceSequenceNumber := 20;
         SummarizerRun.summaryOp_handle := "proposal20";
         SummarizerRun.summaryAck_handle := "ack20" |} false ].

(** An intel work starts, and then a module is loaded. *)
Definition moduleAfterStart : list WorkerModules.Event :=
  [ WorkerModules.CallStartTask "doc" "intel";
    WorkerModules.Settles 0 (Fulfilled "started");
    WorkerModules.CallLoadNewModule "m.js";
    WorkerModules.Settles 0 (Fulfilled "code") ].

End Samples.

(** * Properties *)

Module RunningSummarizerFacts.
Import RunningSummarizer.

(** ** Resumptions *)

Lemma prepend_nil {A} (r : Step A) : prepend [] r = r.
Proof. destruct r; reflexivity. Qed.

Lemma prepend_prepend {A} (o1 o2 : list Effect) (r : Step A) :
  prepend o1 (prepend o2 r) = prepend (o1 ++ o2) r.
Proof. destruct r; simpl; rewrite app_assoc; reflexivity. Qed.

Lemma prependOutcome_nil {A} (o : Outcome A) : prependOutcome [] o = o.
Proof. destruct o; reflexivity. Qed.

Lemma prependOutcome_app {A} (o1 o2 : list Effect) (o : Outcome A) :
  prependOutcome o1 (prependOutcome o2 o) = prependOutcome (o1 ++ o2) o.
Proof. destruct o; simpl; rewrite ?app_assoc; reflexivity. Qed.

Lemma drive_prepend {A} (out0 : list Effect) (r : Step A) turns :
  drive (prepend out0 r) turns = prependOutcome out0 (drive r turns).
Proof.
  destruct r as [a s out|w s out k]; simpl; [reflexivity|].
  destruct turns as [|turn turns]; [reflexivity|].
  destruct (answerFor w (answer turn)); [|reflexivity].
  rewrite prependOutcome_app. reflexivity.
Qed.

(** Driving a sequential composition: the first part runs, and the second
    continues on the settlements the first has left. *)
Lemma drive_bindStep {A B} (r : Step A) (f : A -> Async B) turns :
  drive (bindStep r f) turns =
  match drive r turns with
  | Finished a s out rest => prependOutcome out (drive (f a s) rest)
  | StillWaiting w s out => StillWaiting w s out
  | Mismatch => Mismatch
  end.
Proof.
  revert turns.
  induction r as [a s out|w s out k IH]; intros turns; simpl.
  - apply drive_prepend.
  - destruct turns as [|turn turns]; [reflexivity|].
    destruct (answerFor w (answer turn)) as [x|]; [|reflexivity].
    rewrite IH.
    destruct (drive (k x (interference turn s)) turns); simpl;
      rewrite ?prependOutcome_app; reflexivity.
Qed.

Lemma drive_bind {A B} (m : Async A) (f : A -> Async B) s turns :
  drive (bind m f s) turns =
  match drive (m s) turns with
  | Finished a s' out rest => prependOutcome out (drive (f a s') rest)
  | StillWaiting w s' out => StillWaiting w s' out
  | Mismatch => Mismatch
  end.
Proof. apply drive_bindStep. Qed.

(** ** One attempt *)


(** What one attempt writes to the log, however far it gets. *)
Lemma summarize_transcript reason o s turns :
  match drive (summarize reason o s) turns with
  | Finished b s' out rest =>
      startedAttempts out = [(reason, o)] /\ generateCalls out = [o]
      /\ attemptResults out = [b] /\ stopCalls out = []
  | StillWaiting w s' out =>
      startedAttempts out = [(reason, o)] /\ generateCalls out = [o]
      /\ attemptResults out = [] /\ stopCalls out = []
  | Mismatch => True
  end.
Proof.
  unfold summarize.
  destruct turns as [|t1 turns]; cbn; [auto|].
  destruct (answer t1) as [[d|e]|r]; cbn; [| auto | auto].
  destruct (GenerateSummaryData.submitted d); cbn; [|auto].
  destruct turns as [|t2 turns]; cbn; [auto|].
  destruct (answer t2) as [?|[op|?|]]; cbn; auto.
  destruct turns as [|t3 turns]; cbn; [auto|].
  destruct (answer t3) as [?|[an|?|]]; cbn; auto.
  destruct (MessageType_eqb (Message.type an) SummaryAck); cbn; auto.
Qed.



(** C6.  Whether [generateSummary] fulfils or rejects, the segment that
    handles its settlement records the attempt: when it is over (the attempt
    has failed, or waits for the broadcast) [lastAttempted] holds the returned
    [referenceSequenceNumber], or else the [lastOpSeqNumber] of that moment,
    together with the clock of that moment; so if the clock has not gone back
    since the attempt began, [summaryTime] is no earlier than its start. *)
Theorem summarize_records_attempt reason o s turn r :
  answer turn = GenerateSettled r ->
  exists s0 out0,
    drive (summarize reason o s) [] = StillWaiting (AwGenerateSummary o) s0 out0
    /\ dateNow s0 = dateNow s
    /\ let s1 := interference turn s0 in
       let recorded :=
         {| refSequenceNumber :=
              match r with
              | Fulfilled summaryData =>
                  GenerateSummaryData.referenceSequenceNumber summaryData
              | Rejected _ => Heuristics.lastOpSeqNumber (heuristics s1)
              end;
            summaryTime := dateNow s1;
            summarySequenceNumber := None |} in
       (exists s' out,
          (drive (summarize reason o s) [turn] = Finished false s' out []
           \/ exists csn, drive (summarize reason o s) [turn]
                          = StillWaiting (AwBroadcast csn) s' out)
          /\ Heuristics.lastAttempted (heuristics s') = recorded)
       /\ (dateNow s <= dateNow s1 -> dateNow s <= summaryTime recorded).
Proof.
  intros Hans. unfold summarize. cbn. rewrite Hans. cbn.
  eexists _, _. split; [reflexivity|]. split; [reflexivity|].
  cbn. split; [|auto].
  destruct r as [d|e]; cbn.
  - destruct (GenerateSummaryData.submitted d); cbn; eauto 8.
  - eauto 8.
Qed.

(** ** The escalation *)


Lemma escalated_app reason out1 out2 (n : nat) r1 r2 s2 a o :
  startedAttempts out1 = take n (escalation reason) ->
  generateCalls out1 = (take n (escalation reason)).*2 ->
  attemptResults out1 = r1 -> stopCalls out1 = [] ->
  take (S n) (escalation reason) = take n (escalation reason) ++ [(a, o)] ->
  startedAttempts out2 = [(a, o)] -> generateCalls out2 = [o] ->
  attemptResults out2 = r2 -> stopCalls out2 = s2 ->
  escalated reason (out1 ++ out2) (S n) (r1 ++ r2) s2.
Proof.
  intros H1 H2 H3 H4 Ht G1 G2 G3 G4.
  unfold escalated, startedAttempts, generateCalls, attemptResults, stopCalls in *.
  rewrite !omap_app, Ht, fmap_app, H1, H2, H3, H4, G1, G2, G3, G4. auto.
Qed.

(** The async function of a trigger, driven by any settlements: the log
    shows a prefix of the escalation, each attempt after a failed one, and
    [stop("failToSummarize")] exactly after three failures. *)
Lemma attempts_transcript reason s turns :
  escalatesOn reason (drive (attempts reason s) turns).
Proof.
  unfold escalatesOn, triggerCompleted, triggerInProgress.
  unfold attempts. rewrite drive_bind.
  pose proof (summarize_transcript reason firstOptions s turns) as T1.
  fold firstOptions.
  destruct (drive (summarize reason firstOptions s) turns)
    as [b1 s1 out1 rest1|w1 s1 out1|]; [| |exact I].
  2: { left. unfold escalated. simpl. tauto. }
  destruct T1 as (A1 & B1 & C1 & D1).
  destruct b1.
  { cbn. rewrite app_nil_r. left. unfold escalated. simpl. tauto. }
  rewrite drive_bind.
  pose proof (summarize_transcript "retry1" retry1Options s1 rest1) as T2.
  fold retry1Options.
  destruct (drive (summarize "retry1" retry1Options s1) rest1)
    as [b2 s2 out2 rest2|w2 s2 out2|]; [| |exact I].
  2: { right. left. simpl. destruct T2 as (A2 & B2 & C2 & D2).
       apply (escalated_app reason out1 out2 1 [false] [] []
                "retry1" retry1Options); auto. }
  destruct T2 as (A2 & B2 & C2 & D2).
  destruct b2.
  { cbn. rewrite app_nil_r. right. left.
    apply (escalated_app reason out1 out2 1 [false] [true] []
             "retry1" retry1Options); auto. }
  rewrite drive_bind.
  pose proof (summarize_transcript "retry2" retry2Options s2 rest2) as T3.
  fold retry2Options.
  assert (E2 : escalated reason (out1 ++ out2) 2 [false; false] []).
  { apply (escalated_app reason out1 out2 1 [false] [false] []
             "retry1" retry1Options); auto. }
  destruct E2 as (A12 & B12 & C12 & D12).
  destruct (drive (summarize "retry2" retry2Options s2) rest2)
    as [b3 s3 out3 rest3|w3 s3 out3|]; [| |exact I].
  2: { right. right. simpl. destruct T3 as (A3 & B3 & C3 & D3).
       rewrite app_assoc.
       apply (escalated_app reason (out1 ++ out2) out3 2 [false; false] [] []
                "retry2" retry2Options); auto. }
  destruct T3 as (A3 & B3 & C3 & D3).
  destruct b3; cbn.
  - rewrite app_nil_r, app_assoc. right. right. left.
    apply (escalated_app reason (out1 ++ out2) out3 2 [false; false] [true] []
             "retry2" retry2Options); auto.
  - right. right. right.
    replace (out1 ++ out2 ++ out3
             ++ [Telemetry "FailToSummarize"; StopCalled failToSummarize])
      with ((out1 ++ out2)
            ++ (out3 ++ [Telemetry "FailToSummarize"; StopCalled failToSummarize]))
      by (rewrite <- !app_assoc; reflexivity).
    apply (escalated_app reason (out1 ++ out2) _ 2 [false; false] [false]
             [failToSummarize] "retry2" retry2Options); auto;
    unfold startedAttempts, generateCalls, attemptResults, stopCalls in *;
    rewrite omap_app; simpl; rewrite ?A3, ?B3, ?C3, ?D3; reflexivity.
Qed.

(** ** Frame conditions *)

Section Respects.
Variable R : t -> t -> Prop.
Variable G : forall w : Awaitable, Resp w -> t -> Prop.
Variable Q : list Effect -> Prop.
Hypothesis R_refl : forall s, R s s.
Hypothesis R_trans : forall s1 s2 s3, R s1 s2 -> R s2 s3 -> R s1 s3.
Hypothesis Q_nil : Q [].
Hypothesis Q_app : forall o1 o2, Q o1 -> Q o2 -> Q (o1 ++ o2).
Hypothesis Q_async : forall e, asyncEffect e = true -> Q [e].

Lemma respects_prepend {A} out s0 (r : Step A) :
  Q out -> respects R G Q s0 r -> respects R G Q s0 (prepend out r).
Proof. intros Hq H. destruct H; simpl; constructor; auto. Qed.

Lemma respects_from {A} s0 s1 (r : Step A) :
  R s0 s1 -> respects R G Q s1 r -> respects R G Q s0 r.
Proof. intros H01 H. destruct H; constructor; eauto. Qed.

Lemma respects_bindStep {A B} s0 (r : Step A) (f : A -> Async B) :
  respects R G Q s0 r -> (forall a s, respects R G Q s (f a s)) ->
  respects R G Q s0 (bindStep r f).
Proof.
  intros H Hf. induction H as [s0 a s out HR Hq|s0 w s out k HR Hq Hk IH]; simpl.
  - apply respects_prepend; [exact Hq|]. apply (respects_from s0 s); auto.
  - constructor; auto.
Qed.

Lemma respects_bind {A B} s (m : Async A) (f : A -> Async B) :
  respects R G Q s (m s) -> (forall a s', respects R G Q s' (f a s')) ->
  respects R G Q s (bind m f s).
Proof. apply respects_bindStep. Qed.

Lemma respects_ret {A} (a : A) s : respects R G Q s (ret a s).
Proof. constructor; auto. Qed.

Lemma respects_emit e s : asyncEffect e = true -> respects R G Q s (emit e s).
Proof. constructor; auto. Qed.

Lemma respects_bind_emit {B} e (f : unit -> Async B) s :
  asyncEffect e = true ->
  respects R G Q s (f tt s) -> respects R G Q s (bind (emit e) f s).
Proof. intros He H. unfold bind, emit. simpl. apply respects_prepend; auto. Qed.

Lemma respects_bind_modify {B} g (f : unit -> Async B) s :
  R s (g s) -> respects R G Q (g s) (f tt (g s)) ->
  respects R G Q s (bind (modify g) f s).
Proof.
  intros HR H. unfold bind, modify. simpl.
  apply respects_prepend; [exact Q_nil|].
  apply (respects_from s (g s)); assumption.
Qed.

Lemma respects_bind_await {B} w (f : Resp w -> Async B) s :
  (forall x s', G w x s' -> respects R G Q s' (f x s')) ->
  respects R G Q s (bind (await w) f s).
Proof.
  intros H. unfold bind, await. simpl. constructor; [apply R_refl|exact Q_nil|].
  intros x s' HG. apply respects_prepend; [exact Q_nil|]. apply H, HG.
Qed.

Hypothesis R_summarizeCount : forall v s, R s (set_summarizeCount v s).
Hypothesis R_summarizeTimer : forall v s, R s (set_summarizeTimer v s).
Hypothesis R_pendingAckTimer : forall v s, R s (set_pendingAckTimer v s).
Hypothesis R_recordAttempt_none : forall s,
  R s (set_heuristics (Heuristics.recordAttempt (dateNow s) None (heuristics s)) s).
Hypothesis R_recordAttempt_some : forall o d s,
  G (AwGenerateSummary o) (Fulfilled d) s ->
  R s (set_heuristics
         (Heuristics.recordAttempt (dateNow s)
            (Some (GenerateSummaryData.referenceSequenceNumber d)) (heuristics s)) s).
Hypothesis R_summarySequenceNumber : forall n s,
  R s (set_heuristics (Heuristics.set_summarySequenceNumber n (heuristics s)) s).
Hypothesis R_ackLastSent : forall s,
  R s (set_heuristics (Heuristics.ackLastSent (heuristics s)) s).

Lemma respects_fail message s : respects R G Q s (fail message s).
Proof.
  unfold fail.
  apply respects_bind_emit; [reflexivity|].
  apply respects_bind_emit; [reflexivity|]. apply respects_ret.
Qed.

Ltac respects_step :=
  first
    [ apply respects_ret
    | apply respects_fail
    | apply respects_bind_emit; [reflexivity|]
    | apply respects_bind_modify; [solve [auto]|]
    | apply respects_bind; [apply respects_fail|intros ? ?] ].

Lemma respects_summarize reason o s : respects R G Q s (summarize reason o s).
Proof.
  unfold summarize, recordAttempt, clearSummarizeTimer, clearPendingAckTimer,
    modifyHeuristics.
  do 4 respects_step.
  apply respects_bind_await. intros [d|e] s1 HG.
  - respects_step. apply respects_bind_modify; [eapply R_recordAttempt_some, HG|].
    respects_step.
    destruct (GenerateSummaryData.submitted d); simpl; [|respects_step].
    do 2 respects_step.
    apply respects_bind_await. intros r2 s2 _.
    destruct (checkNotTimeout r2) as [op|]; [|repeat respects_step].
    do 2 respects_step.
    apply respects_bind_await. intros r3 s3 _.
    destruct (checkNotTimeout r3) as [an|]; [|repeat respects_step].
    respects_step.
    destruct (MessageType_eqb (Message.type an) SummaryAck); repeat respects_step.
  - repeat respects_step.
Qed.

Lemma respects_attempts reason s : respects R G Q s (attempts reason s).
Proof.
  unfold attempts.
  apply respects_bind; [apply respects_summarize|]. intros [] s1; [apply respects_ret|].
  apply respects_bind; [apply respects_summarize|]. intros [] s2; [apply respects_ret|].
  apply respects_bind; [apply respects_summarize|]. intros [] s3; [apply respects_ret|].
  apply respects_bind_emit; [reflexivity|]. apply respects_emit. reflexivity.
Qed.
End Respects.


Lemma quiet_nil : quiet [].
Proof. split; reflexivity. Qed.

Lemma triggers_app o1 o2 : triggers (o1 ++ o2) = triggers o1 ++ triggers o2.
Proof. apply omap_app. Qed.

Lemma runCalls_app o1 o2 : runCalls (o1 ++ o2) = (runCalls o1 + runCalls o2)%nat.
Proof. unfold runCalls. rewrite omap_app, length_app. reflexivity. Qed.

Lemma triggered_app o1 o2 : triggered (o1 ++ o2) = triggered o1 || triggered o2.
Proof.
  unfold triggered. rewrite triggers_app.
  destruct (triggers o1); simpl; [destruct (triggers o2)|]; reflexivity.
Qed.

Lemma quiet_app o1 o2 : quiet o1 -> quiet o2 -> quiet (o1 ++ o2).
Proof.
  intros [A1 B1] [A2 B2]. split.
  - rewrite triggers_app, A1, A2. reflexivity.
  - rewrite runCalls_app, B1, B2. reflexivity.
Qed.

Lemma quiet_async e : asyncEffect e = true -> quiet [e].
Proof. destruct e; simpl; intros H; try discriminate H; split; reflexivity. Qed.

Lemma quiet_not_triggered out : quiet out -> triggered out = false.
Proof. intros [H _]. unfold triggered. rewrite H. reflexivity. Qed.

Lemma sameFlags_refl s : sameFlags s s.
Proof. repeat split. Qed.

Lemma sameFlags_trans s1 s2 s3 : sameFlags s1 s2 -> sameFlags s2 s3 -> sameFlags s1 s3.
Proof.
  unfold sameFlags.
  intros (A1 & A2 & A3 & A4 & A5 & A6 & A7) (B1 & B2 & B3 & B4 & B5 & B6 & B7).
  repeat split; congruence.
Qed.

(** The async function of a trigger writes none of the fields that the
    synchronous methods own and never enters [run] or [trySummarize]. *)
Lemma attempts_sameFlags reason s :
  respects sameFlags anyAnswer quiet s (attempts reason s).
Proof.
  apply respects_attempts;
    first [ exact sameFlags_refl | exact sameFlags_trans | exact quiet_nil
          | exact quiet_app | exact quiet_async
          | intros; repeat split ].
Qed.

Lemma since_app m m' delta : trace m' = trace m ++ delta -> since m m' = delta.
Proof. intros H. unfold since. rewrite H. apply drop_app_length. Qed.

(** *** The methods keep the machine consistent *)

Lemma consistent_launch r m s d :
  respects sameFlags anyAnswer quiet s r -> summarizing s = Some d ->
  consistent (launch r m).
Proof.
  intros H Hs. destruct H as [s0 a s1 out (E & _) _|s0 w s1 out k (E & _) _ Hk]; simpl.
  - split; [|exact I]. simpl. rewrite E, Hs. split; discriminate.
  - split; [|intros x s'; apply Hk; exact I]. simpl. rewrite E, Hs. split; discriminate.
Qed.

Lemma consistent_same m m' :
  pending m' = pending m -> summarizing (this m') = summarizing (this m) ->
  consistent m -> consistent m'.
Proof. unfold consistent. intros -> ->. auto. Qed.

Lemma consistent_trySummarize reason m :
  consistent m -> consistent (trySummarize reason m).
Proof.
  intros H. unfold trySummarize. cbv zeta.
  change (this (log [EnterTrySummarize reason] m)) with (this m).
  destruct (summarizing (this m)) as [d|] eqn:E.
  - apply (consistent_same m); [reflexivity|reflexivity|exact H].
  - eapply consistent_launch; [apply attempts_sameFlags|]. reflexivity.
Qed.

Lemma consistent_with_this f m :
  summarizing (f (this m)) = summarizing (this m) ->
  consistent m -> consistent (with_this f m).
Proof. intros E. apply consistent_same; [reflexivity|exact E]. Qed.

Lemma consistent_log es m : consistent m -> consistent (log es m).
Proof. apply consistent_same; reflexivity. Qed.

Lemma consistent_run m : consistent m -> consistent (run m).
Proof.
  intros H. unfold run.
  set (m1 := with_this _ (log [EnterRun] m)).
  assert (H1 : consistent m1).
  { apply consistent_with_this; [reflexivity|].
    apply consistent_log, H. }
  destruct (_ >? _); [apply consistent_trySummarize, H1|].
  destruct (_ >? _); [apply consistent_trySummarize, H1|].
  apply consistent_with_this; [|exact H1]. reflexivity.
Qed.

Lemma consistent_finalizer m : consistent (finalizer m).
Proof.
  unfold finalizer.
  set (m1 := {| this := set_summarizing None (this m) |}).
  assert (H1 : consistent m1).
  { split; [|exact I]. simpl. tauto. }
  destruct (_ && _); [|exact H1].
  apply consistent_run. apply consistent_with_this; [|exact H1].
  reflexivity.
Qed.

Lemma consistent_handleOp error op m : consistent m -> consistent (handleOp error op m).
Proof.
  intros H. unfold handleOp. destruct error; [exact H|].
  set (m1 := with_this _ m).
  assert (H1 : consistent m1).
  { apply consistent_with_this; [reflexivity|exact H]. }
  destruct (MessageType_eqb _ _);
    [apply consistent_trySummarize|apply consistent_run]; exact H1.
Qed.

Lemma consistent_handleSystemOp op m :
  consistent m -> consistent (handleSystemOp op m).
Proof.
  intros H. unfold handleSystemOp.
  destruct (Message.type op); try exact H; try (apply consistent_handleOp, H).
  destruct (_ || _); [exact H|apply consistent_handleOp, H].
Qed.

Lemma consistent_waitStop m : consistent m -> consistent (fst (waitStop m)).
Proof.
  intros H. unfold waitStop.
  destruct (_disposed (this m)); [exact H|].
  destruct (stopping (this m)); [exact H|].
  set (m1 := with_this _ m).
  assert (H1 : consistent m1).
  { apply consistent_with_this; [reflexivity|exact H]. }
  destruct (_ >? _); simpl; [apply consistent_trySummarize|]; exact H1.
Qed.

Lemma consistent_dispose m : consistent m -> consistent (dispose m).
Proof.
  intros H. unfold dispose.
  apply consistent_with_this; [reflexivity|].
  apply consistent_log, H.
Qed.

Lemma consistent_runHandler h m : consistent m -> consistent (runHandler h m).
Proof.
  intros H. destruct h; simpl.
  - apply consistent_trySummarize, H.
  - unfold summarizeTimerHandler.
    destruct (_ <? _); [|apply consistent_log, H].
    apply consistent_with_this; [reflexivity|].
    apply consistent_log, H.
  - apply consistent_log, H.
Qed.

Lemma consistent_fire which m : consistent m -> consistent (fire which m).
Proof.
  intros H. destruct which; simpl.
  - destruct (Timer.runningState _) as [[? h]|]; [|exact H].
    apply consistent_runHandler, consistent_with_this; [|exact H].
    reflexivity.
  - destruct (Timer.runningState _) as [[? h]|]; [|exact H].
    apply consistent_runHandler, consistent_with_this; [|exact H].
    reflexivity.
Qed.

Lemma consistent_settle a m : consistent m -> consistent (settle a m).
Proof.
  intros H. unfold settle.
  destruct (pending m) as [|w k|] eqn:Ep; try exact H.
  destruct (answerFor w a) as [x|]; [|exact H].
  destruct H as [Hi Hk]. rewrite Ep in Hi, Hk.
  destruct (summarizing (this m)) as [d|] eqn:Es.
  2: { destruct Hi as [_ Hi]. specialize (Hi eq_refl). discriminate Hi. }
  set (m1 := match a with RaceSettled (RaceTimer timeout) => _ | _ => m end).
  assert (E1 : summarizing (this m1) = Some d).
  { subst m1. destruct a as [?|[?|[]|]]; exact Es. }
  eapply consistent_launch; [apply Hk; exact I|exact E1].
Qed.

Lemma consistent_step now e m : consistent m -> consistent (step now e m).
Proof.
  intros H. unfold step.
  set (m1 := with_this (set_dateNow now) m).
  assert (H1 : consistent m1).
  { apply consistent_with_this; [reflexivity|exact H]. }
  destruct e.
  - apply consistent_handleOp, H1.
  - apply consistent_handleSystemOp, H1.
  - apply consistent_fire, H1.
  - apply consistent_settle, H1.
  - destruct (pending m1); [exact H1|exact H1|apply consistent_finalizer].
  - apply consistent_waitStop, H1.
  - apply consistent_dispose, H1.
Qed.

Lemma consistent_new c o cfg l f n : consistent (new c o cfg l f n).
Proof. split; [|exact I]. simpl. tauto. Qed.

Lemma consistent_waitStart r m : consistent m -> consistent (waitStart r m).
Proof.
  intros H. unfold waitStart.
  set (m0 := match r with RaceTimer timeout => _ | _ => m end).
  assert (H0 : consistent m0).
  { subst m0. destruct r as [?|[]|]; exact H. }
  set (m1 := with_this _ m0).
  assert (H1 : consistent m1).
  { apply consistent_with_this; [reflexivity|exact H0]. }
  destruct (checkNotTimeout r); [|exact H1].
  apply consistent_with_this; [reflexivity|exact H1].
Qed.

Lemma reachable_consistent m : reachable m -> consistent m.
Proof.
  induction 1.
  - apply consistent_run, consistent_waitStart, consistent_new.
  - apply consistent_step. assumption.
Qed.


(** *** Work beside an attempt in flight *)

Lemma noAttempt_nil : noAttempt [].
Proof. repeat split. Qed.

Lemma noAttempt_app o1 o2 : noAttempt o1 -> noAttempt o2 -> noAttempt (o1 ++ o2).
Proof.
  unfold noAttempt, startedAttempts, generateCalls, attemptResults, stopCalls.
  intros (A1 & A2 & A3 & A4) (B1 & B2 & B3 & B4).
  rewrite !omap_app, A1, A2, A3, A4, B1, B2, B3, B4. repeat split.
Qed.

Lemma beside_refl d m : summarizing (this m) = Some d -> beside d m m.
Proof.
  intros H. split; [exact H|]. split; [reflexivity|].
  exists []. rewrite app_nil_r, orb_false_r. auto using noAttempt_nil.
Qed.

Lemma beside_trans d m1 m2 m3 : beside d m1 m2 -> beside d m2 m3 -> beside d m1 m3.
Proof.
  intros (_ & P1 & d1 & T1 & N1 & F1) (S2 & P2 & d2 & T2 & N2 & F2).
  split; [exact S2|]. split; [congruence|].
  exists (d1 ++ d2). rewrite T2, T1, app_assoc, F2, F1, triggered_app, orb_assoc.
  auto using noAttempt_app.
Qed.

Lemma beside_with_this d f m :
  summarizing (this m) = Some d ->
  summarizing (f (this m)) = summarizing (this m) ->
  tryWhileSummarizing (f (this m)) = tryWhileSummarizing (this m) ->
  beside d m (with_this f m).
Proof.
  intros H E F. split; [simpl; congruence|]. split; [reflexivity|].
  exists []. simpl. rewrite app_nil_r, orb_false_r. auto using noAttempt_nil.
Qed.

Lemma beside_log d es m :
  summarizing (this m) = Some d -> noAttempt es -> triggered es = false ->
  beside d m (log es m).
Proof.
  intros H N T. split; [exact H|]. split; [reflexivity|].
  exists es. simpl. rewrite T, orb_false_r. auto.
Qed.

Lemma beside_trySummarize d reason m :
  summarizing (this m) = Some d -> beside d m (trySummarize reason m).
Proof.
  intros H. unfold trySummarize. cbv zeta.
  change (this (log [EnterTrySummarize reason] m)) with (this m). rewrite H.
  split; [exact H|]. split; [reflexivity|].
  exists [EnterTrySummarize reason]. simpl. rewrite orb_true_r.
  repeat split.
Qed.

Lemma beside_summarizing d m m' : beside d m m' -> summarizing (this m') = Some d.
Proof. intros H. apply H. Qed.

Ltac beside_chain :=
  repeat first
    [ assumption
    | apply beside_refl
    | apply beside_trySummarize
    | apply beside_with_this; [ | reflexivity | reflexivity ]
    | apply beside_log; [ | repeat split | reflexivity ] ].

Lemma beside_run d m : summarizing (this m) = Some d -> beside d m (run m).
Proof.
  intros H. unfold run.
  set (m1 := with_this _ (log [EnterRun] m)).
  assert (B1 : beside d m m1).
  { apply (beside_trans d m (log [EnterRun] m)); beside_chain. }
  pose proof (beside_summarizing _ _ _ B1) as S1.
  destruct (_ >? _).
  { apply (beside_trans d m m1); beside_chain. }
  destruct (_ >? _).
  { apply (beside_trans d m m1); beside_chain. }
  apply (beside_trans d m m1); beside_chain.
Qed.

Lemma beside_handleOp d error op m :
  summarizing (this m) = Some d -> beside d m (handleOp error op m).
Proof.
  intros H. unfold handleOp. destruct error; [apply beside_refl, H|].
  set (m1 := with_this _ m).
  assert (B1 : beside d m m1) by (subst m1; beside_chain).
  pose proof (beside_summarizing _ _ _ B1) as S1.
  destruct (MessageType_eqb _ _); apply (beside_trans d m m1); beside_chain.
  apply beside_run, S1.
Qed.

Lemma beside_handleSystemOp d op m :
  summarizing (this m) = Some d -> beside d m (handleSystemOp op m).
Proof.
  intros H. unfold handleSystemOp.
  destruct (Message.type op);
    try (apply beside_refl, H); try (apply beside_handleOp, H).
  destruct (_ || _); [apply beside_refl, H|apply beside_handleOp, H].
Qed.

Lemma beside_waitStop d m :
  summarizing (this m) = Some d -> beside d m (fst (waitStop m)).
Proof.
  intros H. unfold waitStop.
  destruct (_disposed (this m)); [apply beside_refl, H|].
  destruct (stopping (this m)); [apply beside_refl, H|].
  set (m1 := with_this _ m).
  assert (B1 : beside d m m1) by (subst m1; beside_chain).
  pose proof (beside_summarizing _ _ _ B1) as S1.
  destruct (_ >? _); simpl; [|exact B1].
  apply (beside_trans d m m1); beside_chain.
Qed.

Lemma beside_dispose d m :
  summarizing (this m) = Some d -> beside d m (dispose m).
Proof.
  intros H. unfold dispose.
  apply (beside_trans d m (log [WatcherDispose] m)); beside_chain.
Qed.

Lemma beside_runHandler d h m :
  summarizing (this m) = Some d -> beside d m (runHandler h m).
Proof.
  intros H. destruct h; simpl.
  - apply beside_trySummarize, H.
  - unfold summarizeTimerHandler.
    destruct (_ <? _); [|beside_chain].
    apply (beside_trans d m (log [Telemetry "SummarizeTimeout"] m)); beside_chain.
  - unfold pendingAckTimeoutHandler. beside_chain.
Qed.

Lemma beside_fire d which m :
  summarizing (this m) = Some d -> beside d m (fire which m).
Proof.
  intros H. destruct which; simpl.
  - destruct (Timer.runningState _) as [[? h]|]; [|apply beside_refl, H].
    eapply beside_trans; [|apply beside_runHandler; exact H]. beside_chain.
  - destruct (Timer.runningState _) as [[? h]|]; [|apply beside_refl, H].
    eapply beside_trans; [|apply beside_runHandler; exact H]. beside_chain.
Qed.


(** *** Settlements *)

Lemma launch_trace s0 r m :
  respects sameFlags anyAnswer quiet s0 r ->
  sameFlags s0 (this (launch r m))
  /\ exists out, trace (launch r m) = trace m ++ out /\ quiet out.
Proof.
  intros H. destruct H as [s0 a s out HR HQ|s0 w s out k HR HQ _]; simpl; eauto.
Qed.

Lemma quiet_timeout :
  quiet [RaiseSummarizingError "SummaryAckWaitTimeout"; Telemetry "SummaryAckWaitTimeout"].
Proof. split; reflexivity. Qed.

Lemma settle_during d a m :
  consistent m -> summarizing (this m) = Some d ->
  summarizing (this (settle a m)) = Some d
  /\ tryWhileSummarizing (this (settle a m)) = tryWhileSummarizing (this m)
  /\ exists delta, trace (settle a m) = trace m ++ delta /\ quiet delta.
Proof.
  intros [_ Hk] Hs. unfold settle.
  assert (same : summarizing (this m) = Some d
                 /\ tryWhileSummarizing (this m) = tryWhileSummarizing (this m)
                 /\ exists delta, trace m = trace m ++ delta /\ quiet delta).
  { split; [exact Hs|]. split; [reflexivity|]. exists []. rewrite app_nil_r.
    split; [reflexivity|apply quiet_nil]. }
  destruct (pending m) as [|w k|]; try exact same.
  destruct (answerFor w a) as [x|]; [|exact same]. clear same.
  set (m1 := match a with RaceSettled (RaceTimer timeout) => _ | _ => m end).
  assert (H1 : summarizing (this m1) = Some d
               /\ tryWhileSummarizing (this m1) = tryWhileSummarizing (this m)
               /\ exists hd, trace m1 = trace m ++ hd /\ quiet hd).
  { subst m1. destruct a as [?|[?|[]|]];
      try (split; [exact Hs|]; split; [reflexivity|]; exists [];
           rewrite app_nil_r; split; [reflexivity|apply quiet_nil]).
    split; [exact Hs|]. split; [reflexivity|].
    eexists. split; [reflexivity|apply quiet_timeout]. }
  destruct H1 as (S1 & F1 & hd & T1 & Q1).
  destruct (launch_trace (this m1) (k x (this m1)) m1 (Hk x (this m1)))
    as ((E1 & E2 & _) & out & T2 & Q2).
  split; [congruence|]. split; [congruence|].
  exists (hd ++ out). rewrite T2, T1, app_assoc. split; [reflexivity|].
  apply quiet_app; assumption.
Qed.

Lemma step_during d now e m :
  consistent m -> summarizing (this m) = Some d -> e <> FinallyRuns ->
  summarizing (this (step now e m)) = Some d
  /\ exists delta,
       trace (step now e m) = trace m ++ delta
       /\ tryWhileSummarizing (this (step now e m))
          = tryWhileSummarizing (this m) || triggered delta.
Proof.
  intros Hc Hs He. unfold step.
  set (m1 := with_this (set_dateNow now) m).
  assert (C1 : consistent m1).
  { apply consistent_with_this; [reflexivity|exact Hc]. }
  assert (S1 : summarizing (this m1) = Some d) by exact Hs.
  assert (from_beside : forall m', beside d m1 m' ->
    summarizing (this m') = Some d
    /\ exists delta, trace m' = trace m ++ delta
       /\ tryWhileSummarizing (this m') = tryWhileSummarizing (this m) || triggered delta).
  { intros m' (A & _ & delta & T & _ & F). eauto. }
  destruct e.
  - apply from_beside, beside_handleOp, S1.
  - apply from_beside, beside_handleSystemOp, S1.
  - apply from_beside, beside_fire, S1.
  - destruct (settle_during d a m1 C1 S1) as (A & F & delta & T & Q).
    split; [exact A|]. exists delta. split; [exact T|].
    rewrite (quiet_not_triggered _ Q), orb_false_r. exact F.
  - contradiction.
  - apply from_beside, beside_waitStop, S1.
  - apply from_beside, beside_dispose, S1.
Qed.

Lemma steps_snoc es e m : steps (es ++ [e]) m = step (fst e) (snd e) (steps es m).
Proof. unfold steps. rewrite fold_left_app. reflexivity. Qed.

Lemma steps_during d es m :
  consistent m -> summarizing (this m) = Some d -> Forall notFinally es ->
  during d m (steps es m).
Proof.
  intros Hc Hs. induction es as [|e es IH] using rev_ind; intros Hes.
  - split; [exact Hs|]. split; [exact Hc|]. exists [].
    simpl. rewrite app_nil_r, orb_false_r. auto.
  - apply Forall_app in Hes as [Hes He]. inversion He as [|? ? He' _]; subst.
    destruct (IH Hes) as (S1 & C1 & d1 & T1 & F1).
    rewrite steps_snoc.
    destruct (step_during d (fst e) (snd e) (steps es m) C1 S1 He')
      as (S2 & d2 & T2 & F2).
    split; [exact S2|]. split; [apply consistent_step, C1|].
    exists (d1 ++ d2). rewrite T2, T1, app_assoc, F2, F1, triggered_app, orb_assoc.
    auto.
Qed.

(** *** The [.finally] callback *)

Lemma trySummarize_trace reason m :
  exists delta,
    trace (trySummarize reason m) = trace m ++ EnterTrySummarize reason :: delta
    /\ quiet delta.
Proof.
  unfold trySummarize. cbv zeta.
  change (this (log [EnterTrySummarize reason] m)) with (this m).
  destruct (summarizing (this m)) as [d|].
  - exists []. split; [reflexivity|apply quiet_nil].
  - set (s1 := set_summarizing _ _).
    set (m1 := {| this := this _ |}).
    destruct (launch_trace s1 (attempts reason s1) m1 (attempts_sameFlags reason s1))
      as (_ & out & T & Q).
    exists out. rewrite T. simpl. rewrite <- app_assoc. auto.
Qed.

Lemma run_trace m :
  exists delta, trace (run m) = trace m ++ EnterRun :: delta /\ runCalls delta = 0%nat.
Proof.
  unfold run.
  set (m1 := with_this _ (log [EnterRun] m)).
  assert (T1 : trace m1 = trace m ++ [EnterRun]) by reflexivity.
  assert (by_trigger : forall reason, exists delta,
    trace (trySummarize reason m1) = trace m ++ EnterRun :: delta
    /\ runCalls delta = 0%nat).
  { intros reason. destruct (trySummarize_trace reason m1) as (delta & T & _ & Q).
    exists (EnterTrySummarize reason :: delta). rewrite T, T1, <- app_assoc.
    split; [reflexivity|]. exact Q. }
  destruct (_ >? _); [apply by_trigger|].
  destruct (_ >? _); [apply by_trigger|].
  exists []. simpl. auto.
Qed.

Lemma finalizer_runs m :
  exists delta,
    trace (finalizer m) = trace m ++ delta
    /\ runCalls delta
       = if tryWhileSummarizing (this m) && negb (stopping (this m))
            && negb (_disposed (this m))
         then 1%nat else 0%nat.
Proof.
  unfold finalizer. cbv zeta. simpl.
  destruct (_ && _).
  - match goal with |- context [run ?m2] => destruct (run_trace m2) as (delta & T & Q) end.
    exists (EnterRun :: delta). rewrite T. simpl. split; [reflexivity|].
    change (runCalls (EnterRun :: delta)) with (S (runCalls delta)). rewrite Q.
    reflexivity.
  - exists []. simpl. rewrite app_nil_r. auto.
Qed.


(** C2.  While an attempt is in flight, [trySummarize] starts nothing: it
    sets [tryWhileSummarizing] and returns.  Whatever happens until the
    attempt's [.finally] callback runs, [summarizing] stays set; and that
    callback enters [heuristics.run()] once if the flag was set or any
    trigger arrived meanwhile, however many, and the summarizer is neither
    stopping nor disposed, and not at all otherwise. *)
Theorem trySummarize_coalesces m d es now :
  reachable m -> summarizing (this m) = Some d -> Forall notFinally es ->
  (forall reason,
     trySummarize reason m
     = with_this (set_tryWhileSummarizing true) (log [EnterTrySummarize reason] m))
  /\ let m' := steps es m in
     summarizing (this m') = Some d
     /\ (pending m' = Finalizing ->
         runCalls (since m' (step now FinallyRuns m'))
         = if (tryWhileSummarizing (this m) || triggered (since m m'))
              && negb (stopping (this m')) && negb (_disposed (this m'))
           then 1%nat else 0%nat).
Proof.
  intros Hr Hs Hes. split.
  { intros reason. unfold trySummarize. cbv zeta.
    change (this (log [EnterTrySummarize reason] m)) with (this m).
    rewrite Hs. reflexivity. }
  destruct (steps_during d es m (reachable_consistent m Hr) Hs Hes)
    as (S1 & C1 & delta & T & F).
  cbv zeta. split; [exact S1|]. intros Hp.
  rewrite (since_app _ _ _ T), <- F.
  unfold step.
  change (pending (with_this (set_dateNow now) (steps es m)))
    with (pending (steps es m)).
  rewrite Hp.
  destruct (finalizer_runs (with_this (set_dateNow now) (steps es m)))
    as (fd & Tf & Rf).
  rewrite (since_app _ _ fd); [exact Rf|exact Tf].
Qed.

(** *** Inside the escalation *)

Lemma escalated_insert reason P hd out n results stops :
  noAttempt hd ->
  escalated reason (P ++ out) n results stops ->
  escalated reason ((P ++ hd) ++ out) n results stops.
Proof.
  unfold noAttempt, escalated, startedAttempts, generateCalls, attemptResults,
    stopCalls.
  intros (A1 & A2 & A3 & A4). rewrite !omap_app, A1, A2, A3, A4, !app_nil_r.
  auto.
Qed.

Lemma triggerCompleted_insert reason P hd out :
  noAttempt hd -> triggerCompleted reason (P ++ out) ->
  triggerCompleted reason ((P ++ hd) ++ out).
Proof.
  intros N. unfold triggerCompleted.
  intros [H|[H|[H|H]]]; eauto 6 using escalated_insert.
Qed.

Lemma triggerInProgress_insert reason P hd out :
  noAttempt hd -> triggerInProgress reason (P ++ out) ->
  triggerInProgress reason ((P ++ hd) ++ out).
Proof.
  intros N. unfold triggerInProgress.
  intros [H|[H|H]]; eauto 6 using escalated_insert.
Qed.

Lemma escalatesOn_insert reason P hd o :
  noAttempt hd ->
  escalatesOn reason (prependOutcome P o) ->
  escalatesOn reason (prependOutcome (P ++ hd) o).
Proof.
  intros N. destruct o; simpl; auto using triggerCompleted_insert,
    triggerInProgress_insert.
Qed.

Lemma answerFor_onto w (x : Resp w) : exists a, answerFor w a = Some x.
Proof.
  destruct w; simpl in *;
    [exists (GenerateSettled x)|exists (RaceSettled x)|exists (RaceSettled x)];
    reflexivity.
Qed.

Lemma launch_inEscalation reason P r m :
  (forall turns, escalatesOn reason (prependOutcome P (drive r turns))) ->
  exists out,
    trace (launch r m) = trace m ++ out
    /\ inEscalation reason (P ++ out) (launch r m).
Proof.
  intros H. destruct r as [a s out|w s out k]; simpl; exists out;
    (split; [reflexivity|]); unfold inEscalation; simpl.
  - apply (H []).
  - split; [apply (H [])|].
    intros x s' turns.
    destruct (answerFor_onto w x) as [a Ha].
    specialize (H ({| interference := fun _ => s'; answer := a |} :: turns)).
    simpl in H. rewrite Ha, prependOutcome_app in H. exact H.
Qed.

Lemma beside_inEscalation reason P d m m' :
  beside d m m' -> inEscalation reason P m ->
  exists delta, trace m' = trace m ++ delta /\ inEscalation reason (P ++ delta) m'.
Proof.
  intros (_ & Ep & delta & T & N & _) H. exists delta. split; [exact T|].
  unfold inEscalation in *. rewrite Ep.
  destruct (pending m) as [|w k|].
  - exact H.
  - destruct H as [H1 H2]. split.
    + rewrite <- (app_nil_r P) in H1.
      apply (triggerInProgress_insert reason P delta []) in H1; [|exact N].
      rewrite app_nil_r in H1. exact H1.
    + intros x s' turns. apply escalatesOn_insert; auto.
  - rewrite <- (app_nil_r P) in H.
    apply (triggerCompleted_insert reason P delta []) in H; [|exact N].
    rewrite app_nil_r in H. exact H.
Qed.

Lemma noAttempt_timeout :
  noAttempt [RaiseSummarizingError "SummaryAckWaitTimeout";
             Telemetry "SummaryAckWaitTimeout"].
Proof. repeat split. Qed.

Lemma settle_inEscalation reason P a m :
  inEscalation reason P m ->
  exists delta,
    trace (settle a m) = trace m ++ delta
    /\ inEscalation reason (P ++ delta) (settle a m).
Proof.
  intros H. unfold settle.
  assert (same : exists delta, trace m = trace m ++ delta
                               /\ inEscalation reason (P ++ delta) m).
  { exists []. rewrite !app_nil_r. auto. }
  unfold inEscalation in H.
  destruct (pending m) as [|w k|] eqn:Ep; try exact same.
  destruct (answerFor w a) as [x|]; [|exact same]. clear same.
  destruct H as [_ H].
  set (m1 := match a with RaceSettled (RaceTimer timeout) => _ | _ => m end).
  assert (H1 : exists hd, trace m1 = trace m ++ hd /\ noAttempt hd).
  { subst m1. destruct a as [?|[?|[]|]];
      try (exists []; rewrite app_nil_r; split; [reflexivity|apply noAttempt_nil]).
    eexists. split; [reflexivity|apply noAttempt_timeout]. }
  destruct H1 as (hd & T1 & N1).
  destruct (launch_inEscalation reason (P ++ hd) (k x (this m1)) m1)
    as (out & T2 & I2).
  { intros turns. apply escalatesOn_insert; [exact N1|apply H]. }
  exists (hd ++ out). rewrite T2, T1, !app_assoc. auto.
Qed.

Lemma step_inEscalation reason P d now e m :
  summarizing (this m) = Some d -> e <> FinallyRuns ->
  inEscalation reason P m ->
  exists delta,
    trace (step now e m) = trace m ++ delta
    /\ inEscalation reason (P ++ delta) (step now e m).
Proof.
  intros Hs He H. unfold step.
  set (m1 := with_this (set_dateNow now) m).
  assert (S1 : summarizing (this m1) = Some d) by exact Hs.
  assert (I1 : inEscalation reason P m1) by exact H.
  change (trace m) with (trace m1).
  destruct e.
  - eapply beside_inEscalation; [apply beside_handleOp, S1|exact I1].
  - eapply beside_inEscalation; [apply beside_handleSystemOp, S1|exact I1].
  - eapply beside_inEscalation; [apply beside_fire, S1|exact I1].
  - apply settle_inEscalation, I1.
  - contradiction.
  - eapply beside_inEscalation; [apply beside_waitStop, S1|exact I1].
  - eapply beside_inEscalation; [apply beside_dispose, S1|exact I1].
Qed.

(** C1.  A trigger that finds no attempt in flight calls [generateSummary]
    at once with [refreshLatestAck: false, fullTree: false].  From then until
    its [.finally] callback runs, whatever else happens, the log shows a
    prefix of the escalation: the given reason with those options, then
    ["retry1"] with [refreshLatestAck: true, fullTree: false], then
    ["retry2"] with [refreshLatestAck: true, fullTree: true], each attempt
    after a failed one and none after a successful one, never a fourth, and
    [stop("failToSummarize")] exactly after the third failure. *)
Theorem trySummarize_escalation m reason es :
  reachable m -> summarizing (this m) = None -> Forall notFinally es ->
  let m0 := trySummarize reason m in
  let m' := steps es m0 in
  since m m0 = [EnterTrySummarize reason; SummarizeStart reason firstOptions;
                GenerateSummary firstOptions]
  /\ match pending m' with
     | Awaiting _ _ => triggerInProgress reason (since m m')
     | Finalizing => triggerCompleted reason (since m m')
     | Idle => False
     end.
Proof.
  intros Hr Hs Hes. cbv zeta.
  assert (E0 : trySummarize reason m
               = launch (attempts reason (set_summarizing (Some (allocated m)) (this m)))
                   {| this := this m; pending := pending m;
                      trace := trace m ++ [EnterTrySummarize reason];
                      allocated := S (allocated m); resolved := resolved m |}).
  { unfold trySummarize. cbv zeta.
    change (this (log [EnterTrySummarize reason] m)) with (this m).
    rewrite Hs. reflexivity. }
  split.
  { rewrite E0. unfold since. simpl. rewrite <- app_assoc. apply drop_app_length. }
  set (m0 := trySummarize reason m).
  assert (S0 : summarizing (this m0) = Some (allocated m)).
  { subst m0. rewrite E0.
    match goal with |- context [launch ?r ?mm] =>
      destruct (launch_trace _ r mm (attempts_sameFlags reason _)) as ((E & _) & _)
    end. rewrite E. reflexivity. }
  assert (C0 : consistent m0)
    by (apply consistent_trySummarize, reachable_consistent, Hr).
  assert (I0 : exists P, trace m0 = trace m ++ P /\ inEscalation reason P m0).
  { subst m0. rewrite E0.
    match goal with |- context [launch ?r ?mm] =>
      destruct (launch_inEscalation reason [EnterTrySummarize reason] r mm)
        as (out & T & I0)
    end.
    - intros turns.
      rewrite <- (app_nil_l [EnterTrySummarize reason]).
      apply escalatesOn_insert; [repeat split|].
      rewrite prependOutcome_nil. apply attempts_transcript.
    - exists ([EnterTrySummarize reason] ++ out). rewrite T. simpl.
      rewrite <- app_assoc. auto. }
  assert (W : exists P, trace (steps es m0) = trace m ++ P
                        /\ inEscalation reason P (steps es m0)
                        /\ summarizing (this (steps es m0)) = Some (allocated m)
                        /\ consistent (steps es m0)).
  { clear E0. induction es as [|e es IH] using rev_ind.
    - destruct I0 as (P & T & I0). exists P. auto.
    - apply Forall_app in Hes as [Hes He]. inversion He as [|? ? He' _]; subst.
      destruct (IH Hes) as (P & T & I1 & S1 & C1).
      rewrite steps_snoc.
      destruct (step_inEscalation reason P _ (fst e) (snd e) _ S1 He' I1)
        as (delta & T2 & I2).
      exists (P ++ delta). rewrite T2, T, app_assoc.
      split; [reflexivity|]. split; [exact I2|].
      split; [|apply consistent_step, C1].
      apply (step_during _ (fst e) (snd e) _ C1 S1 He'). }
  destruct W as (P & T & I1 & _ & _).
  rewrite (since_app _ _ _ T). unfold inEscalation in I1.
  destruct (pending (steps es m0)); [exact I1|apply I1|exact I1].
Qed.


(** ** The ordering of the heuristics state *)

Ltac order :=
  unfold orderedOf, Heuristics.ordered, Heuristics.ackLastSent, Heuristics.recordAttempt,
    Heuristics.initialize, Heuristics.set_summarySequenceNumber,
    Heuristics.lastAcked, Heuristics.lastAttempted in *;
  simpl in *; lia.

Lemma ordered_ackLastSent h : Heuristics.ordered h -> Heuristics.ordered (Heuristics.ackLastSent h).
Proof. order. Qed.

Lemma ordered_recordAttempt_none now h :
  Heuristics.ordered h -> Heuristics.ordered (Heuristics.recordAttempt now None h).
Proof. order. Qed.

Lemma ordered_recordAttempt_some now r h :
  refSequenceNumber (Heuristics.lastAcked h) <= r ->
  r <= Heuristics.lastOpSeqNumber h ->
  Heuristics.ordered (Heuristics.recordAttempt now (Some r) h).
Proof. order. Qed.

Lemma ordered_initialize a h :
  refSequenceNumber a <= Heuristics.lastOpSeqNumber h ->
  Heuristics.ordered (Heuristics.initialize a h).
Proof. order. Qed.

Lemma ordered_set_summarySequenceNumber n h :
  Heuristics.ordered h -> Heuristics.ordered (Heuristics.set_summarySequenceNumber n h).
Proof. order. Qed.

Lemma ordered_set_lastOpSeqNumber n h :
  Heuristics.ordered h ->
  refSequenceNumber (Heuristics.lastAttempted h) <= n ->
  Heuristics.ordered (Heuristics.set_lastOpSeqNumber n h).
Proof. order. Qed.

Lemma keepsOrder_refl s : keepsOrder s s.
Proof. split; auto. Qed.

Lemma keepsOrder_trans s1 s2 s3 : keepsOrder s1 s2 -> keepsOrder s2 s3 -> keepsOrder s1 s3.
Proof. intros [A1 A2] [B1 B2]. split; [auto|congruence]. Qed.

Lemma attempts_keepsOrder reason s :
  respects keepsOrder boundedAnswer anyEffects s (attempts reason s).
Proof.
  apply respects_attempts;
    try exact keepsOrder_refl; try exact keepsOrder_trans;
    try (intros; exact I).
  all: intros; split; [|reflexivity].
  all: first [ exact (fun H => H)
             | apply ordered_recordAttempt_none
             | apply ordered_set_summarySequenceNumber
             | apply ordered_ackLastSent
             | idtac ].
  intros _. match goal with H : boundedAnswer _ _ _ |- _ => destruct H end.
  apply ordered_recordAttempt_some; assumption.
Qed.

Lemma orderly_launch r m s :
  respects keepsOrder boundedAnswer anyEffects s r -> orderedOf s ->
  orderly (launch r m).
Proof.
  intros H Hs. destruct H as [s0 a s1 out [E _] _|s0 w s1 out k [E _] _ Hk]; simpl.
  - split; [apply E, Hs|exact I].
  - split; [apply E, Hs|exact Hk].
Qed.

Lemma orderly_same m m' :
  pending m' = pending m -> (orderedOf (this m) -> orderedOf (this m')) ->
  orderly m -> orderly m'.
Proof. unfold orderly. intros -> E [H1 H2]. auto. Qed.

Lemma orderly_trySummarize reason m : orderly m -> orderly (trySummarize reason m).
Proof.
  intros H. unfold trySummarize. cbv zeta.
  change (this (log [EnterTrySummarize reason] m)) with (this m).
  destruct (summarizing (this m)) as [d|] eqn:E.
  - apply (orderly_same m); [reflexivity|auto|exact H].
  - eapply orderly_launch; [apply attempts_keepsOrder|]. apply H.
Qed.

Lemma orderly_run m : orderly m -> orderly (run m).
Proof.
  intros H. unfold run.
  set (m1 := with_this _ (log [EnterRun] m)).
  assert (H1 : orderly m1) by (apply (orderly_same m); [reflexivity|auto|exact H]).
  destruct (_ >? _); [apply orderly_trySummarize, H1|].
  destruct (_ >? _); [apply orderly_trySummarize, H1|].
  apply (orderly_same m1); [reflexivity|auto|exact H1].
Qed.

Lemma orderly_finalizer m : orderly m -> orderly (finalizer m).
Proof.
  intros [H _]. unfold finalizer.
  set (m1 := {| this := set_summarizing None (this m) |}).
  assert (H1 : orderly m1) by (split; [exact H|exact I]).
  destruct (_ && _); [|exact H1].
  apply orderly_run. apply (orderly_same m1); [reflexivity|auto|exact H1].
Qed.

Lemma orderly_handleOp error op m :
  orderly m -> admissible m (BatchEnd error op) ->
  orderly (handleOp error op m).
Proof.
  intros H Ha. unfold handleOp. destruct error; [exact H|].
  set (m1 := with_this _ m).
  assert (H1 : orderly m1).
  { apply (orderly_same m); [reflexivity| |exact H].
    intros Ho. apply ordered_set_lastOpSeqNumber; assumption. }
  destruct (MessageType_eqb _ _);
    [apply orderly_trySummarize|apply orderly_run]; exact H1.
Qed.

Lemma orderly_handleSystemOp op m :
  orderly m -> admissible m (InboundOp op) -> orderly (handleSystemOp op m).
Proof.
  intros H Ha. unfold handleSystemOp.
  destruct (Message.type op); try exact H;
    try (apply orderly_handleOp; [exact H|exact Ha]).
  destruct (_ || _); [exact H|apply orderly_handleOp; [exact H|exact Ha]].
Qed.

Lemma orderly_waitStop m : orderly m -> orderly (fst (waitStop m)).
Proof.
  intros H. unfold waitStop.
  destruct (_disposed (this m)); [exact H|].
  destruct (stopping (this m)); [exact H|].
  set (m1 := with_this _ m).
  assert (H1 : orderly m1) by (apply (orderly_same m); [reflexivity|auto|exact H]).
  destruct (_ >? _); simpl; [apply orderly_trySummarize|]; exact H1.
Qed.

Lemma orderly_dispose m : orderly m -> orderly (dispose m).
Proof. intros H. apply (orderly_same m); [reflexivity|auto|exact H]. Qed.

Lemma orderly_runHandler h m : orderly m -> orderly (runHandler h m).
Proof.
  intros H. destruct h; simpl.
  - apply orderly_trySummarize, H.
  - unfold summarizeTimerHandler.
    destruct (_ <? _); apply (orderly_same m); auto.
  - apply (orderly_same m); auto.
Qed.

Lemma orderly_fire which m : orderly m -> orderly (fire which m).
Proof.
  intros H. destruct which; simpl.
  - destruct (Timer.runningState _) as [[? h]|]; [|exact H].
    apply orderly_runHandler. apply (orderly_same m); auto.
  - destruct (Timer.runningState _) as [[? h]|]; [|exact H].
    apply orderly_runHandler. apply (orderly_same m); auto.
Qed.

Lemma orderly_settle a m :
  orderly m -> admissible m (Settles a) -> orderly (settle a m).
Proof.
  intros H Ha. unfold settle.
  destruct (pending m) as [|w k|] eqn:Ep; try exact H.
  destruct (answerFor w a) as [x|] eqn:Ex; [|exact H].
  destruct H as [Ho Hk]. rewrite Ep in Hk.
  set (m1 := match a with RaceSettled (RaceTimer timeout) => _ | _ => m end).
  assert (E1 : heuristics (this m1) = heuristics (this m)).
  { subst m1. destruct a as [?|[?|[]|]]; reflexivity. }
  assert (O1 : orderedOf (this m1)) by (unfold orderedOf; rewrite E1; exact Ho).
  eapply orderly_launch; [apply Hk|exact O1].
  destruct w; simpl in *; try exact I.
  destruct a as [r|r]; [|discriminate Ex].
  injection Ex as <-. destruct r as [d|]; [|exact I].
  unfold boundedReference. rewrite E1. exact Ha.
Qed.

Lemma orderly_step now e m :
  orderly m -> admissible m e -> orderly (step now e m).
Proof.
  intros H Ha. unfold step.
  set (m1 := with_this (set_dateNow now) m).
  assert (H1 : orderly m1) by (apply (orderly_same m); [reflexivity|auto|exact H]).
  assert (A1 : admissible m1 e) by exact Ha.
  destruct e.
  - apply orderly_handleOp; assumption.
  - apply orderly_handleSystemOp; assumption.
  - apply orderly_fire, H1.
  - apply orderly_settle; assumption.
  - destruct (pending m1); [exact H1|exact H1|apply orderly_finalizer, H1].
  - apply orderly_waitStop, H1.
  - apply orderly_dispose, H1.
Qed.

Lemma orderly_steps es m :
  orderly m -> allAdmissible es m -> orderly (steps es m).
Proof.
  revert m. induction es as [|e es IH]; intros m H Ha; [exact H|].
  destruct Ha as [Ha Hes]. apply (IH _ (orderly_step _ _ _ H Ha) Hes).
Qed.

Lemma orderly_start c o cfg lastOp firstAck now maybeLastAck :
  refSequenceNumber firstAck <= lastOp ->
  (forall op, maybeLastAck = RaceValue op -> Message.referenceSequenceNumber op <= lastOp) ->
  orderly (start c o cfg lastOp firstAck now maybeLastAck).
Proof.
  intros H1 H2. unfold start. apply orderly_run. unfold waitStart.
  set (m0 := match maybeLastAck with RaceTimer timeout => _ | _ => _ end).
  assert (H0 : orderly m0).
  { split; [|subst m0; destruct maybeLastAck as [?|[]|]; exact I].
    subst m0. destruct maybeLastAck as [?|[]|];
      order. }
  assert (L0 : Heuristics.lastOpSeqNumber (heuristics (this m0)) = lastOp).
  { subst m0. destruct maybeLastAck as [?|[]|]; reflexivity. }
  destruct maybeLastAck as [op| |]; simpl checkNotTimeout; cbv iota.
  - split; [|destruct H0 as [_ H0]; exact H0].
    apply ordered_initialize. simpl. specialize (H2 op eq_refl). exact H2.
  - apply (orderly_same m0); [reflexivity|auto|exact H0].
  - apply (orderly_same m0); [reflexivity|auto|exact H0].
Qed.


(** ** What the synchronous methods leave alone *)

(** [trySummarize] does not touch what the heuristics decide on. *)
Lemma trySummarize_heuristics reason m :
  Heuristics.lastOpSeqNumber (heuristics (this (trySummarize reason m)))
    = Heuristics.lastOpSeqNumber (heuristics (this m))
  /\ Heuristics.idleTimer (heuristics (this (trySummarize reason m)))
    = Heuristics.idleTimer (heuristics (this m))
  /\ Heuristics.configuration (heuristics (this (trySummarize reason m)))
    = Heuristics.configuration (heuristics (this m))
  /\ stopping (this (trySummarize reason m)) = stopping (this m)
  /\ _disposed (this (trySummarize reason m)) = _disposed (this m).
Proof.
  unfold trySummarize. cbv zeta.
  change (this (log [EnterTrySummarize reason] m)) with (this m).
  destruct (summarizing (this m)) as [d|]; [repeat split|].
  set (s1 := set_summarizing _ _).
  set (m1 := {| this := this _ |}).
  destruct (launch_trace s1 (attempts reason s1) m1 (attempts_sameFlags reason s1))
    as ((_ & _ & A & B & C & D & E) & _).
  rewrite A, B, C, D, E. repeat split.
Qed.

Lemma launch_keepsOrder s0 r m :
  respects keepsOrder boundedAnswer anyEffects s0 r ->
  keepsOrder s0 (this (launch r m)).
Proof. intros H. destruct H; simpl; assumption. Qed.

Lemma trySummarize_keepsOrder reason m :
  orderedOf (this m) -> orderedOf (this (trySummarize reason m)).
Proof.
  unfold trySummarize. cbv zeta.
  change (this (log [EnterTrySummarize reason] m)) with (this m).
  destruct (summarizing (this m)) as [d|]; [auto|].
  set (s1 := set_summarizing _ _).
  set (m1 := {| this := this _ |}).
  apply (launch_keepsOrder s1 (attempts reason s1) m1 (attempts_keepsOrder reason s1)).
Qed.

Lemma run_keepsOrder m : orderedOf (this m) -> orderedOf (this (run m)).
Proof.
  intros H. unfold run.
  set (m1 := with_this _ (log [EnterRun] m)).
  assert (H1 : orderedOf (this m1)) by exact H.
  destruct (_ >? _); [apply trySummarize_keepsOrder, H1|].
  destruct (_ >? _); [apply trySummarize_keepsOrder, H1|].
  exact H1.
Qed.

Lemma trySummarize_begins reason m :
  summarizing (this m) = None ->
  since m (trySummarize reason m)
  = [EnterTrySummarize reason; SummarizeStart reason firstOptions;
     GenerateSummary firstOptions]
  /\ summarizing (this (trySummarize reason m)) = Some (allocated m).
Proof.
  intros Hs. unfold trySummarize. cbv zeta.
  change (this (log [EnterTrySummarize reason] m)) with (this m).
  rewrite Hs. split.
  - unfold since. simpl. rewrite <- app_assoc. apply drop_app_length.
  - reflexivity.
Qed.

Lemma trySummarize_inFlight reason m d :
  summarizing (this m) = Some d ->
  trySummarize reason m
  = with_this (set_tryWhileSummarizing true) (log [EnterTrySummarize reason] m).
Proof.
  intros Hs. unfold trySummarize. cbv zeta.
  change (this (log [EnterTrySummarize reason] m)) with (this m).
  rewrite Hs. reflexivity.
Qed.

Lemma trySummarize_since reason m :
  triggers (since m (trySummarize reason m)) = [reason]
  /\ runCalls (since m (trySummarize reason m)) = 0%nat
  /\ (summarizing (this m) = None ->
      startedAttempts (since m (trySummarize reason m)) = [(reason, firstOptions)])
  /\ exists d, summarizing (this (trySummarize reason m)) = Some d.
Proof.
  destruct (trySummarize_trace reason m) as (delta & T & Q1 & Q2).
  rewrite (since_app _ _ _ T).
  change (triggers (EnterTrySummarize reason :: delta)) with (reason :: triggers delta).
  change (runCalls (EnterTrySummarize reason :: delta)) with (runCalls delta).
  rewrite Q1. split; [reflexivity|].
  split; [exact Q2|]. split.
  - intros Hs. destruct (trySummarize_begins reason m Hs) as [E _].
    rewrite (since_app _ _ _ T) in E. rewrite E. reflexivity.
  - destruct (summarizing (this m)) as [d|] eqn:Hs.
    + exists d. rewrite (trySummarize_inFlight reason m d Hs). exact Hs.
    + eexists. apply (trySummarize_begins reason m Hs).
Qed.

(** ** The heuristics *)

(** C4.  [run()] clears the idle timer and then decides in this order: more
    than [maxTime] since the last acked summary triggers ["maxTime"] and
    nothing else; otherwise more than [maxOps] ops since then trigger
    ["maxOps"]; otherwise the idle timer is armed for [idleTime] with the
    ["idle"] trigger as its callback.  After a trigger the idle timer is not
    armed. *)
Theorem run_decides m :
  wired (this m) ->
  let h := heuristics (this m) in
  let timeSinceLastSummary :=
    dateNow (this m) - summaryTime (Heuristics.lastAcked h) in
  let opCountSinceLastSummary :=
    Heuristics.lastOpSeqNumber h - refSequenceNumber (Heuristics.lastAcked h) in
  let armed :=
    Timer.runningState (Heuristics.idleTimer (heuristics (this (run m)))) in
  (timeSinceLastSummary > maxTime (Heuristics.configuration h) ->
   triggers (since m (run m)) = ["maxTime"] /\ armed = None)
  /\ (timeSinceLastSummary <= maxTime (Heuristics.configuration h) ->
      opCountSinceLastSummary > maxOps (Heuristics.configuration h) ->
      triggers (since m (run m)) = ["maxOps"] /\ armed = None)
  /\ (timeSinceLastSummary <= maxTime (Heuristics.configuration h) ->
      opCountSinceLastSummary <= maxOps (Heuristics.configuration h) ->
      since m (run m) = [EnterRun]
      /\ armed = Some (idleTime (Heuristics.configuration h), TrySummarizeIdle))
  /\ runCalls (since m (run m)) = 1%nat.
Proof.
  intros [W1 W2]. cbv zeta. unfold run. cbv zeta.
  set (m1 := with_this _ (log [EnterRun] m)).
  change (heuristics (this m1))
    with (Heuristics.clearIdleTimer (heuristics (this m))).
  change (dateNow (this m1)) with (dateNow (this m)).
  change (Heuristics.lastAcked (Heuristics.clearIdleTimer (heuristics (this m))))
    with (Heuristics.lastAcked (heuristics (this m))).
  change (Heuristics.lastOpSeqNumber (Heuristics.clearIdleTimer (heuristics (this m))))
    with (Heuristics.lastOpSeqNumber (heuristics (this m))).
  change (Heuristics.configuration (Heuristics.clearIdleTimer (heuristics (this m))))
    with (Heuristics.configuration (heuristics (this m))).
  assert (by_trigger : forall reason,
    triggers (since m (trySummarize reason m1)) = [reason]
    /\ Timer.runningState
         (Heuristics.idleTimer (heuristics (this (trySummarize reason m1)))) = None
    /\ runCalls (since m (trySummarize reason m1)) = 1%nat).
  { intros reason.
    destruct (trySummarize_trace reason m1) as (delta & T & Q1 & Q2).
    destruct (trySummarize_heuristics reason m1) as (_ & I & _).
    rewrite I.
    assert (T' : trace (trySummarize reason m1)
                 = trace m ++ EnterRun :: EnterTrySummarize reason :: delta).
    { rewrite T. simpl. rewrite <- app_assoc. reflexivity. }
    rewrite (since_app _ _ _ T').
    change (triggers (EnterRun :: EnterTrySummarize reason :: delta))
      with (reason :: triggers delta).
    rewrite Q1. split; [reflexivity|]. split; [reflexivity|].
    change (runCalls (EnterRun :: EnterTrySummarize reason :: delta))
      with (S (runCalls delta)). rewrite Q2. reflexivity. }
  destruct (Z.gtb_spec (dateNow (this m)
                        - summaryTime (Heuristics.lastAcked (heuristics (this m))))
              (maxTime (Heuristics.configuration (heuristics (this m))))) as [E1|E1].
  { destruct (by_trigger "maxTime") as (A & B & C).
    repeat split; auto; lia. }
  destruct (Z.gtb_spec (Heuristics.lastOpSeqNumber (heuristics (this m))
                        - refSequenceNumber (Heuristics.lastAcked (heuristics (this m))))
              (maxOps (Heuristics.configuration (heuristics (this m))))) as [E2|E2].
  { destruct (by_trigger "maxOps") as (A & B & C).
    repeat split; auto; lia. }
  assert (T : trace (with_this (fun s =>
                set_heuristics (Heuristics.restartIdleTimer (heuristics s)) s) m1)
              = trace m ++ [EnterRun]) by reflexivity.
  rewrite (since_app _ _ _ T).
  split; [lia|]. split; [lia|]. split; [|reflexivity].
  intros _ _. split; [reflexivity|]. simpl. rewrite W1, W2. reflexivity.
Qed.


(** *** The idle timer stays wired *)

Lemma wired_same s s' :
  Heuristics.idleTimer (heuristics s') = Heuristics.idleTimer (heuristics s) ->
  Heuristics.configuration (heuristics s') = Heuristics.configuration (heuristics s) ->
  wired s -> wired s'.
Proof. unfold wired. intros -> ->. auto. Qed.

Lemma wired_trySummarize reason m :
  wired (this m) -> wired (this (trySummarize reason m)).
Proof.
  destruct (trySummarize_heuristics reason m) as (_ & A & B & _).
  apply wired_same; assumption.
Qed.

Lemma wired_run m : wired (this m) -> wired (this (run m)).
Proof.
  intros H. unfold run.
  set (m1 := with_this _ (log [EnterRun] m)).
  assert (H1 : wired (this m1)) by exact H.
  destruct (_ >? _); [apply wired_trySummarize, H1|].
  destruct (_ >? _); [apply wired_trySummarize, H1|].
  exact H1.
Qed.

Lemma wired_finalizer m : wired (this m) -> wired (this (finalizer m)).
Proof.
  intros H. unfold finalizer. cbv zeta.
  destruct (_ && _); [|exact H]. apply wired_run. exact H.
Qed.

Lemma wired_handleOp error op m :
  wired (this m) -> wired (this (handleOp error op m)).
Proof.
  intros H. unfold handleOp. destruct error; [exact H|].
  destruct (MessageType_eqb _ _); [apply wired_trySummarize|apply wired_run]; exact H.
Qed.

Lemma wired_handleSystemOp op m :
  wired (this m) -> wired (this (handleSystemOp op m)).
Proof.
  intros H. unfold handleSystemOp.
  destruct (Message.type op); try exact H; try (apply wired_handleOp, H).
  destruct (_ || _); [exact H|apply wired_handleOp, H].
Qed.

Lemma wired_waitStop m : wired (this m) -> wired (this (fst (waitStop m))).
Proof.
  intros H. unfold waitStop.
  destruct (_disposed (this m)); [exact H|].
  destruct (stopping (this m)); [exact H|].
  destruct (_ >? _); simpl; [apply wired_trySummarize|]; exact H.
Qed.

Lemma wired_runHandler h m : wired (this m) -> wired (this (runHandler h m)).
Proof.
  intros H. destruct h; simpl.
  - apply wired_trySummarize, H.
  - unfold summarizeTimerHandler. destruct (_ <? _); exact H.
  - exact H.
Qed.

Lemma wired_fire which m : wired (this m) -> wired (this (fire which m)).
Proof.
  intros H. destruct which; simpl.
  - destruct (Timer.runningState _) as [[? h]|]; [|exact H].
    apply wired_runHandler. exact H.
  - destruct (Timer.runningState _) as [[? h]|]; [|exact H].
    apply wired_runHandler. exact H.
Qed.

Lemma wired_settle a m :
  consistent m -> wired (this m) -> wired (this (settle a m)).
Proof.
  intros [_ Hk] H. unfold settle.
  destruct (pending m) as [|w k|]; try exact H.
  destruct (answerFor w a) as [x|]; [|exact H].
  set (m1 := match a with RaceSettled (RaceTimer timeout) => _ | _ => m end).
  assert (H1 : wired (this m1)).
  { subst m1. destruct a as [?|[?|[]|]]; exact H. }
  destruct (launch_trace (this m1) (k x (this m1)) m1 (Hk x (this m1)))
    as ((_ & _ & _ & _ & _ & A & B) & _).
  apply (wired_same (this m1)); assumption.
Qed.

Lemma wired_step now e m :
  consistent m -> wired (this m) -> wired (this (step now e m)).
Proof.
  intros Hc H. unfold step.
  set (m1 := with_this (set_dateNow now) m).
  assert (C1 : consistent m1) by (apply consistent_with_this; [reflexivity|exact Hc]).
  assert (H1 : wired (this m1)) by exact H.
  destruct e.
  - apply wired_handleOp, H1.
  - apply wired_handleSystemOp, H1.
  - apply wired_fire, H1.
  - apply wired_settle; assumption.
  - destruct (pending m1); [exact H1|exact H1|apply wired_finalizer, H1].
  - apply wired_waitStop, H1.
  - exact H1.
Qed.

Lemma reachable_wired m : reachable m -> wired (this m).
Proof.
  induction 1 as [c o cfg l f n r|now e m Hr IH].
  - unfold start. apply wired_run. unfold waitStart.
    destruct r as [?|[]|]; split; reflexivity.
  - apply wired_step; [apply reachable_consistent, Hr|exact IH].
Qed.

Lemma reachable_steps es m : reachable m -> reachable (steps es m).
Proof.
  revert m. induction es as [|e es IH]; intros m H; [exact H|].
  apply IH. constructor. exact H.
Qed.

(** ** Op reception *)

(** C8.  [handleOp] with an error changes nothing.  Without one it first
    sets [lastOpSeqNumber] to the op's sequence number, and then, on that
    state, a Save op enters [trySummarize] with the reason
    [save;<clientId>: <contents>] (not [run]), starting an attempt at once
    when none is in flight, and any other op enters [heuristics.run()]
    once. *)
Theorem handleOp_receives m op :
  (forall e, handleOp (Some e) op m = m)
  /\ let m1 :=
       with_this (fun s =>
         set_heuristics
           (Heuristics.set_lastOpSeqNumber (Message.sequenceNumber op) (heuristics s)) s) m in
     let m' := handleOp None op m in
     let reason := "save;" +:+ Message.clientId op +:+ ": " +:+ Message.contents op in
     Heuristics.lastOpSeqNumber (heuristics (this m')) = Message.sequenceNumber op
     /\ (Message.type op = Save ->
         m' = trySummarize reason m1
         /\ triggers (since m m') = [reason]
         /\ runCalls (since m m') = 0%nat
         /\ (summarizing (this m) = None ->
             since m m' = [EnterTrySummarize reason; SummarizeStart reason firstOptions;
                           GenerateSummary firstOptions]))
     /\ (Message.type op <> Save ->
         m' = run m1 /\ runCalls (since m m') = 1%nat
         /\ exists rest, since m m' = EnterRun :: rest).
Proof.
  split; [reflexivity|]. cbv zeta. unfold handleOp.
  set (m1 := with_this _ m).
  set (reason := "save;" +:+ _).
  assert (S0 : forall m', since m m' = since m1 m') by reflexivity.
  destruct (Message.type op) eqn:Et; simpl MessageType_eqb; cbv iota.
  1: { destruct (trySummarize_heuristics reason m1) as (L & _).
       destruct (trySummarize_since reason m1) as (A & B & C & _).
       split; [rewrite L; reflexivity|]. split; [|intros H; contradiction].
       intros _. rewrite !S0. split; [reflexivity|]. split; [exact A|].
       split; [exact B|]. intros Hs. apply (trySummarize_begins reason m1 Hs). }
  all: split; [|split; [intros H; discriminate H|]].
  all: try (intros _; split; [reflexivity|];
            destruct (run_trace m1) as (rest & T & Q);
            rewrite S0, (since_app _ _ _ T);
            split; [change (runCalls (EnterRun :: rest)) with (S (runCalls rest));
                    rewrite Q; reflexivity|eauto]).
  all: unfold run; cbv zeta;
       set (m2 := with_this _ (log [EnterRun] m1));
       assert (L2 : Heuristics.lastOpSeqNumber (heuristics (this m2))
                    = Message.sequenceNumber op) by reflexivity;
       destruct (_ >? _);
       [rewrite (proj1 (trySummarize_heuristics _ m2)); exact L2|];
       destruct (_ >? _);
       [rewrite (proj1 (trySummarize_heuristics _ m2)); exact L2|];
       reflexivity.
Qed.

(** *** Signals *)

Lemma fresh_same m m' :
  allocated m' = allocated m -> resolved m' = resolved m ->
  summarizing (this m') = summarizing (this m) ->
  fresh m -> fresh m'.
Proof. unfold fresh. intros -> -> ->. auto. Qed.

Lemma launch_signals s0 r m :
  respects sameFlags anyAnswer quiet s0 r ->
  allocated (launch r m) = allocated m
  /\ resolved (launch r m) = resolved m
  /\ summarizing (this (launch r m)) = summarizing s0.
Proof. intros H. destruct H as [? ? ? ? (E & _)|? ? ? ? ? (E & _)]; simpl; auto. Qed.

Lemma fresh_trySummarize reason m : fresh m -> fresh (trySummarize reason m).
Proof.
  intros H. unfold trySummarize. cbv zeta.
  change (this (log [EnterTrySummarize reason] m)) with (this m).
  destruct (summarizing (this m)) as [d|] eqn:E.
  - apply (fresh_same m); auto.
  - set (s1 := set_summarizing _ _).
    set (m1 := {| this := this _ |}).
    destruct (launch_signals s1 (attempts reason s1) m1 (attempts_sameFlags reason s1))
      as (A & B & C).
    destruct H as [H1 H2]. unfold fresh. rewrite A, B, C. simpl. split.
    + intros d Hd. specialize (H1 d Hd). lia.
    + intros d Hd. injection Hd as <-. split; [lia|].
      intros Hin. specialize (H1 _ Hin). lia.
Qed.

Lemma fresh_run m : fresh m -> fresh (run m).
Proof.
  intros H. unfold run.
  set (m1 := with_this _ (log [EnterRun] m)).
  assert (H1 : fresh m1) by (apply (fresh_same m); auto).
  destruct (_ >? _); [apply fresh_trySummarize, H1|].
  destruct (_ >? _); [apply fresh_trySummarize, H1|].
  apply (fresh_same m1); auto.
Qed.

Lemma fresh_finalizer m : fresh m -> fresh (finalizer m).
Proof.
  intros [H1 H2]. unfold finalizer.
  set (m1 := {| this := set_summarizing None (this m) |}).
  assert (F1 : fresh m1).
  { split; [|intros d Hd; discriminate Hd].
    subst m1. simpl. intros d Hd.
    destruct (summarizing (this m)) as [d0|] eqn:E; [|auto].
    destruct Hd as [<-|Hd]; [apply (H2 d0 eq_refl)|auto]. }
  destruct (_ && _); [|exact F1].
  apply fresh_run. apply (fresh_same m1); auto.
Qed.

Lemma fresh_handleOp error op m : fresh m -> fresh (handleOp error op m).
Proof.
  intros H. unfold handleOp. destruct error; [exact H|].
  set (m1 := with_this _ m).
  assert (H1 : fresh m1) by (apply (fresh_same m); auto).
  destruct (MessageType_eqb _ _); [apply fresh_trySummarize|apply fresh_run]; exact H1.
Qed.

Lemma fresh_handleSystemOp op m : fresh m -> fresh (handleSystemOp op m).
Proof.
  intros H. unfold handleSystemOp.
  destruct (Message.type op); try exact H; try (apply fresh_handleOp, H).
  destruct (_ || _); [exact H|apply fresh_handleOp, H].
Qed.

Lemma fresh_waitStop m : fresh m -> fresh (fst (waitStop m)).
Proof.
  intros H. unfold waitStop.
  destruct (_disposed (this m)); [exact H|].
  destruct (stopping (this m)); [exact H|].
  set (m1 := with_this _ m).
  assert (H1 : fresh m1) by (apply (fresh_same m); auto).
  destruct (_ >? _); simpl; [apply fresh_trySummarize|]; exact H1.
Qed.

Lemma fresh_runHandler h m : fresh m -> fresh (runHandler h m).
Proof.
  intros H. destruct h; simpl.
  - apply fresh_trySummarize, H.
  - unfold summarizeTimerHandler. destruct (_ <? _); apply (fresh_same m); auto.
  - apply (fresh_same m); auto.
Qed.

Lemma fresh_fire which m : fresh m -> fresh (fire which m).
Proof.
  intros H. destruct which; simpl.
  - destruct (Timer.runningState _) as [[? h]|]; [|exact H].
    apply fresh_runHandler. apply (fresh_same m); auto.
  - destruct (Timer.runningState _) as [[? h]|]; [|exact H].
    apply fresh_runHandler. apply (fresh_same m); auto.
Qed.

Lemma fresh_settle a m : consistent m -> fresh m -> fresh (settle a m).
Proof.
  intros [_ Hk] H. unfold settle.
  destruct (pending m) as [|w k|]; try exact H.
  destruct (answerFor w a) as [x|]; [|exact H].
  set (m1 := match a with RaceSettled (RaceTimer timeout) => _ | _ => m end).
  assert (H1 : fresh m1).
  { subst m1. destruct a as [?|[?|[]|]]; exact H. }
  destruct (launch_signals (this m1) (k x (this m1)) m1 (Hk x (this m1)))
    as (A & B & C).
  apply (fresh_same m1); assumption.
Qed.

Lemma fresh_step now e m : consistent m -> fresh m -> fresh (step now e m).
Proof.
  intros Hc H. unfold step.
  set (m1 := with_this (set_dateNow now) m).
  assert (C1 : consistent m1) by (apply consistent_with_this; [reflexivity|exact Hc]).
  assert (H1 : fresh m1) by (apply (fresh_same m); auto).
  destruct e.
  - apply fresh_handleOp, H1.
  - apply fresh_handleSystemOp, H1.
  - apply fresh_fire, H1.
  - apply fresh_settle; assumption.
  - destruct (pending m1); [exact H1|exact H1|apply fresh_finalizer, H1].
  - apply fresh_waitStop, H1.
  - apply (fresh_same m1); auto.
Qed.

Lemma reachable_fresh m : reachable m -> fresh m.
Proof.
  induction 1 as [c o cfg l f n r|now e m Hr IH].
  - unfold start. apply fresh_run. unfold waitStart.
    destruct r as [?|[]|]; (split; [intros d []|intros d Hd; discriminate Hd]).
  - apply fresh_step; [apply reachable_consistent, Hr|exact IH].
Qed.

(** The [.finally] callback resolves the signal. *)
Lemma finalizer_resolves now m d :
  pending m = Finalizing -> summarizing (this m) = Some d ->
  In d (resolved (step now FinallyRuns m)).
Proof.
  intros Hp Hs. unfold step.
  change (pending (with_this (set_dateNow now) m)) with (pending m). rewrite Hp.
  unfold finalizer. cbv zeta.
  change (summarizing (this (with_this (set_dateNow now) m)))
    with (summarizing (this m)). rewrite Hs.
  set (m1 := {| this := set_summarizing None _ |}).
  assert (R1 : In d (resolved m1)) by (left; reflexivity).
  assert (keep_try : forall reason mm, In d (resolved mm) ->
            In d (resolved (trySummarize reason mm))).
  { intros reason mm Hin. unfold trySummarize. cbv zeta.
    change (this (log [EnterTrySummarize reason] mm)) with (this mm).
    destruct (summarizing (this mm)); [exact Hin|].
    match goal with |- context [launch ?r ?m2] =>
      destruct (launch_signals _ r m2 (attempts_sameFlags reason _)) as (_ & B & _)
    end. rewrite B. exact Hin. }
  destruct (_ && _); [|exact R1].
  unfold run. cbv zeta.
  destruct (_ >? _); [apply keep_try; exact R1|].
  destruct (_ >? _); [apply keep_try; exact R1|].
  exact R1.
Qed.

Lemma waitStop_awaits m d :
  snd (waitStop m) = Some d -> summarizing (this (fst (waitStop m))) = Some d.
Proof.
  unfold waitStop.
  destruct (_disposed (this m)); [discriminate|].
  destruct (stopping (this m)); [auto|].
  destruct (_ >? _); simpl; [auto|discriminate].
Qed.

(** ** End of life *)

(** C7.  [waitStop] enters [trySummarize("lastSummary")] exactly when the
    summarizer is neither disposed nor already stopping and more than 50 ops
    are outstanding since the last acked summary.  Then an attempt is in
    flight afterwards (the one it started, or the one that was running) and
    the call awaits its [summarizing] signal, which is unresolved.  With 50
    ops or fewer it sets [stopping] and returns without triggering anything;
    a disposed or already stopping summarizer is left as it is. *)
Theorem waitStop_lastSummary m :
  let outstandingOps :=
    Heuristics.lastOpSeqNumber (heuristics (this m))
    - refSequenceNumber (Heuristics.lastAcked (heuristics (this m))) in
  let m' := fst (waitStop m) in
  let awaited := snd (waitStop m) in
  (reachable m -> forall d, awaited = Some d ->
   summarizing (this m') = Some d /\ ~ In d (resolved m'))
  /\ (In "lastSummary" (triggers (since m m'))
      <-> _disposed (this m) = false /\ stopping (this m) = false
          /\ outstandingOps > minOpsForLastSummary)
  /\ (_disposed (this m) = false -> stopping (this m) = false ->
      outstandingOps > minOpsForLastSummary ->
      triggers (since m m') = ["lastSummary"]
      /\ stopping (this m') = true
      /\ (exists d, awaited = Some d /\ summarizing (this m') = Some d)
      /\ (summarizing (this m) = None ->
          startedAttempts (since m m') = [("lastSummary", firstOptions)]))
  /\ (_disposed (this m) = false -> stopping (this m) = false ->
      outstandingOps <= minOpsForLastSummary ->
      m' = with_this (set_stopping true) m /\ awaited = None)
  /\ (_disposed (this m) = true -> m' = m /\ awaited = None)
  /\ (_disposed (this m) = false -> stopping (this m) = true ->
      m' = m /\ awaited = summarizing (this m)).
Proof.
  cbv zeta.
  assert (signal : reachable m -> forall d, snd (waitStop m) = Some d ->
            summarizing (this (fst (waitStop m))) = Some d
            /\ ~ In d (resolved (fst (waitStop m)))).
  { intros Hr d Hd. pose proof (waitStop_awaits m d Hd) as Hs.
    split; [exact Hs|].
    apply (fresh_waitStop m (reachable_fresh m Hr)). exact Hs. }
  split; [exact signal|]. clear signal.
  unfold waitStop. cbv zeta.
  assert (nothing : since m m = []).
  { apply since_app. rewrite app_nil_r. reflexivity. }
  destruct (_disposed (this m)) eqn:Ed.
  { simpl. rewrite nothing. simpl.
    repeat split; try discriminate; try tauto; intros (H & _); discriminate H. }
  destruct (stopping (this m)) eqn:Es.
  { simpl. rewrite nothing. simpl.
    repeat split; try discriminate; try tauto; intros (_ & H & _); discriminate H. }
  set (m1 := with_this (set_stopping true) m).
  change (Heuristics.lastOpSeqNumber (heuristics (this m1)))
    with (Heuristics.lastOpSeqNumber (heuristics (this m))).
  change (Heuristics.lastAcked (heuristics (this m1)))
    with (Heuristics.lastAcked (heuristics (this m))).
  destruct (Z.gtb_spec (Heuristics.lastOpSeqNumber (heuristics (this m))
                        - refSequenceNumber (Heuristics.lastAcked (heuristics (this m))))
              minOpsForLastSummary) as [E|E]; simpl fst; simpl snd.
  - destruct (trySummarize_since "lastSummary" m1) as (A & B & C & d & D).
    destruct (trySummarize_heuristics "lastSummary" m1) as (_ & _ & _ & St & _).
    assert (S0 : since m (trySummarize "lastSummary" m1)
                 = since m1 (trySummarize "lastSummary" m1)) by reflexivity.
    rewrite S0, A.
    split; [split; [intros _; repeat split; lia|intros _; left; reflexivity]|].
    split; [|split; [intros _ _ H; lia|split; [discriminate|discriminate]]].
    intros _ _ _. split; [reflexivity|]. split; [rewrite St; reflexivity|].
    split; [exists d; split; [exact D|exact D]|exact C].
  - assert (S0 : since m m1 = []).
    { apply since_app. rewrite app_nil_r. reflexivity. }
    rewrite S0. simpl.
    split; [split; [intros []|intros (_ & _ & H); lia]|].
    split; [intros _ _ H; lia|]. split; [auto|]. split; discriminate.
Qed.


(** C3, as the code has it.  The ordering
    [lastAcked.refSequenceNumber <= lastAttempted.refSequenceNumber
     <= lastOpSeqNumber] is kept by [ackLastSent] and by [recordAttempt()]
    without an argument; by [recordAttempt(r)] when [r] lies between the
    last acked reference and [lastOpSeqNumber]; by [initialize(a)] when the
    reference of [a] is at most [lastOpSeqNumber]; and by [handleOp] when it
    drops the op or the op's sequence number is at least the last attempted
    reference.  So it holds at every point of an execution that starts
    ordered and in which ops and generated summaries stay within these
    bounds. *)
Theorem ordering_preserved :
  (forall h, Heuristics.ordered h ->
     Heuristics.ordered (Heuristics.ackLastSent h)
     /\ (forall now, Heuristics.ordered (Heuristics.recordAttempt now None h))
     /\ (forall now r,
           refSequenceNumber (Heuristics.lastAcked h) <= r ->
           r <= Heuristics.lastOpSeqNumber h ->
           Heuristics.ordered (Heuristics.recordAttempt now (Some r) h))
     /\ (forall a,
           refSequenceNumber a <= Heuristics.lastOpSeqNumber h ->
           Heuristics.ordered (Heuristics.initialize a h)))
  /\ (forall m error op,
        Heuristics.ordered (heuristics (this m)) ->
        admissible m (BatchEnd error op) ->
        Heuristics.ordered (heuristics (this (handleOp error op m))))
  /\ (forall clientId onBehalfOfClientId configuration lastOpSeqNumber firstAck
        now maybeLastAck es,
        refSequenceNumber firstAck <= lastOpSeqNumber ->
        (forall summaryOp, maybeLastAck = RaceValue summaryOp ->
           Message.referenceSequenceNumber summaryOp <= lastOpSeqNumber) ->
        let m0 := start clientId onBehalfOfClientId configuration lastOpSeqNumber
                    firstAck now maybeLastAck in
        allAdmissible es m0 ->
        Heuristics.ordered (heuristics (this (steps es m0)))).
Proof.
  split; [|split].
  - intros h H. split; [apply ordered_ackLastSent, H|].
    split; [intros now; apply ordered_recordAttempt_none, H|].
    split; [intros now r; apply ordered_recordAttempt_some|].
    intros a. apply ordered_initialize.
  - intros m error op H Ha. unfold handleOp. destruct error; [exact H|].
    set (m1 := with_this _ m).
    assert (H1 : orderedOf (this m1)).
    { apply ordered_set_lastOpSeqNumber; assumption. }
    destruct (MessageType_eqb _ _);
      [apply trySummarize_keepsOrder|apply run_keepsOrder]; exact H1.
  - intros c o cfg l f now r es H1 H2 m0 Ha.
    apply (orderly_steps es m0); [|exact Ha].
    apply orderly_start; assumption.
Qed.

Lemma ordering_preserved_witness :
  Heuristics.ordered
    (heuristics (this (steps Samples.ackedRun
       (start "summarizer" "parent" Samples.config 10 Samples.firstAck 0 RaceUndefined)))).
Proof.
  apply (proj2 (proj2 ordering_preserved)
           "summarizer" "parent" Samples.config 10 Samples.firstAck 0 RaceUndefined
           Samples.ackedRun).
  - simpl. lia.
  - intros summaryOp H. discriminate H.
  - vm_compute. intuition discriminate.
Defined.

(** C3 as stated fails: in this execution the generator reports a reference
    sequence number beyond the last op handed to [handleOp], and
    [recordAttempt] stores it. *)
Lemma ordering_broken :
  reachable (steps Samples.aheadRun Samples.idle)
  /\ Heuristics.ordered (heuristics (this Samples.idle))
  /\ ~ Heuristics.ordered
         (heuristics (this (steps Samples.aheadRun Samples.idle)))
  /\ ~ Heuristics.ordered
         (Heuristics.recordAttempt 110 (Some 3) (heuristics (this Samples.idle))).
Proof.
  split; [apply reachable_steps; constructor|].
  split; [vm_compute; intuition discriminate|].
  split; vm_compute; intros [_ H]; apply H; reflexivity.
Qed.


(** ** Sample executions *)

Lemma notFinally_ackedRun : Forall notFinally Samples.ackedRun.
Proof. repeat constructor; discriminate. Defined.

Lemma notFinally_failingRun : Forall notFinally Samples.failingRun.
Proof. repeat constructor; discriminate. Defined.

Lemma reachable_idle : reachable Samples.idle.
Proof. constructor. Defined.

Lemma reachable_inFlight : reachable Samples.inFlight.
Proof. constructor. exact reachable_idle. Defined.

(** Three failed attempts: the escalation ran to its end and called
    [stop("failToSummarize")]. *)
Lemma trySummarize_escalation_witness :
  match pending (steps Samples.failingRun (trySummarize "idle" Samples.idle)) with
  | Awaiting _ _ =>
      triggerInProgress "idle"
        (since Samples.idle
           (steps Samples.failingRun (trySummarize "idle" Samples.idle)))
  | Finalizing =>
      triggerCompleted "idle"
        (since Samples.idle
           (steps Samples.failingRun (trySummarize "idle" Samples.idle)))
  | Idle => False
  end.
Proof.
  apply (trySummarize_escalation Samples.idle "idle" Samples.failingRun).
  - exact reachable_idle.
  - reflexivity.
  - exact notFinally_failingRun.
Defined.

(** Two triggers during one attempt: one follow-up [run()]. *)
Lemma trySummarize_coalesces_witness :
  runCalls (since (steps Samples.ackedRun Samples.inFlight)
              (step 160 FinallyRuns (steps Samples.ackedRun Samples.inFlight)))
  = if (tryWhileSummarizing (this Samples.inFlight)
        || triggered (since Samples.inFlight (steps Samples.ackedRun Samples.inFlight)))
       && negb (stopping (this (steps Samples.ackedRun Samples.inFlight)))
       && negb (_disposed (this (steps Samples.ackedRun Samples.inFlight)))
    then 1%nat else 0%nat.
Proof.
  apply (trySummarize_coalesces Samples.inFlight 0%nat Samples.ackedRun 160).
  - exact reachable_inFlight.
  - reflexivity.
  - exact notFinally_ackedRun.
  - reflexivity.
Defined.

Lemma run_decides_witness :
  since Samples.idle (run Samples.idle) = [EnterRun]
  /\ Timer.runningState (Heuristics.idleTimer (heuristics (this (run Samples.idle))))
     = Some (100, TrySummarizeIdle).
Proof.
  apply (run_decides Samples.idle).
  - split; reflexivity.
  - simpl. lia.
  - simpl. lia.
Defined.

Lemma summarize_records_attempt_witness :
  exists s0 out0,
    drive (summarize "idle" firstOptions (this Samples.idle)) []
    = StillWaiting (AwGenerateSummary firstOptions) s0 out0
    /\ dateNow s0 = dateNow (this Samples.idle)
    /\ (exists s' out,
          (drive (summarize "idle" firstOptions (this Samples.idle))
             [Samples.turn (GenerateSettled (Rejected "offline"))]
           = Finished false s' out []
           \/ exists csn,
                drive (summarize "idle" firstOptions (this Samples.idle))
                  [Samples.turn (GenerateSettled (Rejected "offline"))]
                = StillWaiting (AwBroadcast csn) s' out)
          /\ Heuristics.lastAttempted (heuristics s')
             = {| refSequenceNumber :=
                    Heuristics.lastOpSeqNumber (heuristics (this Samples.idle));
                  summaryTime := dateNow (this Samples.idle);
                  summarySequenceNumber := None |}).
Proof.
  destruct (summarize_records_attempt "idle" firstOptions (this Samples.idle)
              (Samples.turn (GenerateSettled (Rejected "offline")))
              (Rejected "offline") eq_refl)
    as (s0 & out0 & A & B & C & _).
  exists s0, out0. split; [exact A|]. split; [exact B|].
  injection A as <- _. exact C.
Defined.


Lemma reachable_lagging : reachable Samples.lagging.
Proof. constructor. constructor. Defined.

(** 51 outstanding ops: [waitStop] starts a last attempt and waits for it. *)
Lemma waitStop_lastSummary_witness :
  triggers (since Samples.lagging (fst (waitStop Samples.lagging))) = ["lastSummary"]
  /\ stopping (this (fst (waitStop Samples.lagging))) = true
  /\ (exists d, snd (waitStop Samples.lagging) = Some d
                /\ summarizing (this (fst (waitStop Samples.lagging))) = Some d)
  /\ (summarizing (this Samples.lagging) = None ->
      startedAttempts (since Samples.lagging (fst (waitStop Samples.lagging)))
      = [("lastSummary", firstOptions)]).
Proof.
  apply (waitStop_lastSummary Samples.lagging).
  - reflexivity.
  - reflexivity.
  - vm_compute. reflexivity.
Defined.

(** A Save op on an idle summarizer starts an attempt at once. *)
Lemma handleOp_receives_witness :
  handleOp None (Samples.op Save 7) Samples.idle
  = trySummarize "save;client: contents"
      (with_this (fun s =>
         set_heuristics (Heuristics.set_lastOpSeqNumber 7 (heuristics s)) s)
         Samples.idle)
  /\ triggers (since Samples.idle (handleOp None (Samples.op Save 7) Samples.idle))
     = ["save;client: contents"]
  /\ runCalls (since Samples.idle (handleOp None (Samples.op Save 7) Samples.idle))
     = 0%nat
  /\ (summarizing (this Samples.idle) = None ->
      since Samples.idle (handleOp None (Samples.op Save 7) Samples.idle)
      = [EnterTrySummarize "save;client: contents";
         SummarizeStart "save;client: contents" firstOptions;
         GenerateSummary firstOptions]).
Proof.
  apply (handleOp_receives Samples.idle (Samples.op Save 7)). reflexivity.
Defined.


(** *** The escalation ends *)

(** One attempt takes at most three settlements. *)
Lemma summarize_consumes reason o s turns :
  match drive (summarize reason o s) turns with
  | Finished _ _ _ rest => (length turns <= length rest + 3)%nat
  | StillWaiting _ _ _ => (length turns < 3)%nat
  | Mismatch => True
  end.
Proof.
  unfold summarize.
  destruct turns as [|t1 turns]; cbn; [lia|].
  destruct (answer t1) as [[d|e]|r]; cbn; [| lia | exact I].
  destruct (GenerateSummaryData.submitted d); cbn; [|lia].
  destruct turns as [|t2 turns]; cbn; [lia|].
  destruct (answer t2) as [?|[op|?|]]; cbn; try lia; try exact I.
  destruct turns as [|t3 turns]; cbn; [lia|].
  destruct (answer t3) as [?|[an|?|]]; cbn; try lia; try exact I.
  destruct (MessageType_eqb (Message.type an) SummaryAck); cbn; lia.
Qed.

(** X10.  The async function of a trigger has returned after nine
    settlements at the latest, whatever the promises settle to and whatever
    happens to the summarizer in between. *)
Lemma attempts_returns reason s turns :
  (9 <= length turns)%nat ->
  match drive (attempts reason s) turns with
  | StillWaiting _ _ _ => False
  | _ => True
  end.
Proof.
  intros Hlen. unfold attempts. rewrite drive_bind.
  pose proof (summarize_consumes reason
                {| refreshLatestAck := false; fullTree := false |} s turns) as C1.
  destruct (drive (summarize reason _ s) turns) as [b1 s1 o1 r1|? ? ?|];
    [|lia|exact I].
  destruct b1; [exact I|].
  rewrite drive_bind.
  pose proof (summarize_consumes "retry1"
                {| refreshLatestAck := true; fullTree := false |} s1 r1) as C2.
  destruct (drive (summarize "retry1" _ s1) r1) as [b2 s2 o2 r2|? ? ?|];
    [|lia|exact I].
  destruct b2; [exact I|].
  rewrite drive_bind.
  pose proof (summarize_consumes "retry2"
                {| refreshLatestAck := true; fullTree := true |} s2 r2) as C3.
  destruct (drive (summarize "retry2" _ s2) r2) as [b3 s3 o3 r3|? ? ?|];
    [|lia|exact I].
  destruct b3; exact I.
Qed.

(** ** The life of the summarizer *)

(** *** [stopping] and [_disposed] *)

Lemma flags_trySummarize reason m :
  stopping (this (trySummarize reason m)) = stopping (this m)
  /\ _disposed (this (trySummarize reason m)) = _disposed (this m).
Proof. destruct (trySummarize_heuristics reason m) as (_ & _ & _ & A & B). auto. Qed.

Ltac flags_by_trigger :=
  match goal with
  | |- context [trySummarize ?r ?m2] =>
      let A := fresh in let B := fresh in
      destruct (flags_trySummarize r m2) as [A B]; rewrite A, B; split; reflexivity
  end.

Lemma flags_run m :
  stopping (this (run m)) = stopping (this m)
  /\ _disposed (this (run m)) = _disposed (this m).
Proof.
  unfold run. cbv zeta.
  destruct (_ >? _); [flags_by_trigger|].
  destruct (_ >? _); [flags_by_trigger|].
  split; reflexivity.
Qed.

Lemma flags_finalizer m :
  stopping (this (finalizer m)) = stopping (this m)
  /\ _disposed (this (finalizer m)) = _disposed (this m).
Proof.
  unfold finalizer. cbv zeta. destruct (_ && _); [|split; reflexivity].
  match goal with |- context [run ?m2] => destruct (flags_run m2) as [A B] end.
  rewrite A, B. split; reflexivity.
Qed.

Lemma flags_handleOp error op m :
  stopping (this (handleOp error op m)) = stopping (this m)
  /\ _disposed (this (handleOp error op m)) = _disposed (this m).
Proof.
  unfold handleOp. destruct error; [split; reflexivity|].
  destruct (MessageType_eqb _ _).
  - flags_by_trigger.
  - match goal with |- context [run ?m2] => destruct (flags_run m2) as [A B] end.
    rewrite A, B. split; reflexivity.
Qed.

Lemma flags_handleSystemOp op m :
  stopping (this (handleSystemOp op m)) = stopping (this m)
  /\ _disposed (this (handleSystemOp op m)) = _disposed (this m).
Proof.
  unfold handleSystemOp.
  destruct (Message.type op); try (split; reflexivity); try apply flags_handleOp.
  destruct (_ || _); [split; reflexivity|apply flags_handleOp].
Qed.

Lemma flags_runHandler h m :
  stopping (this (runHandler h m)) = stopping (this m)
  /\ _disposed (this (runHandler h m)) = _disposed (this m).
Proof.
  destruct h; simpl.
  - flags_by_trigger.
  - unfold summarizeTimerHandler. destruct (_ <? _); split; reflexivity.
  - split; reflexivity.
Qed.

Lemma flags_fire which m :
  stopping (this (fire which m)) = stopping (this m)
  /\ _disposed (this (fire which m)) = _disposed (this m).
Proof.
  destruct which; simpl.
  - destruct (Timer.runningState _) as [[? h]|]; [|split; reflexivity].
    match goal with |- context [runHandler h ?m2] =>
      destruct (flags_runHandler h m2) as [A B] end.
    rewrite A, B. split; reflexivity.
  - destruct (Timer.runningState _) as [[? h]|]; [|split; reflexivity].
    match goal with |- context [runHandler h ?m2] =>
      destruct (flags_runHandler h m2) as [A B] end.
    rewrite A, B. split; reflexivity.
Qed.

Lemma flags_settle a m :
  consistent m ->
  stopping (this (settle a m)) = stopping (this m)
  /\ _disposed (this (settle a m)) = _disposed (this m).
Proof.
  intros [_ Hk]. unfold settle.
  destruct (pending m) as [|w k|]; try (split; reflexivity).
  destruct (answerFor w a) as [x|]; [|split; reflexivity].
  set (m1 := match a with RaceSettled (RaceTimer timeout) => _ | _ => m end).
  assert (H1 : stopping (this m1) = stopping (this m)
               /\ _disposed (this m1) = _disposed (this m)).
  { subst m1. destruct a as [?|[?|[]|]]; split; reflexivity. }
  destruct (launch_trace (this m1) (k x (this m1)) m1 (Hk x (this m1)))
    as ((_ & _ & A & B & _) & _).
  destruct H1 as [C D]. rewrite A, B, C, D. split; reflexivity.
Qed.

Lemma flags_step now e m :
  consistent m ->
  stopping (this (step now e m))
  = stopping (this m)
    || match e with WaitStop => negb (_disposed (this m)) | _ => false end
  /\ _disposed (this (step now e m))
     = _disposed (this m) || match e with Dispose => true | _ => false end.
Proof.
  intros Hc. unfold step.
  set (m1 := with_this (set_dateNow now) m).
  assert (C1 : consistent m1).
  { apply consistent_with_this; [reflexivity|exact Hc]. }
  change (stopping (this m)) with (stopping (this m1)).
  change (_disposed (this m)) with (_disposed (this m1)).
  destruct e.
  - rewrite !orb_false_r. apply flags_handleOp.
  - rewrite !orb_false_r. apply flags_handleSystemOp.
  - rewrite !orb_false_r. apply flags_fire.
  - rewrite !orb_false_r. apply flags_settle, C1.
  - rewrite !orb_false_r. destruct (pending m1); try (split; reflexivity).
    apply flags_finalizer.
  - rewrite orb_false_r. unfold waitStop.
    destruct (_disposed (this m1)) eqn:Ed; cbn [fst snd];
      [rewrite ?Ed, ?orb_false_r; split; reflexivity|].
    destruct (stopping (this m1)) eqn:Es; cbn [fst snd];
      [rewrite ?Ed, ?Es; split; reflexivity|].
    destruct (_ >? _); cbn [fst snd].
    + match goal with |- context [trySummarize ?r ?m2] =>
        destruct (flags_trySummarize r m2) as [A B] end.
      rewrite A, B. split; [reflexivity|exact Ed].
    + split; [reflexivity|exact Ed].
  - simpl. rewrite orb_true_r, orb_false_r. split; reflexivity.
Qed.


(** X4.  [stopping] and [_disposed] only rise: a turn of the event loop sets
    [stopping] exactly when it is [waitStop] on a summarizer that is not
    disposed, it sets [_disposed] exactly when it is [dispose], and no turn
    resets either of them. *)
Theorem flags_only_rise now e m :
  reachable m ->
  stopping (this (step now e m))
  = stopping (this m)
    || match e with WaitStop => negb (_disposed (this m)) | _ => false end
  /\ _disposed (this (step now e m))
     = _disposed (this m) || match e with Dispose => true | _ => false end.
Proof. intros H. apply flags_step, reachable_consistent, H. Qed.

Lemma flags_only_rise_witness :
  stopping (this (step 20 WaitStop Samples.inFlight)) = true
  /\ _disposed (this (step 20 WaitStop Samples.inFlight)) = false.
Proof.
  apply (flags_only_rise 20 WaitStop Samples.inFlight). apply reachable_inFlight.
Defined.

Lemma since_self m : since m m = [].
Proof. unfold since. apply drop_all. Qed.

(** X5.  Once the summarizer is stopping or disposed it stays so, and the
    [.finally] callback of a trigger does no more than clear [summarizing]:
    it never runs the heuristics again, whatever triggers arrived during the
    attempt. *)
Theorem stopped_never_follows_up m es now :
  reachable m ->
  stopping (this m) = true \/ _disposed (this m) = true ->
  let m' := steps es m in
  (stopping (this m') = true \/ _disposed (this m') = true)
  /\ since m' (step now FinallyRuns m') = [].
Proof.
  intros Hr H0. cbv zeta.
  assert (P : stopping (this (steps es m)) = true
              \/ _disposed (this (steps es m)) = true).
  { induction es as [|e es IH] using rev_ind; [exact H0|].
    rewrite steps_snoc.
    destruct (flags_step (fst e) (snd e) (steps es m)
                (reachable_consistent _ (reachable_steps es m Hr))) as [A B].
    rewrite A, B. destruct IH as [-> | ->]; [left|right]; reflexivity. }
  split; [exact P|].
  set (m' := steps es m) in *. unfold step.
  change (pending (with_this (set_dateNow now) m')) with (pending m').
  destruct (pending m'); try (apply since_app; symmetry; apply app_nil_r).
  unfold finalizer. cbv zeta. simpl.
  replace (tryWhileSummarizing (this m') && negb (stopping (this m'))
           && negb (_disposed (this m'))) with false.
  - apply since_app. simpl. symmetry. apply app_nil_r.
  - destruct P as [-> | ->]; simpl;
      rewrite ?andb_false_r; reflexivity.
Qed.

Lemma hasTimer_false tm : Timer.hasTimer tm = false -> Timer.runningState tm = None.
Proof. unfold Timer.hasTimer. destruct (Timer.runningState tm); [discriminate|reflexivity]. Qed.

(** A disposed summarizer with its timers off and nothing suspended. *)
Lemma disposed_step now e m :
  _disposed (this m) = true -> timersOff (this m) -> settledDown m ->
  deliversOp e = false ->
  let m' := step now e m in
  _disposed (this m') = true /\ timersOff (this m') /\ settledDown m'
  /\ trace m' = trace m ++ disposeEffects [(now, e)].
Proof.
  intros D (T1 & T2 & T3) S He. cbv zeta.
  pose proof (hasTimer_false _ T1) as R1. pose proof (hasTimer_false _ T2) as R2.
  assert (same : _disposed (this (with_this (set_dateNow now) m)) = true
                 /\ timersOff (this (with_this (set_dateNow now) m))
                 /\ settledDown (with_this (set_dateNow now) m)
                 /\ trace (with_this (set_dateNow now) m)
                    = trace m ++ []).
  { split; [exact D|]. split; [split; [exact T1|split; [exact T2|exact T3]]|].
    split; [exact S|]. symmetry. apply app_nil_r. }
  destruct e as [error op|op|which|a| | |]; try discriminate He; unfold step.
  - (* a timer runs out *)
    destruct which; unfold fire; simpl.
    + rewrite R1. exact same.
    + rewrite R2. exact same.
  - (* a promise settles *)
    unfold settle. unfold settledDown in S.
    change (pending (with_this (set_dateNow now) m)) with (pending m).
    destruct (pending m); [exact same|contradiction|exact same].
  - (* the finally callback *)
    change (pending (with_this (set_dateNow now) m)) with (pending m).
    unfold settledDown in S.
    destruct (pending m) eqn:Ep; [exact same|contradiction|].
    unfold finalizer. cbv zeta. simpl. rewrite D, andb_false_r.
    split; [exact D|]. split; [split; [exact T1|split; [exact T2|exact T3]]|].
    split; [exact I|]. symmetry. apply app_nil_r.
  - (* waitStop *)
    unfold waitStop. simpl. rewrite D. exact same.
  - (* dispose *)
    unfold dispose. simpl.
    split; [reflexivity|]. split; [|split; [exact S|reflexivity]].
    split; [reflexivity|]. split; reflexivity.
Qed.

Lemma disposed_steps es m :
  _disposed (this m) = true -> timersOff (this m) -> settledDown m ->
  Forall (fun e => deliversOp (snd e) = false) es ->
  let m' := steps es m in
  _disposed (this m') = true /\ timersOff (this m') /\ settledDown m'
  /\ trace m' = trace m ++ disposeEffects es.
Proof.
  cbv zeta. revert m. induction es as [|[now e] es IH]; intros m D T S He.
  - simpl. rewrite app_nil_r. auto.
  - apply Forall_cons in He as [He Hes]. simpl in He.
    destruct (disposed_step now e m D T S He) as (D1 & T1 & S1 & E1).
    destruct (IH (step now e m) D1 T1 S1 Hes) as (D2 & T2 & S2 & E2).
    change (steps ((now, e) :: es) m) with (steps es (step now e m)).
    split; [exact D2|]. split; [exact T2|]. split; [exact S2|].
    rewrite E2, E1, <- app_assoc. f_equal.
    unfold disposeEffects. simpl. destruct e; reflexivity.
Qed.

(** X6.  [dispose] disposes the watcher, sets [_disposed] and cancels the
    idle timer, the summarize timer and the pending-ack timer: none of the
    three is armed afterwards, so the idle or the summarize timer running
    out then does nothing.  It leaves an attempt in flight and its signal
    as they are.  On a disposed summarizer [waitStop] returns at once, and a
    second [dispose] changes no field.  When no async function of a trigger
    is suspended at the time of [dispose], the summarizer stays that way
    for as long as no op is delivered to it (the facade removes its
    listeners when it disposes): whatever timers run out, promises settle,
    [.finally] callbacks run or calls of [waitStop] and [dispose] follow,
    it remains disposed with none of the three timers armed and nothing
    suspended, and it does nothing but dispose the watcher again at each
    further [dispose]. *)
Theorem dispose_clears_timers m :
  let m' := dispose m in
  _disposed (this m') = true
  /\ pending m' = pending m
  /\ summarizing (this m') = summarizing (this m)
  /\ since m m' = [WatcherDispose]
  /\ (forall which, fire which m' = m')
  /\ waitStop m' = (m', None)
  /\ this (dispose m') = this m'
  /\ timersOff (this m')
  /\ (forall es,
        settledDown m ->
        Forall (fun e => deliversOp (snd e) = false) es ->
        let m'' := steps es m' in
        _disposed (this m'') = true
        /\ timersOff (this m'')
        /\ settledDown m''
        /\ since m' m'' = disposeEffects es).
Proof.
  cbv zeta. split; [reflexivity|]. split; [reflexivity|]. split; [reflexivity|].
  split; [apply since_app; reflexivity|].
  split; [intros []; reflexivity|]. split; [reflexivity|]. split; [reflexivity|].
  assert (T : timersOff (this (dispose m))).
  { split; [reflexivity|]. split; reflexivity. }
  split; [exact T|].
  intros es S He.
  destruct (disposed_steps es (dispose m) eq_refl T S He) as (D2 & T2 & S2 & E2).
  split; [exact D2|]. split; [exact T2|]. split; [exact S2|].
  apply since_app. exact E2.
Qed.

(** [Samples.idle], with its idle timer armed, is disposed; the idle timer
    and the pending-ack timer then run out, and [waitStop] and a second
    [dispose] follow. *)
Lemma dispose_clears_timers_witness :
  let m' := dispose Samples.idle in
  let m'' := steps [ (200, TimerFires IdleTimer);
                     (210, Settles (RaceSettled (RaceTimer timeout)));
                     (220, WaitStop);
                     (230, Dispose) ] m' in
  Timer.hasTimer (Heuristics.idleTimer (heuristics (this Samples.idle))) = true
  /\ timersOff (this m')
  /\ _disposed (this m'') = true
  /\ timersOff (this m'')
  /\ settledDown m''
  /\ since m' m'' = [WatcherDispose].
Proof.
  cbv zeta.
  destruct (dispose_clears_timers Samples.idle) as (_ & _ & _ & _ & _ & _ & _ & T & H).
  split; [reflexivity|]. split; [exact T|].
  apply H.
  - exact I.
  - repeat (apply List.Forall_cons; [reflexivity|]). apply List.Forall_nil.
Defined.

(** *** Who resolves the [summarizing] signal *)

Lemma resolved_trySummarize reason m :
  resolved (trySummarize reason m) = resolved m.
Proof.
  unfold trySummarize. cbv zeta.
  change (this (log [EnterTrySummarize reason] m)) with (this m).
  destruct (summarizing (this m)) as [d|]; [reflexivity|].
  match goal with |- context [launch ?r ?m2] =>
    destruct (launch_signals _ r m2 (attempts_sameFlags reason _)) as (_ & B & _)
  end.
  rewrite B. reflexivity.
Qed.

Lemma resolved_run m : resolved (run m) = resolved m.
Proof.
  unfold run. cbv zeta.
  destruct (_ >? _); [rewrite resolved_trySummarize; reflexivity|].
  destruct (_ >? _); [rewrite resolved_trySummarize; reflexivity|].
  reflexivity.
Qed.

Lemma resolved_handleOp error op m : resolved (handleOp error op m) = resolved m.
Proof.
  unfold handleOp. destruct error; [reflexivity|].
  destruct (MessageType_eqb _ _);
    [rewrite resolved_trySummarize|rewrite resolved_run]; reflexivity.
Qed.

Lemma resolved_handleSystemOp op m : resolved (handleSystemOp op m) = resolved m.
Proof.
  unfold handleSystemOp.
  destruct (Message.type op); try reflexivity; try apply resolved_handleOp.
  destruct (_ || _); [reflexivity|apply resolved_handleOp].
Qed.

Lemma resolved_waitStop m : resolved (fst (waitStop m)) = resolved m.
Proof.
  unfold waitStop.
  destruct (_disposed (this m)); [reflexivity|].
  destruct (stopping (this m)); [reflexivity|].
  destruct (_ >? _); cbn [fst]; [rewrite resolved_trySummarize|]; reflexivity.
Qed.

Lemma resolved_runHandler h m : resolved (runHandler h m) = resolved m.
Proof.
  destruct h; simpl.
  - apply resolved_trySummarize.
  - unfold summarizeTimerHandler. destruct (_ <? _); reflexivity.
  - reflexivity.
Qed.

Lemma resolved_fire which m : resolved (fire which m) = resolved m.
Proof.
  destruct which; simpl;
    (destruct (Timer.runningState _) as [[? h]|]; [|reflexivity]);
    rewrite resolved_runHandler; reflexivity.
Qed.

Lemma resolved_settle a m : consistent m -> resolved (settle a m) = resolved m.
Proof.
  intros [_ Hk]. unfold settle.
  destruct (pending m) as [|w k|]; try reflexivity.
  destruct (answerFor w a) as [x|]; [|reflexivity].
  set (m1 := match a with RaceSettled (RaceTimer timeout) => _ | _ => m end).
  assert (H1 : resolved m1 = resolved m).
  { subst m1. destruct a as [?|[?|[]|]]; reflexivity. }
  destruct (launch_signals (this m1) (k x (this m1)) m1 (Hk x (this m1)))
    as (_ & B & _).
  rewrite B. exact H1.
Qed.

Lemma resolved_finalizer m :
  resolved (finalizer m)
  = match summarizing (this m) with
    | Some d => d :: resolved m
    | None => resolved m
    end.
Proof.
  unfold finalizer. cbv zeta. destruct (_ && _); [|reflexivity].
  rewrite resolved_run. reflexivity.
Qed.

(** X7.  The [summarizing] signal is resolved by the [.finally] callback of
    its trigger and by nothing else: a turn of the event loop resolves a
    signal exactly when it runs that callback, and the signal held in
    [summarizing] is unresolved until then. *)
Theorem signal_resolved_by_finally now e m :
  reachable m ->
  resolved (step now e m)
  = match e, pending m, summarizing (this m) with
    | FinallyRuns, Finalizing, Some d => d :: resolved m
    | _, _, _ => resolved m
    end
  /\ forall d, summarizing (this m) = Some d -> ~ In d (resolved m).
Proof.
  intros Hr. split; [|intros d Hd; apply (reachable_fresh m Hr), Hd].
  pose proof (reachable_consistent m Hr) as Hc. unfold step.
  set (m1 := with_this (set_dateNow now) m).
  assert (C1 : consistent m1).
  { apply consistent_with_this; [reflexivity|exact Hc]. }
  change (resolved m) with (resolved m1).
  change (pending m) with (pending m1).
  change (summarizing (this m)) with (summarizing (this m1)).
  destruct e.
  - apply resolved_handleOp.
  - apply resolved_handleSystemOp.
  - apply resolved_fire.
  - apply resolved_settle, C1.
  - destruct (pending m1) eqn:Ep; [reflexivity|reflexivity|].
    rewrite resolved_finalizer.
    destruct (summarizing (this m1)) eqn:Es; [reflexivity|].
    destruct C1 as [[_ Hi] _]. rewrite (Hi Es) in Ep. discriminate Ep.
  - apply resolved_waitStop.
  - reflexivity.
Qed.

Lemma run_since m :
  runCalls (since m (run m)) = 1%nat
  /\ forall reason, In reason (triggers (since m (run m))) ->
       reason = "maxTime" \/ reason = "maxOps".
Proof.
  unfold run. cbv zeta.
  set (m1 := with_this _ (log [EnterRun] m)).
  assert (by_trigger : forall reason,
    runCalls (since m (trySummarize reason m1)) = 1%nat
    /\ triggers (since m (trySummarize reason m1)) = [reason]).
  { intros reason. destruct (trySummarize_trace reason m1) as (delta & T & Q1 & Q2).
    assert (T' : trace (trySummarize reason m1)
                 = trace m ++ EnterRun :: EnterTrySummarize reason :: delta).
    { rewrite T. simpl. rewrite <- app_assoc. reflexivity. }
    rewrite (since_app _ _ _ T').
    change (triggers (EnterRun :: EnterTrySummarize reason :: delta))
      with (reason :: triggers delta).
    change (runCalls (EnterRun :: EnterTrySummarize reason :: delta))
      with (S (runCalls delta)).
    rewrite Q1, Q2. auto. }
  destruct (_ >? _).
  { destruct (by_trigger "maxTime") as [A B]. rewrite A, B.
    split; [reflexivity|]. intros reason [<-|[]]. auto. }
  destruct (_ >? _).
  { destruct (by_trigger "maxOps") as [A B]. rewrite A, B.
    split; [reflexivity|]. intros reason [<-|[]]. auto. }
  assert (T : trace (with_this (fun s =>
                set_heuristics (Heuristics.restartIdleTimer (heuristics s)) s) m1)
              = trace m ++ [EnterRun]) by reflexivity.
  rewrite (since_app _ _ _ T). split; [reflexivity|]. intros reason [].
Qed.

(** X8.  [handleSystemOp] counts joins, proposals, rejections, and the leave
    of a client other than the summarizer's own and the one it runs on
    behalf of: for these it records the op's sequence number and runs the
    heuristics once, which can trigger ["maxTime"] or ["maxOps"] only.  The
    leave of the summarizer's client or of its parent, and ops of any other
    type, change nothing. *)
Theorem handleSystemOp_filters op m :
  let counted :=
    match Message.type op with
    | ClientJoin | Propose | Reject => true
    | ClientLeave =>
        negb (String.eqb (Message.data op) (clientId (this m)))
        && negb (String.eqb (Message.data op) (onBehalfOfClientId (this m)))
    | _ => false
    end in
  handleSystemOp op m
  = (if counted then
       run (with_this (fun s =>
              set_heuristics
                (Heuristics.set_lastOpSeqNumber (Message.sequenceNumber op)
                   (heuristics s)) s) m)
     else m)
  /\ runCalls (since m (handleSystemOp op m)) = (if counted then 1 else 0)%nat
  /\ forall reason, In reason (triggers (since m (handleSystemOp op m))) ->
       reason = "maxTime" \/ reason = "maxOps".
Proof.
  cbv zeta.
  assert (E : handleSystemOp op m
              = if match Message.type op with
                   | ClientJoin | Propose | Reject => true
                   | ClientLeave =>
                       negb (String.eqb (Message.data op) (clientId (this m)))
                       && negb (String.eqb (Message.data op)
                                  (onBehalfOfClientId (this m)))
                   | _ => false
                   end
                then run (with_this (fun s =>
                            set_heuristics
                              (Heuristics.set_lastOpSeqNumber (Message.sequenceNumber op)
                                 (heuristics s)) s) m)
                else m).
  { unfold handleSystemOp, handleOp.
    destruct (Message.type op); try reflexivity.
    destruct (String.eqb (Message.data op) (clientId (this m))); simpl; [reflexivity|].
    destruct (String.eqb (Message.data op) (onBehalfOfClientId (this m))); reflexivity. }
  split; [exact E|]. rewrite E.
  destruct (match Message.type op with
            | ClientJoin | Propose | Reject => true
            | ClientLeave => _
            | _ => false
            end).
  - match goal with |- context [run ?m1] =>
      change (since m (run m1)) with (since m1 (run m1));
      apply (run_since m1)
    end.
  - rewrite (since_app m m []) by (symmetry; apply app_nil_r).
    split; [reflexivity|]. intros reason [].
Qed.

(** ** Starting *)

Lemma run_decision m :
  quiet (trace m) ->
  runCalls (trace (run m)) = 1%nat
  /\ triggers (trace (run m))
     = if dateNow (this m) - summaryTime (Heuristics.lastAcked (heuristics (this m)))
          >? maxTime (Heuristics.configuration (heuristics (this m)))
       then ["maxTime"]
       else if Heuristics.lastOpSeqNumber (heuristics (this m))
               - refSequenceNumber (Heuristics.lastAcked (heuristics (this m)))
               >? maxOps (Heuristics.configuration (heuristics (this m)))
            then ["maxOps"] else [].
Proof.
  intros [Q1 Q2]. unfold run. cbv zeta.
  set (m1 := with_this _ (log [EnterRun] m)).
  assert (T1 : trace m1 = trace m ++ [EnterRun]) by reflexivity.
  change (heuristics (this m1)) with (Heuristics.clearIdleTimer (heuristics (this m))).
  change (dateNow (this m1)) with (dateNow (this m)).
  change (Heuristics.lastAcked (Heuristics.clearIdleTimer (heuristics (this m))))
    with (Heuristics.lastAcked (heuristics (this m))).
  change (Heuristics.lastOpSeqNumber (Heuristics.clearIdleTimer (heuristics (this m))))
    with (Heuristics.lastOpSeqNumber (heuristics (this m))).
  change (Heuristics.configuration (Heuristics.clearIdleTimer (heuristics (this m))))
    with (Heuristics.configuration (heuristics (this m))).
  assert (by_trigger : forall reason,
    runCalls (trace (trySummarize reason m1)) = 1%nat
    /\ triggers (trace (trySummarize reason m1)) = [reason]).
  { intros reason. destruct (trySummarize_trace reason m1) as (delta & T & Q3 & Q4).
    rewrite T, T1, <- app_assoc, runCalls_app, triggers_app, Q1, Q2. simpl.
    change (runCalls (EnterRun :: EnterTrySummarize reason :: delta))
      with (S (runCalls delta)).
    change (triggers (EnterRun :: EnterTrySummarize reason :: delta))
      with (reason :: triggers delta).
    rewrite Q3, Q4. auto. }
  destruct (_ >? _); [apply by_trigger|].
  destruct (_ >? _); [apply by_trigger|].
  change (trace (with_this _ m1)) with (trace m1).
  rewrite T1, runCalls_app, triggers_app, Q1, Q2. auto.
Qed.

(** X9.  [start]: when the watcher's flush wins the race in [waitStart], the
    last acked and the last attempted summary are both set from the summary
    op it yields; otherwise both stay [firstAck], and when the timer ran out
    [SummaryAckWaitTimeout] is raised.  Either way the pending-ack timer is
    cleared and the heuristics run once, deciding by the summary so
    installed. *)
Theorem start_initializes clientId onBehalfOfClientId configuration lastOpSeqNumber
    firstAck now maybeLastAck :
  let m0 := waitStart maybeLastAck
              (new clientId onBehalfOfClientId configuration lastOpSeqNumber
                 firstAck now) in
  let m := start clientId onBehalfOfClientId configuration lastOpSeqNumber
             firstAck now maybeLastAck in
  let lastSummary :=
    match maybeLastAck with
    | RaceValue summaryOp =>
        {| refSequenceNumber := Message.referenceSequenceNumber summaryOp;
           summaryTime := Message.timestamp summaryOp;
           summarySequenceNumber := Some (Message.sequenceNumber summaryOp) |}
    | _ => firstAck
    end in
  Heuristics.lastAcked (heuristics (this m0)) = lastSummary
  /\ Heuristics.lastAttempted (heuristics (this m0)) = lastSummary
  /\ Heuristics.lastOpSeqNumber (heuristics (this m0)) = lastOpSeqNumber
  /\ Timer.runningState (pendingAckTimer (this m0)) = None
  /\ raised (trace m0)
     = match maybeLastAck with
       | RaceTimer timeout => ["SummaryAckWaitTimeout"]
       | _ => []
       end
  /\ m = run m0
  /\ runCalls (trace m) = 1%nat
  /\ triggers (trace m)
     = if now - summaryTime lastSummary >? maxTime configuration then ["maxTime"]
       else if lastOpSeqNumber - refSequenceNumber lastSummary >? maxOps configuration
            then ["maxOps"] else [].
Proof.
  cbv zeta. unfold start.
  destruct maybeLastAck as [summaryOp|[]|];
    (do 6 (split; [reflexivity|]));
    match goal with |- context [run ?m0] =>
      apply (run_decision m0); split; reflexivity
    end.
Qed.

(** ** The summarize timer *)

Lemma timeouts_app o1 o2 : timeouts (o1 ++ o2) = (timeouts o1 + timeouts o2)%nat.
Proof. unfold timeouts. rewrite omap_app, length_app. reflexivity. Qed.

Lemma fires_state time k m :
  Timer.runningState (summarizeTimer (this m))
  = Some (time, SummarizeTimerHandler time 1) ->
  (exists delta,
     trace (fires k m) = trace m ++ delta
     /\ timeouts delta = Nat.min k 5
     /\ quiet delta /\ noAttempt delta)
  /\ Timer.runningState (summarizeTimer (this (fires k m)))
     = (if (k <? 5)%nat
        then Some (time * 2 ^ Z.of_nat k,
                   SummarizeTimerHandler (time * 2 ^ Z.of_nat k) (1 + Z.of_nat k))
        else None)
  /\ pending (fires k m) = pending m
  /\ heuristics (this (fires k m)) = heuristics (this m)
  /\ sameFlags (this m) (this (fires k m)).
Proof.
  intros H0. induction k as [|k IH].
  - simpl. split; [|split; [|split; [|split]]].
    + exists []. rewrite app_nil_r. split; [reflexivity|]. split; [reflexivity|].
      split; [apply quiet_nil|apply noAttempt_nil].
    + rewrite H0, Z.mul_1_r. reflexivity.
    + reflexivity.
    + reflexivity.
    + apply sameFlags_refl.
  - destruct IH as ((delta & T & N & Q & A) & R & P & Hh & F).
    change (fires (S k) m) with (fire SummarizeTimer (fires k m)).
    set (mk := fires k m) in *.
    unfold fire. rewrite R.
    destruct (Nat.ltb_spec k 5) as [Hk|Hk].
    + simpl runHandler. unfold summarizeTimerHandler, maxSummarizeTimeoutCount.
      cbv zeta.
      destruct (Z.ltb_spec (1 + Z.of_nat k) 5) as [Hc|Hc].
      * split; [|split; [|split; [|split]]].
        -- exists (delta ++ [Telemetry "SummarizeTimeout"]). simpl. rewrite T, <- app_assoc.
           split; [reflexivity|]. rewrite timeouts_app, N.
           split; [change (timeouts [Telemetry "SummarizeTimeout"]) with 1%nat; lia|].
           split; [apply quiet_app; [exact Q|split; reflexivity]
                  |apply noAttempt_app; [exact A|repeat split]].
        -- simpl. destruct (Nat.ltb_spec (S k) 5); [|lia].
           replace (Z.of_nat (S k)) with (Z.of_nat k + 1) by lia.
           rewrite Z.pow_add_r by lia.
           replace (time * 2 ^ Z.of_nat k * 2) with (time * (2 ^ Z.of_nat k * 2 ^ 1)) by lia.
           replace (1 + Z.of_nat k + 1) with (1 + (Z.of_nat k + 1)) by lia.
           reflexivity.
        -- exact P.
        -- exact Hh.
        -- exact F.
      * split; [|split; [|split; [|split]]].
        -- exists (delta ++ [Telemetry "SummarizeTimeout"]). simpl. rewrite T, <- app_assoc.
           split; [reflexivity|]. rewrite timeouts_app, N.
           split; [change (timeouts [Telemetry "SummarizeTimeout"]) with 1%nat; lia|].
           split; [apply quiet_app; [exact Q|split; reflexivity]
                  |apply noAttempt_app; [exact A|repeat split]].
        -- simpl. destruct (Nat.ltb_spec (S k) 5); [lia|reflexivity].
        -- exact P.
        -- exact Hh.
        -- exact F.
    + split; [|split; [|split; [|split]]].
      * exists delta. split; [exact T|]. split; [lia|]. auto.
      * rewrite R. destruct (Nat.ltb_spec (S k) 5); [lia|reflexivity].
      * exact P.
      * exact Hh.
      * exact F.
Qed.

(** X3.  When the summarize timer, started for [time] with count 1, runs out
    [k] times in a row, [SummarizeTimeout] is logged [min k 5] times: after
    each of the first four the timer is armed again for twice the time, and
    after the fifth it is not armed any more.  The suspended attempt and the
    heuristics are untouched, and no trigger is entered. *)
Theorem summarizeTimer_doubles time k m :
  Timer.runningState (summarizeTimer (this m))
  = Some (time, SummarizeTimerHandler time 1) ->
  timeouts (since m (fires k m)) = Nat.min k 5
  /\ Timer.runningState (summarizeTimer (this (fires k m)))
     = (if (k <? 5)%nat
        then Some (time * 2 ^ Z.of_nat k,
                   SummarizeTimerHandler (time * 2 ^ Z.of_nat k) (1 + Z.of_nat k))
        else None)
  /\ pending (fires k m) = pending m
  /\ heuristics (this (fires k m)) = heuristics (this m)
  /\ triggers (since m (fires k m)) = [].
Proof.
  intros H. destruct (fires_state time k m H) as ((delta & T & N & Q & _) & R & P & Hh & _).
  rewrite (since_app _ _ _ T). destruct Q as [Q _]. auto.
Qed.

Lemma summarizeTimer_doubles_witness :
  timeouts (since Samples.inFlight (fires 7 Samples.inFlight)) = 5%nat
  /\ Timer.runningState (summarizeTimer (this (fires 3 Samples.inFlight)))
     = Some (160000, SummarizeTimerHandler 160000 4).
Proof.
  split.
  - apply (summarizeTimer_doubles 20000 7 Samples.inFlight). reflexivity.
  - apply (summarizeTimer_doubles 20000 3 Samples.inFlight). reflexivity.
Defined.

(** ** One attempt at a time *)

Lemma closedLog_app o1 o2 : closedLog o1 -> closedLog o2 -> closedLog (o1 ++ o2).
Proof.
  unfold closedLog, startedAttempts, generateCalls, attemptResults.
  intros [A1 A2] [B1 B2]. rewrite !omap_app, !length_app. lia.
Qed.

Lemma closedLog_noAttempt out : noAttempt out -> closedLog out.
Proof. intros (A & B & C & _). unfold closedLog. rewrite A, B, C. auto. Qed.

Lemma closedLog_completed reason out : triggerCompleted reason out -> closedLog out.
Proof.
  unfold triggerCompleted, escalated, closedLog.
  intros [H|[H|[H|H]]]; destruct H as (A & B & C & _); rewrite A, B, C; auto.
Qed.

Lemma accounted_same m m' :
  trace m' = trace m -> pending m' = pending m ->
  summarizing (this m') = summarizing (this m) ->
  accounted m -> accounted m'.
Proof.
  intros T P S (finished & current & E & C & H).
  exists finished, current. rewrite T, S. split; [exact E|]. split; [exact C|].
  destruct (summarizing (this m)); [|exact H].
  destruct H as [reason H]. exists reason. unfold inEscalation in *.
  rewrite P. exact H.
Qed.

Lemma accounted_with_this f m :
  summarizing (f (this m)) = summarizing (this m) ->
  accounted m -> accounted (with_this f m).
Proof. intros E. apply accounted_same; [reflexivity|reflexivity|exact E]. Qed.

Lemma accounted_beside d m m' :
  summarizing (this m) = Some d -> beside d m m' -> accounted m -> accounted m'.
Proof.
  intros Hs B (finished & current & E & C & H). rewrite Hs in H.
  destruct H as [reason H].
  destruct (beside_inEscalation reason current d m m' B H) as (delta & T & I').
  exists finished, (current ++ delta). rewrite T, E, app_assoc.
  split; [reflexivity|]. split; [exact C|].
  rewrite (beside_summarizing _ _ _ B). eauto.
Qed.

Lemma accounted_log es m :
  noAttempt es -> triggered es = false -> accounted m -> accounted (log es m).
Proof.
  intros N Tr H. destruct (summarizing (this m)) as [d|] eqn:Hs.
  - apply (accounted_beside d m); [exact Hs|apply beside_log; assumption|exact H].
  - destruct H as (finished & current & E & C & H). rewrite Hs in H.
    exists finished, (current ++ es). simpl. rewrite E, app_assoc, Hs.
    split; [reflexivity|]. split; [exact C|]. apply noAttempt_app; assumption.
Qed.

Lemma accounted_trySummarize reason m :
  accounted m -> accounted (trySummarize reason m).
Proof.
  intros H. destruct (summarizing (this m)) as [d|] eqn:Hs.
  - apply (accounted_beside d m); [exact Hs|apply beside_trySummarize, Hs|exact H].
  - destruct H as (finished & current & E & C & H). rewrite Hs in H.
    assert (E0 : trySummarize reason m
                 = launch (attempts reason (set_summarizing (Some (allocated m)) (this m)))
                     {| this := this m; pending := pending m;
                        trace := trace m ++ [EnterTrySummarize reason];
                        allocated := S (allocated m); resolved := resolved m |}).
    { unfold trySummarize. cbv zeta.
      change (this (log [EnterTrySummarize reason] m)) with (this m).
      rewrite Hs. reflexivity. }
    destruct (trySummarize_begins reason m Hs) as [_ S0].
    pose proof (launch_inEscalation reason [EnterTrySummarize reason]
                  (attempts reason (set_summarizing (Some (allocated m)) (this m)))
                  {| this := this m; pending := pending m;
                     trace := trace m ++ [EnterTrySummarize reason];
                     allocated := S (allocated m); resolved := resolved m |}) as L.
    rewrite <- E0 in L. cbn [trace] in L.
    destruct L as (out & T & I0).
    { intros turns.
      rewrite <- (app_nil_l [EnterTrySummarize reason]).
      apply escalatesOn_insert; [repeat split|].
      rewrite prependOutcome_nil. apply attempts_transcript. }
    exists (finished ++ current), ([EnterTrySummarize reason] ++ out).
    rewrite T, E, <- !app_assoc.
    split; [reflexivity|].
    split; [apply closedLog_app; [exact C|apply closedLog_noAttempt, H]|].
    rewrite S0. exists reason. exact I0.
Qed.

Lemma accounted_run m : accounted m -> accounted (run m).
Proof.
  intros H. unfold run.
  set (m1 := with_this _ (log [EnterRun] m)).
  assert (H1 : accounted m1).
  { apply accounted_with_this; [reflexivity|].
    apply accounted_log; [repeat split|reflexivity|exact H]. }
  destruct (_ >? _); [apply accounted_trySummarize, H1|].
  destruct (_ >? _); [apply accounted_trySummarize, H1|].
  apply accounted_with_this; [reflexivity|exact H1].
Qed.

Lemma accounted_finalizer m :
  pending m = Finalizing -> consistent m -> accounted m -> accounted (finalizer m).
Proof.
  intros Hp [Hi _] (finished & current & E & C & H). unfold finalizer.
  set (m1 := {| this := set_summarizing None (this m) |}).
  assert (H1 : accounted m1).
  { exists (finished ++ current), []. simpl. rewrite app_nil_r.
    split; [exact E|]. split; [|apply noAttempt_nil].
    apply closedLog_app; [exact C|].
    destruct (summarizing (this m)) as [d|] eqn:Hs.
    - destruct H as [reason H]. unfold inEscalation in H. rewrite Hp in H.
      apply (closedLog_completed reason), H.
    - destruct Hi as [_ Hi]. specialize (Hi eq_refl). congruence. }
  destruct (_ && _); [|exact H1].
  apply accounted_run. apply accounted_with_this; [reflexivity|exact H1].
Qed.

Lemma accounted_handleOp error op m : accounted m -> accounted (handleOp error op m).
Proof.
  intros H. unfold handleOp. destruct error; [exact H|].
  set (m1 := with_this _ m).
  assert (H1 : accounted m1).
  { apply accounted_with_this; [reflexivity|exact H]. }
  destruct (MessageType_eqb _ _);
    [apply accounted_trySummarize|apply accounted_run]; exact H1.
Qed.

Lemma accounted_handleSystemOp op m :
  accounted m -> accounted (handleSystemOp op m).
Proof.
  intros H. unfold handleSystemOp.
  destruct (Message.type op); try exact H; try (apply accounted_handleOp, H).
  destruct (_ || _); [exact H|apply accounted_handleOp, H].
Qed.

Lemma accounted_waitStop m : accounted m -> accounted (fst (waitStop m)).
Proof.
  intros H. unfold waitStop.
  destruct (_disposed (this m)); [exact H|].
  destruct (stopping (this m)); [exact H|].
  set (m1 := with_this _ m).
  assert (H1 : accounted m1).
  { apply accounted_with_this; [reflexivity|exact H]. }
  destruct (_ >? _); simpl; [apply accounted_trySummarize|]; exact H1.
Qed.

Lemma accounted_dispose m : accounted m -> accounted (dispose m).
Proof.
  intros H. unfold dispose.
  apply accounted_with_this; [reflexivity|].
  apply accounted_log; [repeat split|reflexivity|exact H].
Qed.

Lemma accounted_runHandler h m : accounted m -> accounted (runHandler h m).
Proof.
  intros H. destruct h; simpl.
  - apply accounted_trySummarize, H.
  - unfold summarizeTimerHandler.
    destruct (_ <? _);
      [apply accounted_with_this; [reflexivity|]|];
      (apply accounted_log; [repeat split|reflexivity|exact H]).
  - apply accounted_log; [repeat split|reflexivity|exact H].
Qed.

Lemma accounted_fire which m : accounted m -> accounted (fire which m).
Proof.
  intros H. destruct which; simpl.
  - destruct (Timer.runningState _) as [[? h]|]; [|exact H].
    apply accounted_runHandler, accounted_with_this; [reflexivity|exact H].
  - destruct (Timer.runningState _) as [[? h]|]; [|exact H].
    apply accounted_runHandler, accounted_with_this; [reflexivity|exact H].
Qed.

Lemma accounted_settle a m :
  consistent m -> accounted m -> accounted (settle a m).
Proof.
  intros Hc H.
  destruct (pending m) as [|w k|] eqn:Ep;
    try (unfold settle; rewrite Ep; exact H).
  destruct (summarizing (this m)) as [d|] eqn:Hs.
  2:{ destruct Hc as [[_ Hi] _]. rewrite Ep in Hi. specialize (Hi Hs). discriminate Hi. }
  destruct (settle_during d a m Hc Hs) as (S1 & _).
  destruct H as (finished & current & E & C & H). rewrite Hs in H.
  destruct H as [reason H].
  destruct (settle_inEscalation reason current a m H) as (delta & T & I').
  exists finished, (current ++ delta). rewrite T, E, app_assoc, S1.
  split; [reflexivity|]. split; [exact C|]. eauto.
Qed.

Lemma accounted_step now e m :
  consistent m -> accounted m -> accounted (step now e m).
Proof.
  intros Hc H. unfold step.
  set (m1 := with_this (set_dateNow now) m).
  assert (C1 : consistent m1).
  { apply consistent_with_this; [reflexivity|exact Hc]. }
  assert (H1 : accounted m1).
  { apply accounted_with_this; [reflexivity|exact H]. }
  destruct e.
  - apply accounted_handleOp, H1.
  - apply accounted_handleSystemOp, H1.
  - apply accounted_fire, H1.
  - apply accounted_settle; assumption.
  - destruct (pending m1) eqn:Ep; [exact H1|exact H1|].
    apply accounted_finalizer; assumption.
  - apply accounted_waitStop, H1.
  - apply accounted_dispose, H1.
Qed.

Lemma accounted_start c o cfg lastOp firstAck now maybeLastAck :
  accounted (start c o cfg lastOp firstAck now maybeLastAck).
Proof.
  unfold start. apply accounted_run.
  exists [], (trace (waitStart maybeLastAck (new c o cfg lastOp firstAck now))).
  split; [reflexivity|]. split; [split; reflexivity|].
  destruct maybeLastAck as [?|[]|]; repeat split.
Qed.

Lemma reachable_accounted m : reachable m -> accounted m.
Proof.
  induction 1.
  - apply accounted_start.
  - apply accounted_step; [apply reachable_consistent|]; assumption.
Qed.

(** X1.  In every execution each attempt started has called
    [generateSummary] exactly once, and at most one attempt has not ended:
    exactly one while the async function of a trigger awaits a promise, none
    while no trigger is in flight or its [.finally] callback is due. *)
Theorem attempts_never_overlap m :
  reachable m ->
  length (startedAttempts (trace m)) = length (generateCalls (trace m))
  /\ length (generateCalls (trace m))
     = (length (attemptResults (trace m))
        + match pending m with Awaiting _ _ => 1 | _ => 0 end)%nat.
Proof.
  intros Hr. destruct (reachable_consistent m Hr) as [Hi _].
  destruct (reachable_accounted m Hr) as (finished & current & E & [C1 C2] & H).
  rewrite E. unfold startedAttempts, generateCalls, attemptResults in *.
  rewrite !omap_app, !length_app.
  destruct (summarizing (this m)) as [d|] eqn:Hs.
  - destruct H as [reason H]. unfold inEscalation in H.
    destruct (pending m) as [|w k|].
    + contradiction.
    + destruct H as [H _]. unfold triggerInProgress, escalated in H.
      unfold startedAttempts, generateCalls, attemptResults in H.
      destruct H as [H|[H|H]]; destruct H as (A & B & D & _);
        rewrite A, B, D; simpl; lia.
    + unfold triggerCompleted, escalated in H.
      unfold startedAttempts, generateCalls, attemptResults in H.
      destruct H as [H|[H|[H|H]]]; destruct H as (A & B & D & _);
        rewrite A, B, D; simpl; lia.
  - destruct Hi as [_ Hi]. rewrite (Hi eq_refl).
    destruct H as (A & B & D & _).
    unfold startedAttempts, generateCalls, attemptResults in *.
    rewrite A, B, D. simpl. lia.
Qed.

(** ** The timers follow the attempt *)

Lemma keeps_prepend {A} I out (r : Step A) : keeps I r -> keeps I (prepend out r).
Proof. intros H. destruct H; simpl; constructor; auto. Qed.

Lemma keeps_bindStep {A B} I (r : Step A) (f : A -> Async B) :
  keeps I r -> (forall a s, I None s -> keeps I (f a s)) -> keeps I (bindStep r f).
Proof.
  intros H Hf. induction H as [a s out H|w s out k H Hk IH]; simpl.
  - apply keeps_prepend, Hf, H.
  - constructor; auto.
Qed.

Lemma summarize_keeps reason o s :
  timersWhile None s -> keeps timersWhile (summarize reason o s).
Proof.
  intros (D1 & D2 & D3 & D4 & R1 & R2).
  unfold summarize. cbn.
  constructor.
  { split; [exact D1|]. split; [exact D2|]. split; [exact D3|]. split; [exact D4|].
    split; [|exact R2]. unfold backoff. cbn. rewrite D1, D2.
    exists 0%nat. split; [lia|]. split; reflexivity. }
  intros [d|e] s1 (E1 & E2 & E3 & E4 & _ & P1).
  - cbn. destruct (GenerateSummaryData.submitted d); cbn.
    + constructor.
      { repeat split; assumption. }
      intros r2 s2 (F1 & F2 & F3 & F4 & T2).
      destruct (checkNotTimeout r2) as [op|]; cbn.
      * constructor.
        { repeat split; assumption. }
        intros r3 s3 (G1 & G2 & G3 & G4 & T3).
        destruct (checkNotTimeout r3) as [an|]; cbn.
        -- destruct (MessageType_eqb (Message.type an) SummaryAck); cbn;
             constructor; repeat split; assumption.
        -- constructor. repeat split; assumption.
      * constructor. repeat split; assumption.
    + constructor. repeat split; assumption.
  - cbn. constructor. repeat split; assumption.
Qed.

Lemma attempts_keeps reason s :
  timersWhile None s -> keeps timersWhile (attempts reason s).
Proof.
  intros H. unfold attempts.
  apply keeps_bindStep; [apply summarize_keeps, H|].
  intros [] s1 H1; [constructor; exact H1|].
  apply keeps_bindStep; [apply summarize_keeps, H1|].
  intros [] s2 H2; [constructor; exact H2|].
  apply keeps_bindStep; [apply summarize_keeps, H2|].
  intros [] s3 H3; [constructor; exact H3|].
  cbn. constructor. exact H3.
Qed.


Lemma timersWhile_same w s s' :
  summarizeTimer s' = summarizeTimer s ->
  pendingAckTimer s' = pendingAckTimer s ->
  Heuristics.idleTimer (heuristics s') = Heuristics.idleTimer (heuristics s) ->
  timersWhile w s -> timersWhile w s'.
Proof. unfold timersWhile. intros -> -> ->. auto. Qed.

(** Clearing or re-arming the idle timer leaves the timers as they should
    be. *)
Lemma timersWhile_idleTimer w s tm :
  Timer.defaultHandler tm = TrySummarizeIdle ->
  (forall ms h, Timer.runningState tm = Some (ms, h) -> h = TrySummarizeIdle) ->
  timersWhile w s ->
  timersWhile w (set_heuristics (Heuristics.set_idleTimer tm (heuristics s)) s).
Proof.
  intros H1 H2 (D1 & D2 & _ & _ & P). unfold timersWhile. cbn.
  split; [exact D1|]. split; [exact D2|]. split; [exact H1|]. split; [exact H2|].
  exact P.
Qed.

Lemma timersWhile_clearIdleTimer w s :
  timersWhile w s ->
  timersWhile w (set_heuristics (Heuristics.clearIdleTimer (heuristics s)) s).
Proof.
  intros H. apply timersWhile_idleTimer; [apply H| |exact H].
  cbn. discriminate.
Qed.

Lemma timersWhile_restartIdleTimer w s :
  timersWhile w s ->
  timersWhile w (set_heuristics (Heuristics.restartIdleTimer (heuristics s)) s).
Proof.
  intros H. apply timersWhile_idleTimer; [apply H| |exact H].
  cbn. intros ms h E. injection E as _ <-. apply H.
Qed.

(** Cancelling the two timers of the running summarizer is right at any
    time. *)
Lemma timersWhile_clear_summarizeTimer w s :
  timersWhile w s ->
  timersWhile w (set_summarizeTimer (Timer.clear (summarizeTimer s)) s).
Proof.
  intros (D1 & D2 & D3 & D4 & P). unfold timersWhile. cbn.
  split; [exact D1|]. split; [exact D2|]. split; [exact D3|]. split; [exact D4|].
  destruct w as [[]|]; cbn; tauto.
Qed.

Lemma timersWhile_clear_pendingAckTimer w s :
  timersWhile w s ->
  timersWhile w (set_pendingAckTimer (Timer.clear (pendingAckTimer s)) s).
Proof.
  intros (D1 & D2 & D3 & D4 & P). unfold timersWhile. cbn.
  split; [exact D1|]. split; [exact D2|]. split; [exact D3|]. split; [exact D4|].
  destruct w as [[]|]; cbn; tauto.
Qed.

Lemma tidy_same m m' :
  pending m' = pending m ->
  (forall w, timersWhile w (this m) -> timersWhile w (this m')) ->
  tidy m -> tidy m'.
Proof.
  unfold tidy. intros -> H. destruct (pending m) as [|w k|]; [auto| |auto].
  intros [A B]. auto.
Qed.

Lemma tidy_with_this f m :
  (forall w, timersWhile w (this m) -> timersWhile w (f (this m))) ->
  tidy m -> tidy (with_this f m).
Proof. intros H. apply tidy_same; [reflexivity|exact H]. Qed.

Lemma tidy_log es m : tidy m -> tidy (log es m).
Proof. apply tidy_same; [reflexivity|auto]. Qed.

Lemma tidy_launch r m : keeps timersWhile r -> tidy (launch r m).
Proof. intros H. destruct H; unfold tidy; simpl; auto. Qed.

Lemma tidy_trySummarize reason m :
  consistent m -> tidy m -> tidy (trySummarize reason m).
Proof.
  intros [Hi _] H. unfold trySummarize. cbv zeta.
  change (this (log [EnterTrySummarize reason] m)) with (this m).
  destruct (summarizing (this m)) as [d|] eqn:E.
  - apply tidy_with_this; [|apply tidy_log, H].
    intros w. apply timersWhile_same; reflexivity.
  - apply tidy_launch, attempts_keeps.
    destruct Hi as [_ Hi]. specialize (Hi eq_refl).
    unfold tidy in H. rewrite Hi in H.
    revert H. apply timersWhile_same; reflexivity.
Qed.

Lemma tidy_run m : consistent m -> tidy m -> tidy (run m).
Proof.
  intros Hc H. unfold run.
  set (m1 := with_this _ (log [EnterRun] m)).
  assert (C1 : consistent m1).
  { apply consistent_with_this; [reflexivity|]. apply consistent_log, Hc. }
  assert (H1 : tidy m1).
  { apply tidy_with_this; [|apply tidy_log, H].
    intros w. apply timersWhile_clearIdleTimer. }
  destruct (_ >? _); [apply tidy_trySummarize; assumption|].
  destruct (_ >? _); [apply tidy_trySummarize; assumption|].
  apply tidy_with_this; [|exact H1].
  intros w. apply timersWhile_restartIdleTimer.
Qed.

Lemma tidy_finalizer m : pending m = Finalizing -> tidy m -> tidy (finalizer m).
Proof.
  intros Hp H. unfold finalizer.
  set (m1 := {| this := set_summarizing None (this m) |}).
  assert (C1 : consistent m1).
  { split; [|exact I]. simpl. tauto. }
  assert (H1 : tidy m1).
  { unfold tidy in *. rewrite Hp in H. simpl.
    revert H. apply timersWhile_same; reflexivity. }
  destruct (_ && _); [|exact H1].
  apply tidy_run.
  - apply consistent_with_this; [reflexivity|exact C1].
  - apply tidy_with_this; [|exact H1].
    intros w. apply timersWhile_same; reflexivity.
Qed.

Lemma tidy_handleOp error op m :
  consistent m -> tidy m -> tidy (handleOp error op m).
Proof.
  intros Hc H. unfold handleOp. destruct error; [exact H|].
  set (m1 := with_this _ m).
  assert (C1 : consistent m1).
  { apply consistent_with_this; [reflexivity|exact Hc]. }
  assert (H1 : tidy m1).
  { apply tidy_with_this; [|exact H].
    intros w. apply timersWhile_same; reflexivity. }
  destruct (MessageType_eqb _ _);
    [apply tidy_trySummarize|apply tidy_run]; assumption.
Qed.

Lemma tidy_handleSystemOp op m :
  consistent m -> tidy m -> tidy (handleSystemOp op m).
Proof.
  intros Hc H. unfold handleSystemOp.
  destruct (Message.type op); try exact H; try (apply tidy_handleOp; assumption).
  destruct (_ || _); [exact H|apply tidy_handleOp; assumption].
Qed.

Lemma tidy_waitStop m : consistent m -> tidy m -> tidy (fst (waitStop m)).
Proof.
  intros Hc H. unfold waitStop.
  destruct (_disposed (this m)); [exact H|].
  destruct (stopping (this m)); [exact H|].
  set (m1 := with_this _ m).
  assert (C1 : consistent m1).
  { apply consistent_with_this; [reflexivity|exact Hc]. }
  assert (H1 : tidy m1).
  { apply tidy_with_this; [|exact H].
    intros w. apply timersWhile_same; reflexivity. }
  destruct (_ >? _); simpl; [apply tidy_trySummarize; assumption|exact H1].
Qed.

Lemma tidy_dispose m : tidy m -> tidy (dispose m).
Proof.
  intros H. unfold dispose.
  apply tidy_with_this; [|apply tidy_log, H].
  intros w Hw.
  pose (s0 := this (log [WatcherDispose] m)).
  pose (s1 := set_heuristics (Heuristics.clearIdleTimer (heuristics s0)) s0).
  pose (s2 := set_summarizeTimer (Timer.clear (summarizeTimer s1)) s1).
  pose (s3 := set_pendingAckTimer (Timer.clear (pendingAckTimer s2)) s2).
  apply (timersWhile_same w s3); [reflexivity|reflexivity|reflexivity|].
  apply timersWhile_clear_pendingAckTimer, timersWhile_clear_summarizeTimer,
    timersWhile_clearIdleTimer, Hw.
Qed.

Lemma tidy_fire which m : consistent m -> tidy m -> tidy (fire which m).
Proof.
  intros Hc H. destruct which; simpl.
  - destruct (Timer.runningState (Heuristics.idleTimer (heuristics (this m))))
      as [[ms h]|] eqn:E; [|exact H].
    assert (Eh : h = TrySummarizeIdle).
    { unfold tidy in H. destruct (pending m); [|destruct H as [H _]|];
        destruct H as (_ & _ & _ & D4 & _); apply (D4 ms h E). }
    subst h. simpl. apply tidy_trySummarize.
    + apply consistent_with_this; [reflexivity|exact Hc].
    + apply tidy_with_this; [|exact H].
      intros w. apply timersWhile_clearIdleTimer.
  - destruct (Timer.runningState (summarizeTimer (this m))) as [[ms h]|] eqn:E;
      [|exact H].
    unfold tidy in *. 
    destruct (pending m) as [|w k|] eqn:Ep.
    + destruct H as (_ & _ & _ & _ & R & _). congruence.
    + destruct w as [o|csn|csn].
      2,3: destruct H as ((_ & _ & _ & _ & R) & _); congruence.
      destruct H as ((D1 & D2 & D3 & D4 & B & P) & K).
      unfold backoff in B. rewrite E in B. destruct B as (n & Hn & -> & ->).
      simpl. unfold summarizeTimerHandler, maxSummarizeTimeoutCount. cbv zeta.
      destruct (Z.ltb_spec (1 + Z.of_nat n) 5) as [Hc5|Hc5]; simpl; rewrite Ep.
      * split; [|exact K].
        split; [exact D1|]. split; [exact D2|]. split; [exact D3|].
        split; [exact D4|]. split; [|exact P].
        unfold backoff. cbn. exists (S n). split; [lia|].
        replace (Z.of_nat (S n)) with (Z.of_nat n + 1) by lia.
        rewrite Z.pow_add_r by lia.
        replace (maxSummarizeTimeoutTime * 2 ^ Z.of_nat n * 2)
          with (maxSummarizeTimeoutTime * (2 ^ Z.of_nat n * 2 ^ 1)) by lia.
        replace (1 + Z.of_nat n + 1) with (1 + (Z.of_nat n + 1)) by lia.
        split; reflexivity.
      * split; [|exact K].
        split; [exact D1|]. split; [exact D2|]. split; [exact D3|].
        split; [exact D4|]. split; [exact I|exact P].
    + destruct H as (_ & _ & _ & _ & R & _). congruence.
Qed.

Lemma tidy_settle a m : tidy m -> tidy (settle a m).
Proof.
  intros H. unfold settle.
  destruct (pending m) as [|w k|] eqn:Ep; try exact H.
  destruct (answerFor w a) as [x|]; [|exact H].
  unfold tidy in H. rewrite Ep in H. destruct H as [Hw Hk].
  apply tidy_launch, Hk.
  destruct a as [?|[?|[]|]]; try exact Hw.
  apply (timersWhile_clear_pendingAckTimer (Some w) (this m)), Hw.
Qed.

Lemma tidy_step now e m : consistent m -> tidy m -> tidy (step now e m).
Proof.
  intros Hc H. unfold step.
  set (m1 := with_this (set_dateNow now) m).
  assert (C1 : consistent m1).
  { apply consistent_with_this; [reflexivity|exact Hc]. }
  assert (H1 : tidy m1).
  { apply tidy_with_this; [|exact H].
    intros w. apply timersWhile_same; reflexivity. }
  destruct e.
  - apply tidy_handleOp; assumption.
  - apply tidy_handleSystemOp; assumption.
  - apply tidy_fire; assumption.
  - apply tidy_settle, H1.
  - destruct (pending m1) eqn:Ep; [exact H1|exact H1|].
    apply tidy_finalizer; assumption.
  - apply tidy_waitStop; assumption.
  - apply tidy_dispose, H1.
Qed.

Lemma tidy_start c o cfg lastOp firstAck now maybeLastAck :
  tidy (start c o cfg lastOp firstAck now maybeLastAck).
Proof.
  unfold start. apply tidy_run.
  - apply consistent_waitStart, consistent_new.
  - destruct maybeLastAck as [?|[]|]; unfold tidy, timersWhile; cbn;
      repeat split; discriminate.
Qed.

Lemma reachable_tidy m : reachable m -> tidy m.
Proof.
  induction 1.
  - apply tidy_start.
  - apply tidy_step; [apply reachable_consistent|]; assumption.
Qed.

Lemma backoff_clear tm : Timer.runningState tm = None -> backoff tm.
Proof. unfold backoff. intros ->. exact I. Qed.

(** X2.  The timers follow the attempt.  In every execution the summarize
    timer is armed only while [generateSummary] is awaited, and then in its
    [n]-th doubling with [n < 5]; the pending-ack timer is armed only while
    the broadcast or the ack of a submitted summary is awaited. *)
Theorem timers_follow_the_attempt m :
  reachable m ->
  backoff (summarizeTimer (this m))
  /\ (Timer.hasTimer (summarizeTimer (this m)) = true ->
      exists options k, pending m = Awaiting (AwGenerateSummary options) k)
  /\ (Timer.hasTimer (pendingAckTimer (this m)) = true ->
      exists clientSequenceNumber k,
        pending m = Awaiting (AwBroadcast clientSequenceNumber) k
        \/ pending m = Awaiting (AwAckNack clientSequenceNumber) k).
Proof.
  intros Hr. pose proof (reachable_tidy m Hr) as H.
  unfold tidy in H. unfold Timer.hasTimer.
  destruct (pending m) as [|w k|].
  - destruct H as (_ & _ & _ & _ & R1 & R2). rewrite R2.
    split; [apply backoff_clear, R1|]. rewrite R1. split; discriminate.
  - destruct H as [(_ & _ & _ & _ & P) _]. destruct w as [o|csn|csn].
    + destruct P as [B R2]. rewrite R2. split; [exact B|].
      split; [eauto|discriminate].
    + rewrite P. split; [apply backoff_clear, P|]. split; [discriminate|eauto].
    + rewrite P. split; [apply backoff_clear, P|]. split; [discriminate|eauto].
  - destruct H as (_ & _ & _ & _ & R1 & R2). rewrite R2.
    split; [apply backoff_clear, R1|]. rewrite R1. split; discriminate.
Qed.

(** *** Instances *)

Lemma reachable_stoppingInFlight : reachable Samples.stoppingInFlight.
Proof. apply reachable_step, reachable_inFlight. Qed.

Lemma reachable_finishing : reachable Samples.finishing.
Proof. apply reachable_steps, reachable_inFlight. Qed.

Lemma attempts_never_overlap_witness :
  length (startedAttempts (trace Samples.inFlight))
  = length (generateCalls (trace Samples.inFlight))
  /\ length (generateCalls (trace Samples.inFlight))
     = (length (attemptResults (trace Samples.inFlight))
        + match pending Samples.inFlight with Awaiting _ _ => 1 | _ => 0 end)%nat.
Proof. apply (attempts_never_overlap Samples.inFlight), reachable_inFlight. Defined.

Lemma timers_follow_the_attempt_witness :
  backoff (summarizeTimer (this Samples.inFlight))
  /\ (Timer.hasTimer (summarizeTimer (this Samples.inFlight)) = true ->
      exists options k,
        pending Samples.inFlight = Awaiting (AwGenerateSummary options) k)
  /\ (Timer.hasTimer (pendingAckTimer (this Samples.inFlight)) = true ->
      exists clientSequenceNumber k,
        pending Samples.inFlight = Awaiting (AwBroadcast clientSequenceNumber) k
        \/ pending Samples.inFlight = Awaiting (AwAckNack clientSequenceNumber) k).
Proof. apply (timers_follow_the_attempt Samples.inFlight), reachable_inFlight. Defined.

(** Stopped during the attempt, with a trigger coalesced: when the attempt
    has ended, its [.finally] callback does not run the heuristics. *)
Lemma stopped_never_follows_up_witness :
  (stopping (this (steps Samples.ackedRun Samples.stoppingInFlight)) = true
   \/ _disposed (this (steps Samples.ackedRun Samples.stoppingInFlight)) = true)
  /\ since (steps Samples.ackedRun Samples.stoppingInFlight)
       (step 160 FinallyRuns (steps Samples.ackedRun Samples.stoppingInFlight)) = [].
Proof.
  apply (stopped_never_follows_up Samples.stoppingInFlight Samples.ackedRun 160).
  - apply reachable_stoppingInFlight.
  - left. reflexivity.
Defined.

Lemma signal_resolved_by_finally_witness :
  resolved (step 160 FinallyRuns Samples.finishing)
  = match pending Samples.finishing, summarizing (this Samples.finishing) with
    | Finalizing, Some d => d :: resolved Samples.finishing
    | _, _ => resolved Samples.finishing
    end
  /\ forall d, summarizing (this Samples.finishing) = Some d ->
               ~ In d (resolved Samples.finishing).
Proof.
  apply (signal_resolved_by_finally 160 FinallyRuns Samples.finishing).
  apply reachable_finishing.
Defined.

Lemma attempts_returns_witness :
  match drive (attempts "idle" (this Samples.idle)) Samples.rejections with
  | StillWaiting _ _ _ => False
  | _ => True
  end.
Proof.
  apply (attempts_returns "idle" (this Samples.idle) Samples.rejections).
  simpl. lia.
Defined.

End RunningSummarizerFacts.

(** ** The facade *)

Module SummarizerFacts.
Import Summarizer.

(** C10.  [generateSummary] returns what the internals provider's
    [generateSummary] returned, whatever the client ids are; and it invokes
    [stop("parentNoLongerSummarizer")] exactly when both the on-behalf-of
    client id and the runtime's own client id differ from the runtime's
    summarizer client id. *)
Theorem generateSummary_checks_parent {Promise : Type}
    (internal : IGenerateSummaryOptions -> Promise) options s :
  let result := fst (generateSummary internal options s) in
  let s' := snd (generateSummary internal options s) in
  result = internal options
  /\ exists delta,
       effects s' = effects s ++ InternalGenerateSummary options :: delta
       /\ (In (StopInvoked (Some parentNoLongerSummarizer)) delta
           <-> onBehalfOfClientId s <> runtime_summarizerClientId s
               /\ runtime_clientId s <> runtime_summarizerClientId s)
       /\ (forall reason, In (StopInvoked reason) delta ->
             reason = Some parentNoLongerSummarizer /\ stopped s' = true).
Proof.
  cbv zeta. unfold generateSummary, strictNe. simpl.
  split; [reflexivity|].
  destruct (bool_decide_reflect (onBehalfOfClientId s = runtime_summarizerClientId s))
    as [E1|E1]; simpl.
  { exists []. split; [reflexivity|]. split; [|intros ? []].
    split; [intros []|intros [H _]; contradiction]. }
  destruct (bool_decide_reflect (runtime_clientId s = runtime_summarizerClientId s))
    as [E2|E2]; simpl.
  { exists []. split; [reflexivity|]. split; [|intros ? []].
    split; [intros []|intros [_ H]; contradiction]. }
  unfold stop. simpl. destruct (stopped s) eqn:Es; simpl.
  - exists [StopInvoked (Some parentNoLongerSummarizer)].
    rewrite <- app_assoc. split; [reflexivity|]. split.
    + split; [auto|intros _; left; reflexivity].
    + intros reason [H|[]]. injection H as <-. auto.
  - exists [StopInvoked (Some parentNoLongerSummarizer);
            Telemetry "StoppingSummarizer"; StopDeferredResolved].
    rewrite <- !app_assoc. split; [reflexivity|]. split.
    + split; [auto|intros _; left; reflexivity].
    + intros reason [H|[H|[H|[]]]]; try discriminate H. injection H as <-. auto.
Qed.

(** The parent is no longer the elected summarizer: the summary is still
    generated, and the facade stops itself. *)
Lemma generateSummary_checks_parent_witness :
  fst (generateSummary (fun options => options) RunningSummarizer.firstOptions
         Samples.orphaned)
  = RunningSummarizer.firstOptions
  /\ exists delta,
       effects (snd (generateSummary (fun options => options)
                       RunningSummarizer.firstOptions Samples.orphaned))
       = effects Samples.orphaned
         ++ InternalGenerateSummary RunningSummarizer.firstOptions :: delta
       /\ In (StopInvoked (Some parentNoLongerSummarizer)) delta.
Proof.
  destruct (generateSummary_checks_parent (fun options => options)
              RunningSummarizer.firstOptions Samples.orphaned)
    as (A & delta & B & C & _).
  split; [exact A|]. exists delta. split; [exact B|].
  apply C. split; discriminate.
Defined.

(** ** Running and stopping the facade *)

Import SummarizerRun.

Lemma resolutions_app es1 es2 :
  resolutions (es1 ++ es2) = (resolutions es1 + resolutions es2)%nat.
Proof. unfold resolutions. rewrite omap_app, length_app. reflexivity. Qed.

Lemma stopInvocations_app es1 es2 :
  stopInvocations (es1 ++ es2) = stopInvocations es1 ++ stopInvocations es2.
Proof. apply omap_app. Qed.

Lemma stoppingEvents_app es1 es2 :
  stoppingEvents (es1 ++ es2) = (stoppingEvents es1 + stoppingEvents es2)%nat.
Proof. unfold stoppingEvents. rewrite omap_app, length_app. reflexivity. Qed.

Lemma stopInvocations_only reasons :
  stopInvocations (map StopInvoked reasons) = reasons
  /\ resolutions (map StopInvoked reasons) = 0%nat
  /\ stoppingEvents (map StopInvoked reasons) = 0%nat.
Proof.
  induction reasons as [|r reasons (A & B & C)]; [auto|].
  split; [|split].
  - change (r :: stopInvocations (map StopInvoked reasons) = r :: reasons).
    rewrite A. reflexivity.
  - exact B.
  - exact C.
Qed.

(** Once stopped, further calls of [stop] only return. *)
Lemma stops_stopped_effects reasons s :
  stopped s = true ->
  effects (stops reasons s) = effects s ++ map StopInvoked reasons
  /\ stopped (stops reasons s) = true.
Proof.
  revert s. induction reasons as [|r reasons IH]; intros s Hs; simpl.
  - rewrite app_nil_r. auto.
  - assert (E : stop r s = log [StopInvoked r] s).
    { unfold stop. simpl. rewrite Hs. reflexivity. }
    rewrite E. destruct (IH (log [StopInvoked r] s) Hs) as (A & B).
    simpl in A. rewrite <- app_assoc in A. auto.
Qed.

(** X11.  However often and with whatever reasons [stop] is called, the
    facade resolves its stop signal and logs [StoppingSummarizer] once: at
    the first call when it was not stopped before, and never when it was.
    Any call leaves it stopped.  The effects are those of the first call
    (the event and the resolution, when the facade was not stopped), and of
    the later calls nothing but that they were made. *)
Theorem stop_resolves_once reasons s :
  exists delta,
    effects (stops reasons s) = effects s ++ delta
    /\ stopInvocations delta = reasons
    /\ resolutions delta
       = (if stopped s then 0 else match reasons with [] => 0 | _ => 1 end)%nat
    /\ stopped (stops reasons s)
       = stopped s || match reasons with [] => false | _ => true end
    /\ stoppingEvents delta
       = (if stopped s then 0 else match reasons with [] => 0 | _ => 1 end)%nat
    /\ delta
       = match reasons with
         | [] => []
         | reason :: later =>
             StopInvoked reason
             :: (if stopped s then []
                 else [Telemetry "StoppingSummarizer"; StopDeferredResolved])
             ++ map StopInvoked later
         end.
Proof.
  destruct reasons as [|r reasons].
  - exists []. simpl. rewrite app_nil_r, orb_false_r.
    destruct (stopped s); auto 10.
  - destruct (stopInvocations_only reasons) as (I1 & I2 & I3).
    destruct (stopped s) eqn:Hs.
    + assert (E : stop r s = log [StopInvoked r] s).
      { unfold stop. simpl. rewrite Hs. reflexivity. }
      destruct (stops_stopped_effects reasons (log [StopInvoked r] s) Hs) as (A & D).
      exists (StopInvoked r :: map StopInvoked reasons).
      simpl stops. rewrite E. simpl in A. rewrite <- app_assoc in A.
      split; [exact A|].
      split; [change (r :: stopInvocations (map StopInvoked reasons) = r :: reasons);
              rewrite I1; reflexivity|].
      split; [exact I2|]. split; [exact D|]. split; [exact I3|reflexivity].
    + assert (E : stop r s
                  = log [Telemetry "StoppingSummarizer"; StopDeferredResolved]
                      (set_stopped true (log [StopInvoked r] s))).
      { unfold stop. simpl. rewrite Hs. reflexivity. }
      destruct (stops_stopped_effects reasons
                  (log [Telemetry "StoppingSummarizer"; StopDeferredResolved]
                     (set_stopped true (log [StopInvoked r] s))) eq_refl) as (A & D).
      exists (StopInvoked r :: Telemetry "StoppingSummarizer"
                :: StopDeferredResolved :: map StopInvoked reasons).
      simpl stops. rewrite E. simpl in A. rewrite <- !app_assoc in A.
      split; [exact A|].
      split; [change (r :: stopInvocations (map StopInvoked reasons) = r :: reasons);
              rewrite I1; reflexivity|].
      split; [change (S (resolutions (map StopInvoked reasons)) = 1%nat);
              rewrite I2; reflexivity|].
      split; [exact D|].
      split; [change (S (stoppingEvents (map StopInvoked reasons)) = 1%nat);
              rewrite I3; reflexivity|reflexivity].
Qed.

(** X12.  [runCore] gets as far as creating the running summarizer exactly
    when the run coordinator reports that it started, the delta manager is
    active, and the runtime's computed summarizer is the client the facade
    was spawned on behalf of or the facade's own client; the ids are those
    read after the wait for the coordinator.  It then logs
    [RunningSummarizer]; otherwise it logs [NotStarted] and returns, with
    the reason the first failing check gives: the coordinator's message,
    [CannotWrite], or [DifferentComputedSummarizer].  Up to the creation of
    the running summarizer that one event is all it does beyond setting
    [onBehalfOfClientId]; it does not stop the facade. *)
Theorem runCore_decides onBehalfOf startResult active meanwhile s clientId :
  let s0 := meanwhile (set_onBehalfOfClientId (Some onBehalfOf) s) in
  let r := runCore onBehalfOf startResult active meanwhile s in
  (snd r = Run clientId
   <-> startResult = Started clientId
       /\ active = true
       /\ (runtime_summarizerClientId s0 = onBehalfOfClientId s0
           \/ runtime_summarizerClientId s0 = runtime_clientId s0))
  /\ fst r = log [Telemetry (match snd r with
                             | Run _ => "RunningSummarizer"
                             | Refused _ => "NotStarted"
                             end)] s0
  /\ stopped (fst r) = stopped s0
  /\ (forall reason,
        snd r = Refused reason
        <-> match startResult with
            | NotStarted message => reason = message
            | Started _ =>
                if active then
                  reason = "DifferentComputedSummarizer"
                  /\ runtime_summarizerClientId s0 <> onBehalfOfClientId s0
                  /\ runtime_summarizerClientId s0 <> runtime_clientId s0
                else reason = "CannotWrite"
            end).
Proof.
  cbv zeta. unfold runCore, strictNe.
  destruct startResult as [c|message]; simpl.
  2:{ split; [split; [discriminate|intros (H & _); discriminate H]|].
      split; [reflexivity|]. split; [reflexivity|].
      intros reason. split; [intros H; injection H as <-; reflexivity|intros ->; reflexivity]. }
  destruct active; simpl.
  2:{ split; [split; [discriminate|intros (_ & H & _); discriminate H]|].
      split; [reflexivity|]. split; [reflexivity|].
      intros reason. split; [intros H; injection H as <-; reflexivity|intros ->; reflexivity]. }
  set (s0 := meanwhile _).
  destruct (bool_decide_reflect (runtime_summarizerClientId s0 = onBehalfOfClientId s0))
    as [E1|E1]; simpl.
  { split.
    - split.
      + intros H. injection H as ->. auto.
      + intros (H & _). injection H as ->. reflexivity.
    - split; [reflexivity|]. split; [reflexivity|].
      intros reason. split; [discriminate|]. intros (_ & H & _). contradiction. }
  destruct (bool_decide_reflect (runtime_summarizerClientId s0 = runtime_clientId s0))
    as [E2|E2]; simpl.
  { split.
    - split.
      + intros H. injection H as ->. auto.
      + intros (H & _). injection H as ->. reflexivity.
    - split; [reflexivity|]. split; [reflexivity|].
      intros reason. split; [discriminate|]. intros (_ & _ & H). contradiction. }
  split; [split; [discriminate|intros (_ & _ & [H|H]); contradiction]|].
  split; [reflexivity|]. split; [reflexivity|].
  intros reason. split.
  - intros H. injection H as <-. auto.
  - intros (-> & _). reflexivity.
Qed.

(** X13.  The check in [generateSummary] agrees with the one in [runCore]:
    on the ids that [runCore] decided by, [generateSummary] calls
    [stop("parentNoLongerSummarizer")] exactly when [runCore] refused to
    run for [DifferentComputedSummarizer].  So a facade that [runCore] let
    run does not stop itself at a summary while the ids stay as they were. *)
Theorem runCore_agrees_with_generateSummary {Promise : Type}
    (internal : IGenerateSummaryOptions -> Promise)
    onBehalfOf clientId meanwhile s options :
  let s1 := fst (runCore onBehalfOf (Started clientId) true meanwhile s) in
  let s2 := snd (generateSummary internal options s1) in
  exists delta,
    effects s2 = effects s1 ++ InternalGenerateSummary options :: delta
    /\ (In (StopInvoked (Some parentNoLongerSummarizer)) delta
        <-> snd (runCore onBehalfOf (Started clientId) true meanwhile s)
            = Refused "DifferentComputedSummarizer").
Proof.
  cbv zeta. unfold runCore, generateSummary, strictNe. simpl.
  set (s0 := meanwhile _).
  destruct (bool_decide_reflect (runtime_summarizerClientId s0 = onBehalfOfClientId s0))
    as [E1|E1]; simpl.
  { rewrite bool_decide_eq_true_2 by congruence. simpl.
    exists []. split; [reflexivity|]. split; [intros []|discriminate]. }
  destruct (bool_decide_reflect (runtime_summarizerClientId s0 = runtime_clientId s0))
    as [E2|E2]; simpl.
  { rewrite (bool_decide_eq_true_2 (runtime_clientId s0 = runtime_summarizerClientId s0))
      by congruence.
    rewrite andb_false_r.
    exists []. split; [reflexivity|]. split; [intros []|discriminate]. }
  rewrite bool_decide_eq_false_2 by congruence.
  rewrite bool_decide_eq_false_2 by congruence. simpl.
  unfold stop. simpl. destruct (stopped s0); simpl.
  - exists [StopInvoked (Some parentNoLongerSummarizer)].
    rewrite <- !app_assoc. split; [reflexivity|].
    split; [reflexivity|]. intros _. left. reflexivity.
  - exists [StopInvoked (Some parentNoLongerSummarizer);
            Telemetry "StoppingSummarizer"; StopDeferredResolved].
    rewrite <- !app_assoc. split; [reflexivity|].
    split; [reflexivity|]. intros _. left. reflexivity.
Qed.

Lemma handleSummaryAcks_cons refSequenceNumber i rest :
  exists own,
    fst (handleSummaryAcks refSequenceNumber (i :: rest))
    = WaitSummaryAck refSequenceNumber :: own
      ++ fst (handleSummaryAcks
                (match i with
                 | WaitRejects _ => refSequenceNumber
                 | Acked _ ack _ => summaryOp_referenceSequenceNumber ack
                 end + 1) rest)
    /\ snd (handleSummaryAcks refSequenceNumber (i :: rest))
       = snd (handleSummaryAcks
                (match i with
                 | WaitRejects _ => refSequenceNumber
                 | Acked _ ack _ => summaryOp_referenceSequenceNumber ack
                 end + 1) rest)
    /\ queries own = []
    /\ refreshes own
       = match i with
         | WaitRejects _ => []
         | Acked _ ack _ => [(summaryOp_handle ack, summaryAck_handle ack)]
         end.
Proof.
  destruct i as [r|r ack ok]; simpl.
  - destruct (handleSummaryAcks (refSequenceNumber + 1) rest) as [es final]. simpl.
    eexists [_]. split; [reflexivity|]. split; [reflexivity|].
    split; reflexivity.
  - destruct (handleSummaryAcks (summaryOp_referenceSequenceNumber ack + 1) rest)
      as [es final]. simpl.
    destruct ok; simpl.
    + eexists [_]. split; [reflexivity|]. split; [reflexivity|].
      split; reflexivity.
    + eexists [_; _]. split; [reflexivity|]. split; [reflexivity|].
      split; reflexivity.
Qed.

Lemma queries_app es1 es2 : queries (es1 ++ es2) = queries es1 ++ queries es2.
Proof. apply omap_app. Qed.

Lemma refreshes_app es1 es2 : refreshes (es1 ++ es2) = refreshes es1 ++ refreshes es2.
Proof. apply omap_app. Qed.

(** X14.  The loop of [handleSummaryAcks] goes on after a failure: every
    iteration asks the summary collection for an ack once, whether or not
    earlier waits or refreshes failed, and every ack obtained is handed to
    [refreshLatestSummaryAck] once, with its proposal and ack handles, in
    the order the acks came. *)
Theorem handleSummaryAcks_refreshes_every_ack refSequenceNumber iterations :
  let es := fst (handleSummaryAcks refSequenceNumber iterations) in
  length (queries es) = length iterations
  /\ refreshes es
     = map (fun ack => (summaryOp_handle ack, summaryAck_handle ack))
         (ackedOf iterations).
Proof.
  cbv zeta. revert refSequenceNumber.
  induction iterations as [|i rest IH]; intros refSequenceNumber.
  - simpl. auto.
  - destruct (handleSummaryAcks_cons refSequenceNumber i rest)
      as (own & E & _ & Q & R).
    rewrite E.
    change (queries (WaitSummaryAck refSequenceNumber :: own ++ ?x))
      with (refSequenceNumber :: queries (own ++ x)).
    change (refreshes (WaitSummaryAck refSequenceNumber :: own ++ ?x))
      with (refreshes (own ++ x)).
    rewrite queries_app, refreshes_app, Q, R.
    destruct (IH (match i with
                  | WaitRejects _ => refSequenceNumber
                  | Acked _ ack _ => summaryOp_referenceSequenceNumber ack
                  end + 1)) as [IH1 IH2].
    rewrite IH2. simpl. rewrite IH1. split; [reflexivity|].
    destruct i; reflexivity.
Qed.

Lemma increasing_cons x l :
  increasing l -> (forall y, In y l -> x < y) -> increasing (x :: l).
Proof.
  intros H1 H2. simpl. split; [|exact H1].
  destruct l as [|y l]; [exact I|]. apply H2. left. reflexivity.
Qed.

Lemma handleSummaryAcks_above refSequenceNumber iterations :
  honoured refSequenceNumber iterations ->
  let es := fst (handleSummaryAcks refSequenceNumber iterations) in
  increasing (queries es)
  /\ (forall q, In q (queries es) -> refSequenceNumber <= q)
  /\ increasing (map summaryOp_referenceSequenceNumber (ackedOf iterations))
  /\ (forall ack, In ack (ackedOf iterations) ->
        refSequenceNumber <= summaryOp_referenceSequenceNumber ack)
  /\ refSequenceNumber + Z.of_nat (length iterations)
     <= snd (handleSummaryAcks refSequenceNumber iterations).
Proof.
  cbv zeta. revert refSequenceNumber.
  induction iterations as [|i rest IH]; intros refSequenceNumber H.
  - simpl. repeat split; try contradiction. lia.
  - destruct (handleSummaryAcks_cons refSequenceNumber i rest)
      as (own & E & F & Q & _). rewrite E, F.
    change (queries (WaitSummaryAck refSequenceNumber :: own ++ ?x))
      with (refSequenceNumber :: queries (own ++ x)).
    rewrite queries_app, Q. simpl app.
    destruct i as [r|r ack ok]; simpl in H.
    + destruct (IH _ H) as (A & B & C & D & G).
      split; [|split; [|split; [|split]]].
      * apply increasing_cons; [exact A|]. intros y Hy. apply B in Hy. lia.
      * intros q [<-|Hq]; [lia|]. apply B in Hq. lia.
      * exact C.
      * intros ack Hack. apply D in Hack. lia.
      * simpl length. lia.
    + destruct H as [H0 H]. destruct (IH _ H) as (A & B & C & D & G).
      split; [|split; [|split; [|split]]].
      * apply increasing_cons; [exact A|]. intros y Hy. apply B in Hy. lia.
      * intros q [<-|Hq]; [lia|]. apply B in Hq. lia.
      * change (increasing (summaryOp_referenceSequenceNumber ack
                  :: map summaryOp_referenceSequenceNumber (ackedOf rest))).
        apply increasing_cons; [exact C|]. intros y Hy.
        apply in_map_iff in Hy as (a & <- & Ha). apply D in Ha. lia.
      * intros a [<-|Ha]; [lia|]. apply D in Ha. lia.
      * simpl length. lia.
Qed.

Lemma handleSummaryAcks_below refSequenceNumber iterations :
  honoured refSequenceNumber iterations ->
  let es := fst (handleSummaryAcks refSequenceNumber iterations) in
  let final := snd (handleSummaryAcks refSequenceNumber iterations) in
  (forall q, In q (queries es) -> q < final)
  /\ (forall ack, In ack (ackedOf iterations) ->
        summaryOp_referenceSequenceNumber ack < final).
Proof.
  cbv zeta. revert refSequenceNumber.
  induction iterations as [|i rest IH]; intros refSequenceNumber H.
  - simpl. split; intros ? [].
  - destruct (handleSummaryAcks_cons refSequenceNumber i rest)
      as (own & E & F & Q & _). rewrite E, F.
    change (queries (WaitSummaryAck refSequenceNumber :: own ++ ?x))
      with (refSequenceNumber :: queries (own ++ x)).
    rewrite queries_app, Q. simpl app.
    destruct i as [r|r ack ok]; simpl in H.
    + destruct (IH _ H) as (A & B).
      destruct (handleSummaryAcks_above _ _ H) as (_ & _ & _ & _ & G).
      split.
      * intros q [<-|Hq]; [lia|]. apply A, Hq.
      * exact B.
    + destruct H as [H0 H]. destruct (IH _ H) as (A & B).
      destruct (handleSummaryAcks_above _ _ H) as (_ & _ & _ & _ & G).
      split.
      * intros q [<-|Hq]; [lia|]. apply A, Hq.
      * intros a [<-|Ha]; [lia|]. apply B, Ha.
Qed.

(** X15.  When [waitSummaryAck(n)] yields acks of summaries at [n] or later
    only, and the sequence number starts at [- Number.MAX_SAFE_INTEGER] or
    above and has not passed [Number.MAX_SAFE_INTEGER] when the loop ends,
    the loop of [handleSummaryAcks] asks for strictly increasing sequence
    numbers, none below the initial one, and the acks it refreshes from have
    strictly increasing reference sequence numbers: no summary is refreshed
    from twice.  The number it would ask for next has grown by at least one
    per iteration.  Every number the loop increments, the one asked for
    after a rejection and the acked one otherwise, lies within the safe
    integers and below [Number.MAX_SAFE_INTEGER], where
    [refSequenceNumber++] adds exactly one. *)
Theorem handleSummaryAcks_progresses refSequenceNumber iterations :
  honoured refSequenceNumber iterations ->
  - Number_MAX_SAFE_INTEGER <= refSequenceNumber ->
  snd (handleSummaryAcks refSequenceNumber iterations) <= Number_MAX_SAFE_INTEGER ->
  let es := fst (handleSummaryAcks refSequenceNumber iterations) in
  increasing (queries es)
  /\ increasing (map summaryOp_referenceSequenceNumber (ackedOf iterations))
  /\ (forall q, In q (queries es) -> refSequenceNumber <= q)
  /\ refSequenceNumber + Z.of_nat (length iterations)
     <= snd (handleSummaryAcks refSequenceNumber iterations)
  /\ (forall q, In q (queries es) ->
        - Number_MAX_SAFE_INTEGER <= q < Number_MAX_SAFE_INTEGER)
  /\ (forall ack, In ack (ackedOf iterations) ->
        - Number_MAX_SAFE_INTEGER <= summaryOp_referenceSequenceNumber ack
          < Number_MAX_SAFE_INTEGER).
Proof.
  intros H Hlow Hhigh.
  destruct (handleSummaryAcks_above _ _ H) as (A & B & C & D & G).
  destruct (handleSummaryAcks_below _ _ H) as (U & V).
  cbv zeta in *.
  split; [exact A|]. split; [exact C|]. split; [exact B|]. split; [exact G|].
  split.
  - intros q Hq. pose proof (B q Hq). pose proof (U q Hq). lia.
  - intros ack Hack. pose proof (D ack Hack). pose proof (V ack Hack). lia.
Qed.

(** The watcher honours its contract in [Samples.ackIterations]. *)
Lemma handleSummaryAcks_progresses_witness :
  increasing (queries (fst (handleSummaryAcks 0 Samples.ackIterations)))
  /\ increasing (map summaryOp_referenceSequenceNumber (ackedOf Samples.ackIterations))
  /\ (forall q, In q (queries (fst (handleSummaryAcks 0 Samples.ackIterations))) ->
        0 <= q)
  /\ 0 + Z.of_nat (length Samples.ackIterations)
     <= snd (handleSummaryAcks 0 Samples.ackIterations)
  /\ (forall q, In q (queries (fst (handleSummaryAcks 0 Samples.ackIterations))) ->
        - Number_MAX_SAFE_INTEGER <= q < Number_MAX_SAFE_INTEGER)
  /\ (forall ack, In ack (ackedOf Samples.ackIterations) ->
        - Number_MAX_SAFE_INTEGER <= summaryOp_referenceSequenceNumber ack
          < Number_MAX_SAFE_INTEGER).
Proof.
  apply (handleSummaryAcks_progresses 0 Samples.ackIterations).
  - simpl. lia.
  - vm_compute. discriminate.
  - vm_compute. discriminate.
Defined.

End SummarizerFacts.

(** ** The worker service *)

Module WorkerServiceFacts.
Import WorkerService.

Lemma effects_since s s' delta : effects s' = effects s ++ delta -> since s s' = delta.
Proof. intros H. unfold since. rewrite H. apply drop_app_length. Qed.

(** [startTask] starts the worker only when no work of that type is
    registered for the document; afterwards one is. *)
Lemma startTask_effects docId workType worker s :
  effects (startTask docId workType worker s)
  = effects s ++ EnterStartTask docId workType worker
      :: (if registered docId workType s then []
          else [ConsoleLog ("Starting work " +:+ workType
                            +:+ " for document " +:+ docId);
                Started worker])
  /\ registered docId workType (startTask docId workType worker s) = true
  /\ serverUrl (startTask docId workType worker s) = serverUrl s.
Proof.
  unfold startTask, registered. simpl.
  destruct (documentMap s !! docId) as [tasks|] eqn:Ed; simpl.
  - rewrite Ed. destruct (tasks !! workType) as [w|] eqn:Et; simpl.
    + rewrite Ed, Et. simpl. auto.
    + rewrite !lookup_insert_eq. simpl. rewrite <- !app_assoc. auto.
  - rewrite lookup_insert_eq. rewrite lookup_empty. simpl.
    rewrite !lookup_insert_eq. simpl. rewrite <- !app_assoc. auto.
Qed.

(** One case body: construct the work and hand it to [startTask]. *)
Lemma case_effects docId workType worker s :
  let s' := startTask docId workType worker (log [Constructed worker] s) in
  effects s'
  = effects s ++ Constructed worker :: EnterStartTask docId workType worker
      :: (if registered docId workType s then []
          else [ConsoleLog ("Starting work " +:+ workType
                            +:+ " for document " +:+ docId);
                Started worker])
  /\ registered docId workType s' = true
  /\ serverUrl s' = serverUrl s.
Proof.
  cbv zeta.
  destruct (startTask_effects docId workType worker (log [Constructed worker] s))
    as (E & R & U).
  rewrite E, R, U. simpl. rewrite <- app_assoc. auto.
Qed.

(** *** Plain services *)

Lemma plain_initial serverUrl : plain (initial serverUrl).
Proof.
  intros docId tasks H. simpl in H. rewrite lookup_empty in H. discriminate H.
Qed.

(** [startTask] with a document id and a work type that are own names keeps
    the service plain. *)
Lemma plain_startTask docId workType worker s :
  plain s -> ownName docId -> ownName workType ->
  plain (startTask docId workType worker s).
Proof.
  intros H Hd Hw. unfold startTask. simpl.
  assert (upd : forall (tasks : gmap string IWork)
                       (dm : gmap string (gmap string IWork)),
            (forall wt w, tasks !! wt = Some w -> ownName wt) ->
            (forall d ts, dm !! d = Some ts ->
               ownName d /\ forall wt w, ts !! wt = Some w -> ownName wt) ->
            forall d ts, <[docId := <[workType := worker]> tasks]> dm !! d = Some ts ->
               ownName d /\ forall wt w, ts !! wt = Some w -> ownName wt).
  { intros tasks dm Ht Hdm d ts Hl.
    destruct (String.eqb_spec d docId) as [E|E].
    - rewrite E in *. rewrite lookup_insert_eq in Hl. injection Hl as <-.
      split; [exact Hd|]. intros wt w Hwt.
      destruct (String.eqb_spec wt workType) as [E'|E'].
      + rewrite E'. exact Hw.
      + rewrite lookup_insert_ne in Hwt by congruence. apply (Ht wt w Hwt).
    - rewrite lookup_insert_ne in Hl by congruence. apply (Hdm d ts Hl). }
  destruct (documentMap s !! docId) as [tasks|] eqn:Ed; simpl.
  - rewrite Ed. destruct (tasks !! workType) as [x|] eqn:Et; simpl; [exact H|].
    intros d ts Hl. simpl in Hl.
    apply (upd tasks (documentMap s)); [apply (H docId tasks Ed)|exact H|exact Hl].
  - rewrite lookup_insert_eq, lookup_empty. simpl.
    intros d ts Hl. simpl in Hl.
    apply (upd ∅ (<[docId := ∅]> (documentMap s))); [| |exact Hl].
    + intros wt w Hwt. rewrite lookup_empty in Hwt. discriminate Hwt.
    + intros d' ts' Hl'. destruct (String.eqb_spec d' docId) as [E|E].
      * rewrite E in *. rewrite lookup_insert_eq in Hl'. injection Hl' as <-.
        split; [exact Hd|]. intros wt w Hwt. rewrite lookup_empty in Hwt.
        discriminate Hwt.
      * rewrite lookup_insert_ne in Hl' by congruence. apply (H d' ts' Hl').
Qed.

(** C9, as the code has it, for a document id that names nothing inherited
    and a service that is plain (on these the map of the model is the
    object of the code).  For ["translation"] the translation work is
    constructed and handed to [startTask], and control falls through: a ping
    work is constructed and handed to [startTask] as well, under the work
    type ["translation"]; that work type being registered by then,
    [startTask] does not start it.  So every recognized work type,
    ["translation"] included, starts at most one work item: its own, and
    exactly when none of that type was registered for the document.  The
    service is plain afterwards. *)
Theorem processDocumentWork_dispatch docId s :
  plain s -> ownName docId ->
  (exists s',
     processDocumentWork docId "translation" (Fulfilled true) s = Normal s'
     /\ plain s'
     /\ constructed (since s s') = [TranslationWork docId; PingWork (serverUrl s)]
     /\ handedToStartTask (since s s')
        = [TranslationWork docId; PingWork (serverUrl s)]
     /\ started (since s s')
        = if registered docId "translation" s then [] else [TranslationWork docId])
  /\ forall workType work,
       In (workType, work)
          [("snapshot", SnapshotWork docId); ("intel", IntelWork docId);
           ("spell", SpellcheckerWork docId); ("ping", PingWork (serverUrl s))] ->
       exists s',
         processDocumentWork docId workType (Fulfilled true) s = Normal s'
         /\ plain s'
         /\ constructed (since s s') = [work]
         /\ handedToStartTask (since s s') = [work]
         /\ started (since s s')
            = if registered docId workType s then [] else [work].
Proof.
  intros Hs Hd.
  assert (body : forall workType worker s0,
            plain s0 -> ownName workType ->
            plain (startTask docId workType worker (log [Constructed worker] s0))).
  { intros workType worker s0 H0 Hw. apply plain_startTask; [exact H0|exact Hd|exact Hw]. }
  split.
  - unfold processDocumentWork. simpl.
    set (s1 := startTask docId "translation" (TranslationWork docId) _).
    destruct (case_effects docId "translation" (TranslationWork docId) s)
      as (E1 & R1 & U1). fold s1 in E1, R1, U1.
    destruct (case_effects docId "translation" (PingWork (serverUrl s1)) s1)
      as (E2 & _ & _).
    rewrite R1, E1 in E2. rewrite <- app_assoc in E2.
    eexists. split; [reflexivity|].
    split; [apply body; [apply body; [exact Hs|reflexivity]|reflexivity]|].
    rewrite (effects_since _ _ _ E2), U1.
    destruct (registered docId "translation" s); simpl; auto.
  - intros workType work Hin. simpl in Hin.
    destruct Hin as [H|[H|[H|[H|[]]]]]; injection H as <- <-;
      unfold processDocumentWork; simpl;
      (eexists; split; [reflexivity|]);
      (split; [apply body; [exact Hs|reflexivity]|]);
      match goal with
      | |- context [startTask docId ?wt ?w (log _ s)] =>
          destruct (case_effects docId wt w s) as (E & _ & _);
          rewrite (effects_since _ _ _ E);
          destruct (registered docId wt s); simpl; auto
      end.
Qed.

(** A fresh service: ["ping"] starts its one work item. *)
Lemma processDocumentWork_dispatch_witness :
  exists s',
    processDocumentWork "doc" "ping" (Fulfilled true) (initial "http://server")
    = Normal s'
    /\ plain s'
    /\ constructed (since (initial "http://server") s') = [PingWork "http://server"]
    /\ handedToStartTask (since (initial "http://server") s')
       = [PingWork "http://server"]
    /\ started (since (initial "http://server") s')
       = if registered "doc" "ping" (initial "http://server") then []
         else [PingWork "http://server"].
Proof.
  apply (processDocumentWork_dispatch "doc" (initial "http://server")).
  - apply plain_initial.
  - reflexivity.
  - simpl. auto.
Defined.

(** C9 as stated fails: on a fresh service, ["translation"] starts the
    translation work only; the ping work is constructed but never
    started. *)
Lemma translation_starts_no_ping :
  exists s',
    processDocumentWork "doc" "translation" (Fulfilled true)
      (initial "http://server") = Normal s'
    /\ constructed (effects s') = [TranslationWork "doc"; PingWork "http://server"]
    /\ started (effects s') = [TranslationWork "doc"]
    /\ ~ In (Started (PingWork "http://server")) (effects s').
Proof.
  eexists. split; [reflexivity|].
  split; [vm_compute; reflexivity|]. split; [vm_compute; reflexivity|].
  vm_compute. intros H.
  repeat (destruct H as [H|H]; [discriminate H|]). exact H.
Qed.

(** ** Starting and stopping work *)

Import Stdlib.Strings.Ascii.
Import WorkerTasks.

Lemma registered_taskOf docId workType s :
  registered docId workType s = bool_decide (is_Some (taskOf docId workType s)).
Proof.
  unfold registered, taskOf.
  destruct (documentMap s !! docId) as [tasks|]; reflexivity.
Qed.

Lemma registered_false docId workType s :
  registered docId workType s = false <-> taskOf docId workType s = None.
Proof.
  rewrite registered_taskOf, bool_decide_eq_false.
  destruct (taskOf docId workType s); split; intros H;
    first [reflexivity | discriminate H | exfalso; apply H; eauto
          | intros [x Hx]; discriminate Hx].
Qed.

Lemma registered_true docId workType s :
  registered docId workType s = true <-> is_Some (taskOf docId workType s).
Proof. rewrite registered_taskOf. apply bool_decide_eq_true. Qed.

(** The registry after [startTask]. *)
Lemma startTask_taskOf docId workType worker s d w :
  taskOf d w (startTask docId workType worker s)
  = if String.eqb d docId && String.eqb w workType then
      match taskOf docId workType s with
      | Some running => Some running
      | None => Some worker
      end
    else taskOf d w s.
Proof.
  unfold startTask, taskOf. simpl.
  destruct (String.eqb_spec d docId) as [->|Hd]; simpl.
  - destruct (String.eqb_spec w workType) as [->|Hw]; simpl.
    + destruct (documentMap s !! docId) as [tasks|] eqn:Ed; simpl.
      * rewrite Ed. destruct (tasks !! workType) as [x|] eqn:Et; simpl.
        -- rewrite Ed. simpl. exact Et.
        -- rewrite lookup_insert_eq. simpl. apply lookup_insert_eq.
      * rewrite lookup_insert_eq, lookup_empty. simpl.
        rewrite lookup_insert_eq. simpl. apply lookup_insert_eq.
    + destruct (documentMap s !! docId) as [tasks|] eqn:Ed; simpl.
      * rewrite Ed. destruct (tasks !! workType) as [x|] eqn:Et; simpl.
        -- rewrite Ed. reflexivity.
        -- rewrite lookup_insert_eq. simpl. apply lookup_insert_ne. congruence.
      * rewrite lookup_insert_eq, lookup_empty. simpl.
        rewrite lookup_insert_eq. simpl.
        rewrite lookup_insert_ne by congruence. apply lookup_empty.
  - destruct (documentMap s !! docId) as [tasks|] eqn:Ed; simpl.
    + rewrite Ed. destruct (tasks !! workType) as [x|] eqn:Et; simpl.
      * reflexivity.
      * rewrite lookup_insert_ne by congruence. reflexivity.
    + rewrite lookup_insert_eq, lookup_empty. simpl.
      rewrite lookup_insert_ne by congruence.
      rewrite lookup_insert_ne by congruence. reflexivity.
Qed.

(** The registry after [stopTask], and the task it stops. *)
Lemma stopTask_taskOf docId workType s d w :
  snd (stopTask docId workType s) = taskOf docId workType s
  /\ taskOf d w (fst (stopTask docId workType s))
     = (if String.eqb d docId && String.eqb w workType then None else taskOf d w s)
  /\ effects (fst (stopTask docId workType s)) = effects s
  /\ serverUrl (fst (stopTask docId workType s)) = serverUrl s.
Proof.
  unfold stopTask, taskOf.
  destruct (documentMap s !! docId) as [tasks|] eqn:Ed; simpl.
  - destruct (tasks !! workType) as [x|] eqn:Et; simpl.
    + split; [reflexivity|]. split; [|auto].
      destruct (String.eqb_spec d docId) as [->|Hd]; simpl.
      * rewrite lookup_insert_eq. simpl.
        destruct (String.eqb_spec w workType) as [->|Hw]; simpl.
        -- apply lookup_delete_eq.
        -- rewrite Ed. simpl. apply lookup_delete_ne. congruence.
      * rewrite lookup_insert_ne by congruence. reflexivity.
    + split; [reflexivity|]. split; [|auto].
      destruct (String.eqb_spec d docId) as [->|Hd]; simpl; [|reflexivity].
      destruct (String.eqb_spec w workType) as [->|Hw]; simpl; [|reflexivity].
      rewrite Ed. exact Et.
  - split; [reflexivity|]. split; [|auto].
    destruct (String.eqb_spec d docId) as [->|Hd]; simpl; [|reflexivity].
    destruct (String.eqb_spec w workType) as [->|Hw]; simpl; [|reflexivity].
    rewrite Ed. reflexivity.
Qed.

Lemma startTask_started docId workType worker s :
  started (since s (startTask docId workType worker s))
  = match taskOf docId workType s with Some _ => [] | None => [worker] end.
Proof.
  destruct (startTask_effects docId workType worker s) as (E & _ & _).
  rewrite (effects_since _ _ _ E), registered_taskOf.
  destruct (taskOf docId workType s); reflexivity.
Qed.





(** [stopTask] keeps a plain service plain. *)
Lemma plain_stopTask docId workType s : plain s -> plain (fst (stopTask docId workType s)).
Proof.
  intros H. unfold stopTask.
  destruct (documentMap s !! docId) as [taskMap|] eqn:Ed; [|exact H].
  destruct (taskMap !! workType) as [task|] eqn:Et; [|exact H].
  intros d ts Hl. simpl in Hl.
  destruct (String.eqb_spec d docId) as [E|E].
  - rewrite E in *. rewrite lookup_insert_eq in Hl. injection Hl as <-.
    split; [apply (H docId taskMap Ed)|].
    intros wt w Hwt. apply lookup_delete_Some in Hwt as [_ Hwt].
    apply (H docId taskMap Ed) in Hwt. exact Hwt.
  - rewrite lookup_insert_ne in Hl by congruence. apply (H d ts Hl).
Qed.

(** X17.  On a plain service, for a document id and a work type that name
    nothing inherited: [startTask] with nothing registered for them starts
    the worker and registers it; [stopTask] then stops that very worker and
    removes the registration, a second [stopTask] does nothing, and a later
    [startTask] starts its worker again.  The service stays plain. *)
Theorem startTask_stopTask_roundtrip docId workType worker s :
  plain s -> ownName docId -> ownName workType ->
  registered docId workType s = false ->
  let s1 := startTask docId workType worker s in
  let s2 := fst (stopTask docId workType s1) in
  started (since s s1) = [worker]
  /\ taskOf docId workType s1 = Some worker
  /\ snd (stopTask docId workType s1) = Some worker
  /\ registered docId workType s2 = false
  /\ stopTask docId workType s2 = (s2, None)
  /\ (forall worker', started (since s2 (startTask docId workType worker' s2)) = [worker'])
  /\ plain s1 /\ plain s2.
Proof.
  intros Hs Hd Hw H. cbv zeta. apply registered_false in H.
  rewrite startTask_started, H.
  pose proof (startTask_taskOf docId workType worker s docId workType) as T1.
  rewrite !String.eqb_refl, H in T1. simpl in T1.
  destruct (stopTask_taskOf docId workType (startTask docId workType worker s)
              docId workType) as (A & B & _).
  rewrite !String.eqb_refl in B. simpl in B.
  pose proof (plain_startTask docId workType worker s Hs Hd Hw) as P1.
  split; [reflexivity|]. split; [exact T1|]. split; [rewrite A; exact T1|].
  split; [apply registered_false, B|]. split; [|split; [|split]].
  - set (s2 := fst _) in *. unfold stopTask. unfold taskOf in B.
    destruct (documentMap s2 !! docId) as [tasks|]; simpl in B; [|reflexivity].
    rewrite B. reflexivity.
  - intros worker'. rewrite startTask_started, B. reflexivity.
  - exact P1.
  - apply plain_stopTask, P1.
Qed.


Lemma switch_unknown v cases s :
  ~ In v (map label cases) -> switch v cases s = None.
Proof.
  induction cases as [|c cases IH]; simpl; intros H; [reflexivity|].
  destruct (String.eqb_spec v (label c)) as [E|E].
  - exfalso. apply H. left. symmetry. exact E.
  - apply IH. intros H'. apply H. right. exact H'.
Qed.

Lemma switch_known v cases s :
  In v (map label cases) -> is_Some (switch v cases s).
Proof.
  induction cases as [|c cases IH]; simpl; intros H; [contradiction|].
  destruct (String.eqb_spec v (label c)) as [E|E]; [eauto|].
  apply IH. destruct H as [H|H]; [congruence|exact H].
Qed.

(** X18.  The callback that [processDocumentWork] hands to
    [getServiceForDoc(docId).then] throws exactly when the services are
    there and the work type is none of ["snapshot"], ["intel"], ["spell"],
    ["translation"] and ["ping"]; it throws ["Unknown work type!"], having
    changed nothing.  No caller sees that: the throw rejects the promise of
    [then], which nobody holds, while the promise that [processDocumentWork]
    returns is fulfilled and the worker of the queue answers the request
    without an error, whatever the services and the work type.
    [revokeDocumentWork] throws to its caller, exactly for such a work
    type, with the same message, having changed and stopped nothing. *)
Theorem unknown_work_type docId workType services s :
  (forall message s',
     processDocumentWork docId workType services s = Threw message s'
     <-> services = Fulfilled true /\ ~ In workType workTypes
         /\ message = "Unknown work type!" /\ s' = s)
  /\ (forall message,
        ofThen (processDocumentWork_promises docId workType services s)
        = Rejected message
        <-> services = Fulfilled true /\ ~ In workType workTypes
            /\ message = "Unknown work type!")
  /\ returned (processDocumentWork_promises docId workType services s) = Fulfilled tt
  /\ queueWorker docId workType services s = [Response None; QueueCallback]
  /\ (forall message s',
        fst (revokeDocumentWork docId workType s) = Thrown message s'
        <-> ~ In workType workTypes /\ message = "Unknown work type!" /\ s' = s)
  /\ (~ In workType workTypes -> snd (revokeDocumentWork docId workType s) = None).
Proof.
  assert (T : forall message s',
            processDocumentWork docId workType services s = Threw message s'
            <-> services = Fulfilled true /\ ~ In workType workTypes
                /\ message = "Unknown work type!" /\ s' = s).
  { intros message s'. unfold processDocumentWork.
    destruct services as [[|]|error].
    + destruct (decide (In workType workTypes)) as [Hin|Hout].
      * destruct (switch_known workType (workCases docId workType) s Hin) as [x ->].
        split; [discriminate|]. intros (_ & H & _). contradiction.
      * rewrite (switch_unknown workType (workCases docId workType) s Hout).
        split.
        -- intros H. injection H as <- <-. auto.
        -- intros (_ & _ & -> & ->). reflexivity.
    + split; [discriminate|]. intros (H & _). discriminate H.
    + split; [discriminate|]. intros (H & _). discriminate H. }
  split; [exact T|]. split; [|split; [reflexivity|split; [reflexivity|split]]].
  - intros message. unfold processDocumentWork_promises. cbn [ofThen].
    destruct (processDocumentWork docId workType services s) as [x|m x].
    + split; [discriminate|]. intros (A & B & C).
      assert (H : Normal x = Threw message s) by (apply T; auto).
      discriminate H.
    + destruct (T m x) as [E _]. destruct (E eq_refl) as (A & B & -> & ->).
      split.
      * intros H. injection H as <-. auto.
      * intros (_ & _ & ->). reflexivity.
  - intros message s'. unfold revokeDocumentWork, workTypes.
    repeat match goal with
    | |- context [String.eqb workType ?l] =>
        destruct (String.eqb_spec workType l) as [->|?];
          [simpl; split; [discriminate|intros (H & _); exfalso; apply H; simpl; tauto]|]
    end.
    simpl. split.
    + intros H. injection H as <- <-. split; [|auto]. intros [H|[H|[H|[H|[H|[]]]]]]; congruence.
    + intros (_ & -> & ->). reflexivity.
  - intros H. unfold revokeDocumentWork, workTypes in *.
    repeat match goal with
    | |- context [String.eqb workType ?l] =>
        destruct (String.eqb_spec workType l) as [->|?];
          [exfalso; apply H; simpl; tauto|]
    end.
    reflexivity.
Qed.





Lemma startTask_stopTask_roundtrip_witness :
  let s := initial "http://server" in
  let s1 := startTask "doc" "snapshot" (SnapshotWork "doc") s in
  let s2 := fst (stopTask "doc" "snapshot" s1) in
  started (since s s1) = [SnapshotWork "doc"]
  /\ taskOf "doc" "snapshot" s1 = Some (SnapshotWork "doc")
  /\ snd (stopTask "doc" "snapshot" s1) = Some (SnapshotWork "doc")
  /\ registered "doc" "snapshot" s2 = false
  /\ stopTask "doc" "snapshot" s2 = (s2, None)
  /\ (forall worker',
        started (since s2 (startTask "doc" "snapshot" worker' s2)) = [worker'])
  /\ plain s1 /\ plain s2.
Proof.
  apply (startTask_stopTask_roundtrip "doc" "snapshot" (SnapshotWork "doc")
           (initial "http://server")).
  - apply plain_initial.
  - reflexivity.
  - reflexivity.
  - reflexivity.
Defined.


(** ** Tenants and uploaded modules *)

Lemma indexOfFrom_absent s position :
  noSlash s -> indexOfFrom "/" s position = -1.
Proof.
  unfold noSlash. revert position.
  induction s as [|a s IH]; intros position H; simpl; [reflexivity|].
  destruct (Ascii.eqb_spec a "/") as [->|Ha].
  - exfalso. apply H. left. reflexivity.
  - apply IH. intros H'. apply H. right. exact H'.
Qed.

Lemma indexOfFrom_first tenant rest position :
  noSlash tenant ->
  indexOfFrom "/" (tenant +:+ String "/" rest) position
  = position + Z.of_nat (String.length tenant).
Proof.
  unfold noSlash. revert position.
  induction tenant as [|a s IH]; intros position H.
  - simpl. lia.
  - change (indexOfFrom "/" (String a (s +:+ String "/" rest)) position
            = position + Z.of_nat (S (String.length s))).
    simpl indexOfFrom.
    destruct (Ascii.eqb_spec a "/") as [->|Ha].
    + exfalso. apply H. left. reflexivity.
    + rewrite IH; [lia|]. intros H'. apply H. right. exact H'.
Qed.

Lemma substring_prefix s rest :
  String.substring 0 (String.length s) (s +:+ rest) = s.
Proof.
  induction s as [|a s IH].
  - simpl. destruct rest; reflexivity.
  - change (String a (String.substring 0 (String.length s) (s +:+ rest)) = String a s).
    rewrite IH. reflexivity.
Qed.

(** X20.  [getServiceForDoc] asks for the service of the tenant named
    before the first ["/"] of the document id; for an id without ["/"] it
    asks for the tenant [""]. *)
Theorem tenantName_prefix tenant rest :
  noSlash tenant ->
  tenantName (tenant +:+ "/" +:+ rest) = tenant
  /\ tenantName tenant = "".
Proof.
  intros H. unfold tenantName, indexOf, slice0. split.
  - change (tenant +:+ "/" +:+ rest) with (tenant +:+ String "/" rest).
    rewrite indexOfFrom_first by exact H.
    replace (0 + Z.of_nat (String.length tenant) =? -1) with false
      by (symmetry; apply Z.eqb_neq; lia).
    simpl negb. cbv iota. rewrite Z.add_0_l, Nat2Z.id. apply substring_prefix.
  - rewrite indexOfFrom_absent by exact H. reflexivity.
Qed.

Lemma tenantName_prefix_witness :
  tenantName ("fluid" +:+ "/" +:+ "doc/1") = "fluid" /\ tenantName "fluid" = "".
Proof.
  apply (tenantName_prefix "fluid" "doc/1").
  unfold noSlash. simpl. intros H.
  repeat (destruct H as [H|H]; [discriminate H|]). exact H.
Defined.

(** *** substrings *)

Lemma startsWith_spec sub s :
  startsWith sub s = true <-> exists suffix, s = sub +:+ suffix.
Proof.
  revert s. induction sub as [|a sub IH]; intros s; simpl.
  - split; [intros _; exists s; reflexivity|reflexivity].
  - destruct s as [|b s].
    + split; [discriminate|]. intros [x H]. discriminate H.
    + rewrite andb_true_iff, IH. split.
      * intros [E [x ->]]. apply Ascii.eqb_eq in E as ->. exists x. reflexivity.
      * intros [x H]. injection H as -> ->. split; [apply Ascii.eqb_refl|eauto].
Qed.

Lemma occursIn_cons sub a s :
  occursIn sub (String a s) <-> startsWith sub (String a s) = true \/ occursIn sub s.
Proof.
  split.
  - intros (before & after & H). destruct before as [|b before].
    + left. apply startsWith_spec. exists after. exact H.
    + right. injection H as -> ->. exists before, after. reflexivity.
  - intros [H|(before & after & ->)].
    + apply startsWith_spec in H as [x H]. exists "", x. exact H.
    + exists (String a before), after. reflexivity.
Qed.

Lemma indexOfStringFrom_spec sub s position :
  0 <= position ->
  indexOfStringFrom sub s position <> -1 <-> occursIn sub s.
Proof.
  revert position. induction s as [|a s IH]; intros position Hp.
  - simpl. destruct (startsWith sub "") eqn:E.
    + split; [|lia]. intros _. apply startsWith_spec in E as [x E].
      exists "", x. exact E.
    + split; [congruence|]. intros (before & after & H).
      destruct before; [|discriminate H].
      assert (startsWith sub "" = true) by (apply startsWith_spec; eauto).
      congruence.
  - rewrite occursIn_cons. simpl indexOfStringFrom.
    destruct (startsWith sub (String a s)) eqn:E.
    + split; [auto|lia].
    + rewrite IH by lia. split; [auto|]. intros [H|H]; [discriminate H|exact H].
Qed.

Lemma indexOfString_test sub s :
  negb (indexOfString sub s =? -1) = true <-> occursIn sub s.
Proof.
  rewrite negb_true_iff, Z.eqb_neq. apply indexOfStringFrom_spec. lia.
Qed.

(** X21.  Of the uploaded modules a worker loads those whose name contains
    [".js"] anywhere (a paparazzi worker: [".zip"]), each once, and no
    others; the extension need not end the name. *)
Theorem loadIfWanted_by_substring clientType moduleName :
  let wanted := if String.eqb clientType "paparazzi" then ".zip" else ".js" in
  (loaded (loadIfWanted clientType moduleName) = [moduleName]
   <-> exists before after, moduleName = before +:+ wanted +:+ after)
  /\ (loaded (loadIfWanted clientType moduleName) = []
      <-> ~ exists before after, moduleName = before +:+ wanted +:+ after).
Proof.
  cbv zeta. unfold loadIfWanted.
  destruct (String.eqb clientType "paparazzi"); cbn [negb andb].
  - pose proof (indexOfString_test ".zip" moduleName) as T. unfold occursIn in T.
    destruct (negb (indexOfString ".zip" moduleName =? -1)); cbn [app loaded omap].
    + split; split; auto.
      * intros _. apply T. reflexivity.
      * discriminate.
      * intros H. exfalso. apply H, T. reflexivity.
    + split; split; auto.
      * discriminate.
      * intros H. apply T in H. discriminate H.
      * intros _ H. apply T in H. discriminate H.
  - pose proof (indexOfString_test ".js" moduleName) as T. unfold occursIn in T.
    destruct (negb (indexOfString ".js" moduleName =? -1)); cbn [app loaded omap].
    + split; split; auto.
      * intros _. apply T. reflexivity.
      * discriminate.
      * intros H. exfalso. apply H, T. reflexivity.
    + split; split; auto.
      * discriminate.
      * intros H. apply T in H. discriminate H.
      * intros _ H. apply T in H. discriminate H.
Qed.

Lemma requests_app es1 es2 : requests (es1 ++ es2) = (requests es1 + requests es2)%nat.
Proof. unfold requests. rewrite omap_app, length_app. reflexivity. Qed.

Lemma requests_loadIfWanted clientType names :
  requests (flat_map (loadIfWanted clientType) names) = 0%nat.
Proof.
  induction names as [|n names IH]; simpl; [reflexivity|].
  rewrite requests_app, IH. unfold loadIfWanted.
  destruct (_ && _); destruct (_ && _); reflexivity.
Qed.

Lemma loadUploadedModules_from clientType agentServer errors body rest tryCounter :
  tryCounter <= 5 ->
  let es := loadUploadedModules clientType agentServer tryCounter
              (map Rejected errors ++ Fulfilled body :: rest) in
  if tryCounter + Z.of_nat (length errors) <=? 5 then
    requests es = S (length errors)
    /\ loaded es = loaded (flat_map (loadIfWanted clientType) (default [] body))
  else
    requests es = Z.to_nat (6 - tryCounter) /\ loaded es = [].
Proof.
  cbv zeta. revert tryCounter.
  induction errors as [|e errors IH]; intros tryCounter Hc.
  - replace (tryCounter + Z.of_nat (length []) <=? 5) with true
      by (symmetry; apply Z.leb_le; simpl; lia).
    destruct body as [names|]; simpl; [|split; reflexivity].
    split; [|reflexivity].
    change (S (requests (flat_map (loadIfWanted clientType) names)) = 1%nat).
    rewrite requests_loadIfWanted. reflexivity.
  - simpl map. simpl app. simpl loadUploadedModules.
    destruct (Z.leb_spec (tryCounter + 1) 5) as [Hr|Hr].
    + specialize (IH (tryCounter + 1) Hr).
      replace (tryCounter + Z.of_nat (length (e :: errors)) <=? 5)
        with (tryCounter + 1 + Z.of_nat (length errors) <=? 5)
        by (f_equal; simpl length; lia).
      destruct (tryCounter + 1 + Z.of_nat (length errors) <=? 5);
        destruct IH as [R L]; split.
      * change (S (requests (loadUploadedModules clientType agentServer
                               (tryCounter + 1)
                               (map Rejected errors ++ Fulfilled body :: rest)))
                = S (length (e :: errors))).
        rewrite R. reflexivity.
      * exact L.
      * change (S (requests (loadUploadedModules clientType agentServer
                               (tryCounter + 1)
                               (map Rejected errors ++ Fulfilled body :: rest)))
                = Z.to_nat (6 - tryCounter)).
        rewrite R. lia.
      * exact L.
    + replace (tryCounter + Z.of_nat (length (e :: errors)) <=? 5) with false
        by (symmetry; apply Z.leb_gt; simpl length; lia).
      split; [|reflexivity].
      change (1%nat = Z.to_nat (6 - tryCounter)). lia.
Qed.

Lemma loadUploadedModules_bound clientType agentServer outcomes tryCounter :
  tryCounter <= 5 ->
  (requests (loadUploadedModules clientType agentServer tryCounter outcomes)
   <= Z.to_nat (6 - tryCounter))%nat.
Proof.
  revert tryCounter. induction outcomes as [|o outcomes IH]; intros tryCounter Hc.
  - change (1 <= Z.to_nat (6 - tryCounter))%nat. lia.
  - destruct o as [[names|]|err]; simpl loadUploadedModules.
    + change (S (requests (flat_map (loadIfWanted clientType) names))
              <= Z.to_nat (6 - tryCounter))%nat.
      rewrite requests_loadIfWanted. lia.
    + change (1 <= Z.to_nat (6 - tryCounter))%nat. lia.
    + destruct (Z.leb_spec (tryCounter + 1) 5) as [Hr|Hr].
      * specialize (IH (tryCounter + 1) Hr).
        change (S (requests (loadUploadedModules clientType agentServer
                               (tryCounter + 1) outcomes))
                <= Z.to_nat (6 - tryCounter))%nat.
        lia.
      * change (1 <= Z.to_nat (6 - tryCounter))%nat. lia.
Qed.

Lemma retryDelays_loadIfWanted clientType names :
  retryDelays (flat_map (loadIfWanted clientType) names) = [].
Proof.
  induction names as [|n names IH]; simpl; [reflexivity|].
  unfold retryDelays in *. rewrite omap_app, IH. unfold loadIfWanted.
  destruct (_ && _); destruct (_ && _); reflexivity.
Qed.

Lemma requests_loadUploadedModules clientType agentServer tryCounter outcomes :
  exists n, requests (loadUploadedModules clientType agentServer tryCounter outcomes)
            = S n.
Proof.
  destruct outcomes; simpl; eexists; reflexivity.
Qed.

Lemma loadUploadedModules_delays clientType agentServer outcomes tryCounter :
  let es := loadUploadedModules clientType agentServer tryCounter outcomes in
  retryDelays es = repeat 10000 (requests es - 1).
Proof.
  cbv zeta. revert tryCounter.
  induction outcomes as [|o outcomes IH]; intros tryCounter; [reflexivity|].
  destruct o as [[names|]|err]; simpl loadUploadedModules.
  - change (retryDelays (flat_map (loadIfWanted clientType) names)
            = repeat 10000 (S (requests (flat_map (loadIfWanted clientType) names)) - 1)).
    rewrite retryDelays_loadIfWanted, requests_loadIfWanted. reflexivity.
  - reflexivity.
  - destruct (tryCounter + 1 <=? 5); [|reflexivity].
    specialize (IH (tryCounter + 1)).
    destruct (requests_loadUploadedModules clientType agentServer (tryCounter + 1)
                outcomes) as (n & En).
    change (10000 :: retryDelays (loadUploadedModules clientType agentServer
                                    (tryCounter + 1) outcomes)
            = repeat 10000
                (S (requests (loadUploadedModules clientType agentServer
                                (tryCounter + 1) outcomes)) - 1)).
    rewrite IH, En. simpl. rewrite Nat.sub_0_r. reflexivity.
Qed.

Lemma loadUploadedModules_trace clientType agentServer errors body rest tryCounter :
  tryCounter + Z.of_nat (length errors) <= 5 ->
  loadUploadedModules clientType agentServer tryCounter
    (map Rejected errors ++ Fulfilled body :: rest)
  = flat_map (fun err => [RequestModuleNames agentServer;
                          Log ("Error loading uploaded modules: " +:+ err);
                          RetryIn 10000]) errors
    ++ RequestModuleNames agentServer
       :: flat_map (loadIfWanted clientType) (default [] body).
Proof.
  revert tryCounter. induction errors as [|e errors IH]; intros tryCounter Hc.
  - destruct body as [names|]; reflexivity.
  - simpl length in Hc. simpl map. simpl app. simpl loadUploadedModules.
    replace (tryCounter + 1 <=? 5) with true by (symmetry; apply Z.leb_le; lia).
    rewrite IH by lia. reflexivity.
Qed.

(** X22.  [loadUploadedModules] asks for the module names at most six times:
    a rejected request is logged and, while [tryCounter] is 5 or less,
    repeated after ten seconds, so after six rejections it gives up,
    whatever a seventh request would answer.  Every request but the first
    is one scheduled with a delay of 10000 ms, and no other delay is ever
    scheduled.  The first fulfilled request ends the retries, and its
    modules are the ones loaded; a body that cannot be read loads nothing
    and is not retried.  With five rejections or fewer before it, the
    effects are, for each rejection in turn, the request, the log of the
    error and the timeout of 10000 ms, then the fulfilled request and the
    loading of its modules. *)
Theorem loadUploadedModules_retries clientType agentServer :
  (forall outcomes,
     (requests (loadUploadedModules clientType agentServer 0 outcomes) <= 6)%nat)
  /\ (forall errors body rest,
       let es := loadUploadedModules clientType agentServer 0
                   (map Rejected errors ++ Fulfilled body :: rest) in
       if (length errors <=? 5)%nat then
         requests es = S (length errors)
         /\ loaded es = loaded (flat_map (loadIfWanted clientType) (default [] body))
       else
         requests es = 6%nat /\ loaded es = [])
  /\ (forall outcomes,
       let es := loadUploadedModules clientType agentServer 0 outcomes in
       retryDelays es = repeat 10000 (requests es - 1))
  /\ (forall errors body rest,
       (length errors <= 5)%nat ->
       loadUploadedModules clientType agentServer 0
         (map Rejected errors ++ Fulfilled body :: rest)
       = flat_map (fun err => [RequestModuleNames agentServer;
                               Log ("Error loading uploaded modules: " +:+ err);
                               RetryIn 10000]) errors
         ++ RequestModuleNames agentServer
            :: flat_map (loadIfWanted clientType) (default [] body))
  /\ (forall errors rest,
       (6 <= length errors)%nat ->
       retryDelays (loadUploadedModules clientType agentServer 0
                      (map Rejected errors ++ rest))
       = repeat 10000 5).
Proof.
  split.
  { intros outcomes.
    apply (loadUploadedModules_bound clientType agentServer outcomes 0). lia. }
  split.
  { intros errors body rest. cbv zeta.
    pose proof (loadUploadedModules_from clientType agentServer errors body rest 0
                  ltac:(lia)) as H.
    cbv zeta in H.
    destruct (Nat.leb_spec (length errors) 5) as [L|L].
    - replace (0 + Z.of_nat (length errors) <=? 5) with true in H
        by (symmetry; apply Z.leb_le; lia).
      exact H.
    - replace (0 + Z.of_nat (length errors) <=? 5) with false in H
        by (symmetry; apply Z.leb_gt; lia).
      exact H. }
  split.
  { intros outcomes. apply loadUploadedModules_delays. }
  split.
  { intros errors body rest L. apply loadUploadedModules_trace. lia. }
  intros errors rest L.
  do 6 (destruct errors as [|? errors]; [simpl in L; lia|]).
  reflexivity.
Qed.

End WorkerServiceFacts.

(** ** Runtime modules and intel work *)

Module WorkerModulesFacts.
Import WorkerModules.

Lemma registrations_app w code es1 es2 :
  registrations w code (es1 ++ es2)
  = (registrations w code es1 + registrations w code es2)%nat.
Proof. unfold registrations. rewrite omap_app, length_app. reflexivity. Qed.

Lemma registrations_In w code es :
  In (RegisterNewService w code) es -> (1 <= registrations w code es)%nat.
Proof.
  intros H. apply in_split in H as (l1 & l2 & ->).
  rewrite registrations_app.
  change (registrations w code (RegisterNewService w code :: l2))
    with (length (omap (fun e => match e with
                         | RegisterNewService w' code' =>
                             if Nat.eqb w' w && String.eqb code' code
                             then Some tt else None
                         | _ => None
                         end) (RegisterNewService w code :: l2))).
  simpl. rewrite Nat.eqb_refl, String.eqb_refl. simpl. lia.
Qed.

Lemma registerEverywhere_In name code dm docId taskMap w :
  dm !! docId = Some taskMap -> taskMap !! "intel" = Some w ->
  In (RegisterNewService w code) (registerEverywhere name code dm).
Proof.
  intros Hd Hw. unfold registerEverywhere.
  apply in_flat_map. exists (docId, taskMap). split.
  - apply list_elem_of_In, elem_of_map_to_list, Hd.
  - apply in_flat_map. exists ("intel", w). split.
    + apply list_elem_of_In, elem_of_map_to_list, Hw.
    + simpl. right. left. reflexivity.
Qed.

Lemma registerAll_In docId w rm name code :
  rm !! name = Some code -> In (RegisterNewService w code) (registerAll docId w rm).
Proof.
  intros H. unfold registerAll. apply in_flat_map. exists (name, code). split.
  - apply list_elem_of_In, elem_of_map_to_list, H.
  - right. left. reflexivity.
Qed.

Lemma intelStarted_app es1 es2 :
  intelStarted (es1 ++ es2) = intelStarted es1 ++ intelStarted es2.
Proof. apply omap_app. Qed.

Lemma intelStarted_registerAll docId w rm : intelStarted (registerAll docId w rm) = [].
Proof.
  unfold registerAll. induction (map_to_list rm) as [|[name code] l IH]; [reflexivity|].
  simpl. exact IH.
Qed.

Lemma intelStarted_registerEverywhere name code dm :
  intelStarted (registerEverywhere name code dm) = [].
Proof.
  unfold registerEverywhere.
  induction (map_to_list dm) as [|[docId taskMap] l IH]; [reflexivity|].
  simpl. rewrite intelStarted_app, IH, app_nil_r.
  induction (map_to_list taskMap) as [|[workType w] l' IH']; [reflexivity|].
  simpl. rewrite intelStarted_app, IH', app_nil_r.
  destruct (String.eqb workType "intel"); reflexivity.
Qed.


(** What [startTask] does, by whether a work of that type is registered
    for the document. *)
Lemma startTask_cases docId workType w s :
  let tasks := default ∅ (documentMap s !! docId) in
  match tasks !! workType with
  | Some _ =>
      effects (startTask docId workType w s) = effects s
      /\ promises (startTask docId workType w s) = promises s
      /\ forall d, intelOf d (startTask docId workType w s) = intelOf d s
  | None =>
      effects (startTask docId workType w s)
      = effects s ++ [ConsoleLog ("Starting work " +:+ workType
                                  +:+ " for document " +:+ docId); WorkerStart w]
      /\ promises (startTask docId workType w s)
         = promises s ++ [StartOf docId workType w]
      /\ forall d, intelOf d (startTask docId workType w s)
                   = if String.eqb d docId && String.eqb workType "intel"
                     then Some w else intelOf d s
  end
  /\ runtimeModules (startTask docId workType w s) = runtimeModules s
  /\ constructed (startTask docId workType w s) = constructed s.
Proof.
  cbv zeta. unfold startTask, intelOf.
  destruct (documentMap s !! docId) as [tasks|] eqn:Ed; simpl.
  - rewrite Ed. destruct (tasks !! workType) as [x|] eqn:Et; simpl.
    + auto.
    + split; [|auto]. rewrite <- app_assoc. split; [reflexivity|].
      split; [reflexivity|]. intros d.
      destruct (String.eqb_spec d docId) as [->|Hd]; simpl.
      * rewrite lookup_insert_eq, Ed. simpl.
        destruct (String.eqb_spec workType "intel") as [->|Hw].
        -- apply lookup_insert_eq.
        -- apply lookup_insert_ne. exact Hw.
      * rewrite lookup_insert_ne by congruence. reflexivity.
  - rewrite lookup_insert_eq, lookup_empty. simpl.
    split; [|auto]. rewrite <- app_assoc. split; [reflexivity|].
    split; [reflexivity|]. intros d.
    destruct (String.eqb_spec d docId) as [->|Hd]; simpl.
    + rewrite lookup_insert_eq, Ed. simpl.
      destruct (String.eqb_spec workType "intel") as [->|Hw].
      * apply lookup_insert_eq.
      * rewrite lookup_insert_ne by exact Hw. apply lookup_empty.
    + rewrite !lookup_insert_ne by congruence. reflexivity.
Qed.

Lemma stopTask_intelOf docId workType s d w :
  intelOf d (stopTask docId workType s) = Some w -> intelOf d s = Some w.
Proof.
  unfold stopTask, intelOf.
  destruct (documentMap s !! docId) as [taskMap|] eqn:Ed; [|auto].
  destruct (taskMap !! workType) as [task|] eqn:Et; [|auto]. simpl.
  destruct (String.eqb_spec d docId) as [->|Hd].
  - rewrite lookup_insert_eq, Ed. simpl. intros H.
    apply lookup_delete_Some in H. apply H.
  - rewrite lookup_insert_ne by congruence. auto.
Qed.

Lemma In_delete {A} (x : A) i (l : list A) : In x (delete i l) -> In x l.
Proof.
  revert i. induction l as [|a l IH]; intros [|i]; simpl; auto.
  intros [H|H]; eauto.
Qed.

Lemma complete_step e s : known s -> complete s -> known (step e s) /\ complete (step e s).
Proof.
  intros [K1 K2] C. destruct e as [d wt|d wt|name|name|i outcome]; simpl.
  - (* startTask *)
    set (s1 := {| documentMap := documentMap s; constructed := S (constructed s) |}).
    pose proof (startTask_cases d wt (constructed s) s1) as H. cbv zeta in H.
    destruct H as (H & Hr & Hc).
    destruct (default ∅ (documentMap s1 !! d) !! wt) as [x|].
    + destruct H as (He & Hp & Hi). split.
      * split.
        -- intros w Hw. rewrite Hc, He in *. specialize (K1 w Hw). simpl. lia.
        -- intros d' wt' w Hw. rewrite Hc, Hp in *. specialize (K2 _ _ _ Hw). simpl. lia.
      * intros d' w name code. rewrite Hi, He, Hr. apply C.
    + destruct H as (He & Hp & Hi). split.
      * split.
        -- intros w. rewrite Hc, He, intelStarted_app. simpl. rewrite app_nil_r.
           intros Hw. specialize (K1 w Hw). lia.
        -- intros d' wt' w. rewrite Hc, Hp. simpl. intros Hw.
           apply in_app_or in Hw as [Hw|[Hw|[]]].
           ++ specialize (K2 _ _ _ Hw). lia.
           ++ injection Hw as _ _ <-. lia.
      * intros d' w name code. rewrite Hi, He, Hr, intelStarted_app. simpl.
        rewrite app_nil_r.
        destruct (String.eqb d' d && String.eqb wt "intel").
        -- intros Hw Hm. injection Hw as <-. specialize (K1 _ Hm). lia.
        -- intros Hw Hm Hn. apply in_or_app. left. apply (C d' w name code); assumption.
  - (* stopTask *)
    assert (E : effects (stopTask d wt s) = effects s
                \/ exists task, effects (stopTask d wt s) = effects s ++ [TaskStop task]).
    { unfold stopTask. destruct (documentMap s !! d) as [taskMap|]; [|auto].
      destruct (taskMap !! wt) as [task|]; [|auto]. right. exists task. reflexivity. }
    assert (P : promises (stopTask d wt s) = promises s
                /\ constructed (stopTask d wt s) = constructed s
                /\ runtimeModules (stopTask d wt s) = runtimeModules s).
    { unfold stopTask. destruct (documentMap s !! d) as [taskMap|]; [|auto].
      destruct (taskMap !! wt) as [task|]; auto. }
    destruct P as (Pp & Pc & Pr).
    assert (M : intelStarted (effects (stopTask d wt s)) = intelStarted (effects s)).
    { destruct E as [->|[task ->]]; [reflexivity|].
      rewrite intelStarted_app. apply app_nil_r. }
    split.
    + split.
      * intros w. rewrite M, Pc. apply K1.
      * intros d' wt' w. rewrite Pp, Pc. apply K2.
    + intros d' w name code Hi. rewrite M, Pr. intros Hm Hn.
      apply stopTask_intelOf in Hi.
      pose proof (C d' w name code Hi Hm Hn) as R.
      destruct E as [->|[task ->]]; [exact R|]. apply in_or_app. left. exact R.
  - (* loadNewModule *)
    split.
    + split.
      * intros w. simpl. rewrite intelStarted_app. simpl. rewrite app_nil_r. apply K1.
      * intros d' wt' w. simpl. intros Hw.
        apply in_app_or in Hw as [Hw|[Hw|[]]]; [|discriminate Hw].
        apply (K2 _ _ _ Hw).
    + intros d' w n code. simpl. rewrite intelStarted_app. simpl. rewrite app_nil_r.
      intros Hi Hm Hn. apply in_or_app. left. apply (C d' w n code); assumption.
  - (* unloadModule *)
    unfold unloadModule. destruct (runtimeModules s !! name) as [c|];
      [|split; [split; assumption|assumption]].
    split.
    + split; [exact K1|exact K2].
    + intros d' w n code. simpl. intros Hi Hm Hn.
      apply lookup_delete_Some in Hn as [_ Hn]. apply (C d' w n code); assumption.
  - (* a promise settles *)
    destruct (promises s !! i) as [p|] eqn:Ep;
      [|split; [split; assumption|assumption]].
    assert (Kp : forall d' wt' w, In (StartOf d' wt' w) (delete i (promises s)) ->
                                  (w < constructed s)%nat).
    { intros d' wt' w Hw. apply In_delete in Hw. apply (K2 _ _ _ Hw). }
    destruct p as [d wt w0|name]; destruct outcome as [v|err]; simpl.
    + (* start fulfilled *)
      destruct (String.eqb_spec wt "intel") as [->|Hwt].
      * assert (W0 : (w0 < constructed s)%nat).
        { apply (K2 d "intel" w0). apply list_elem_of_In.
          apply list_elem_of_lookup. eauto. }
        split.
        -- split; [|exact Kp].
           intros w. simpl. rewrite intelStarted_app. simpl.
           rewrite intelStarted_registerAll. intros Hw.
           apply in_app_or in Hw as [Hw|[<-|[]]]; [apply K1, Hw|exact W0].
        -- intros d' w n code. simpl. rewrite intelStarted_app. simpl.
           rewrite intelStarted_registerAll. intros Hi Hm Hn.
           apply in_or_app. apply in_app_or in Hm as [Hm|[<-|[]]].
           ++ left. apply (C d' w n code); assumption.
           ++ right. right. apply (registerAll_In d w0 _ n code Hn).
      * split; [split; [exact K1|exact Kp]|exact C].
    + (* start rejected *)
      split.
      * split; [|exact Kp]. intros w. simpl. rewrite intelStarted_app. simpl.
        rewrite app_nil_r. apply K1.
      * intros d' w n code. simpl. rewrite intelStarted_app. simpl. rewrite app_nil_r.
        intros Hi Hm Hn. apply in_or_app. left. apply (C d' w n code); assumption.
    + (* load fulfilled *)
      split.
      * split; [|exact Kp]. intros w. simpl. rewrite intelStarted_app. simpl.
        rewrite intelStarted_registerEverywhere, app_nil_r. apply K1.
      * intros d' w n code. simpl. rewrite intelStarted_app. simpl.
        rewrite intelStarted_registerEverywhere, app_nil_r.
        intros Hi Hm Hn. apply in_or_app.
        destruct (String.eqb_spec n name) as [->|Hne].
        -- rewrite lookup_insert_eq in Hn. injection Hn as <-.
           right. right. unfold intelOf in Hi. simpl in Hi.
           destruct (documentMap s !! d') as [taskMap|] eqn:Ed; [|discriminate Hi].
           apply (registerEverywhere_In name v _ d' taskMap w Ed Hi).
        -- rewrite lookup_insert_ne in Hn by congruence.
           left. apply (C d' w n code); assumption.
    + (* load rejected *)
      split.
      * split; [|exact Kp]. intros w. simpl. rewrite intelStarted_app. simpl.
        rewrite app_nil_r. apply K1.
      * intros d' w n code. simpl. rewrite intelStarted_app. simpl. rewrite app_nil_r.
        intros Hi Hm Hn. apply in_or_app. left. apply (C d' w n code); assumption.
Qed.

Lemma complete_steps es s :
  known s -> complete s -> known (steps es s) /\ complete (steps es s).
Proof.
  revert s. induction es as [|e es IH]; intros s K C; [auto|].
  simpl. destruct (complete_step e s K C) as [K' C']. apply IH; assumption.
Qed.

Lemma plainState_step e s : plainEvent e -> plainState s -> plainState (step e s).
Proof.
  intros He (D & R & P). destruct e as [d wt|d wt|name|name|i outcome]; simpl in *.
  - (* startTask *)
    destruct He as [Hd Hw]. unfold startTask. simpl.
    assert (upd : forall (tasks : gmap string WorkId) (dm : gmap string (gmap string WorkId)),
              (forall wt' w', tasks !! wt' = Some w' -> WorkerService.ownName wt') ->
              (forall d' t', dm !! d' = Some t' ->
                 WorkerService.ownName d'
                 /\ forall wt' w', t' !! wt' = Some w' -> WorkerService.ownName wt') ->
              forall w d' t', <[d := <[wt := w]> tasks]> dm !! d' = Some t' ->
                WorkerService.ownName d'
                /\ forall wt' w', t' !! wt' = Some w' -> WorkerService.ownName wt').
    { intros tasks dm Ht Hdm w d' t' H.
      destruct (String.eqb_spec d' d) as [E|N].
      - rewrite E in *. rewrite lookup_insert_eq in H. injection H as <-.
        split; [exact Hd|]. intros wt' w' H'.
        destruct (String.eqb_spec wt' wt) as [E'|N'].
        + rewrite E'. exact Hw.
        + rewrite lookup_insert_ne in H' by congruence. apply (Ht _ _ H').
      - rewrite lookup_insert_ne in H by congruence. apply (Hdm _ _ H). }
    assert (app : forall name, In (LoadOf name) (promises s ++ [StartOf d wt (constructed s)]) ->
                               WorkerService.ownName name).
    { intros name H. apply in_app_or in H as [H|[H|[]]]; [apply P, H|discriminate H]. }
    destruct (documentMap s !! d) as [tasks|] eqn:Ed; simpl.
    + rewrite Ed. destruct (tasks !! wt) as [x|] eqn:Et; simpl.
      * split; [exact D|split; [exact R|exact P]].
      * split; [|split; [exact R|exact app]].
        intros d' t'. apply upd; [apply (D d tasks Ed)|exact D].
    + rewrite lookup_insert_eq, lookup_empty. simpl.
      split; [|split; [exact R|exact app]].
      intros d' t'. apply upd.
      * intros wt' w' H. rewrite lookup_empty in H. discriminate H.
      * intros d0 t0 H. destruct (String.eqb_spec d0 d) as [E|N].
        -- rewrite E in *. rewrite lookup_insert_eq in H. injection H as <-.
           split; [exact Hd|]. intros wt' w' H. rewrite lookup_empty in H. discriminate H.
        -- rewrite lookup_insert_ne in H by congruence. apply (D _ _ H).
  - (* stopTask *)
    unfold stopTask.
    destruct (documentMap s !! d) as [taskMap|] eqn:Ed;
      [|split; [exact D|split; [exact R|exact P]]].
    destruct (taskMap !! wt) as [task|] eqn:Et;
      [|split; [exact D|split; [exact R|exact P]]].
    simpl. split; [|split; [exact R|exact P]].
    intros d' t' H. simpl in H. destruct (String.eqb_spec d' d) as [E|N].
    + rewrite E in *. rewrite lookup_insert_eq in H. injection H as <-.
      destruct (D d taskMap Ed) as [Hd Ht]. split; [exact Hd|].
      intros wt' w' H. apply lookup_delete_Some in H as [_ H]. apply (Ht _ _ H).
    + rewrite lookup_insert_ne in H by congruence. apply (D _ _ H).
  - (* loadNewModule *)
    split; [exact D|split; [exact R|]].
    intros n H. apply in_app_or in H as [H|[H|[]]]; [apply P, H|].
    injection H as <-. exact He.
  - (* unloadModule *)
    unfold unloadModule.
    destruct (runtimeModules s !! name) as [c|];
      [|split; [exact D|split; [exact R|exact P]]].
    simpl. split; [exact D|split; [|exact P]].
    intros n c' H. simpl in H. apply lookup_delete_Some in H as [_ H]. apply (R _ _ H).
  - (* a promise settles *)
    destruct (promises s !! i) as [p|] eqn:Ep;
      [|split; [exact D|split; [exact R|exact P]]].
    assert (P' : forall name, In (LoadOf name) (delete i (promises s)) ->
                              WorkerService.ownName name).
    { intros n H. apply In_delete in H. apply P, H. }
    destruct p as [d wt w0|name]; destruct outcome as [v|err]; simpl.
    + destruct (String.eqb wt "intel"); split; try exact D; split; try exact R; exact P'.
    + split; [exact D|split; [exact R|exact P']].
    + split; [exact D|split; [|exact P']].
      intros n c H. simpl in H. destruct (String.eqb_spec n name) as [E|N].
      * rewrite E. apply P. apply list_elem_of_In. apply list_elem_of_lookup. eauto.
      * rewrite lookup_insert_ne in H by congruence. apply (R _ _ H).
    + split; [exact D|split; [exact R|exact P']].
Qed.

Lemma plainState_initial : plainState initial.
Proof.
  split; [|split].
  - intros d t H. simpl in H. rewrite lookup_empty in H. discriminate H.
  - intros n c H. simpl in H. rewrite lookup_empty in H. discriminate H.
  - intros n [].
Qed.

Lemma plainState_steps es s :
  Forall plainEvent es -> plainState s -> plainState (steps es s).
Proof.
  revert s. induction es as [|e es IH]; intros s He Hs; [exact Hs|].
  apply Forall_cons in He as [He Hes].
  simpl. apply IH; [exact Hes|]. apply plainState_step; assumption.
Qed.

(** X23.  No module is missed, as long as the document ids, work types and
    module names name nothing that plain objects inherit from
    [Object.prototype]: over any such calls of [startTask], [stopTask],
    [loadNewModule] and [unloadModule] and any settlements of the promises
    they leave open, the keys of [documentMap], of its task maps and of
    [runtimeModules] are own names, and every module among the runtime
    modules has been registered at least once with every intel work that is
    registered and whose [start()] has been fulfilled. *)
Theorem no_module_missed es docId w name code :
  Forall plainEvent es ->
  let s := steps es initial in
  intelOf docId s = Some w ->
  In w (intelStarted (effects s)) ->
  runtimeModules s !! name = Some code ->
  plainState s
  /\ (1 <= registrations w code (effects s))%nat.
Proof.
  cbv zeta. intros He Hi Hm Hn.
  split; [apply plainState_steps; [exact He|apply plainState_initial]|].
  apply registrations_In.
  destruct (complete_steps es initial) as [_ C].
  - split; [intros ? []|intros ? ? ? []].
  - intros ? ? ? ? H. discriminate H.
  - apply (C docId w name code); assumption.
Qed.




Lemma no_module_missed_witness :
  plainState (steps Samples.moduleAfterStart initial)
  /\ (1 <= registrations 0 "code" (effects (steps Samples.moduleAfterStart initial)))%nat.
Proof.
  apply (no_module_missed Samples.moduleAfterStart "doc" 0%nat "m.js" "code").
  - unfold Samples.moduleAfterStart.
    repeat (apply List.Forall_cons; [vm_compute; auto|]). apply List.Forall_nil.
  - vm_compute. reflexivity.
  - vm_compute. left. reflexivity.
  - vm_compute. reflexivity.
Defined.


End WorkerModulesFacts.
